(** * Verification of the WFC terrain generator ([terrain_generator.py])

    A shallow embedding of the generator: the tile catalogue, the planet
    profile sampler, the Wave Function Collapse solver, the heightfield
    synthesiser, the biome classifier and the OBJ exporter, followed by the
    properties proved about them.

    Modelling conventions.
    - Python [float]s are exact rationals [Q]; what the code obtains from the
      random source and from [math] ([log], [hypot]) is left to an interface,
      so every theorem holds for every such source and library.  Where the
      code compares two floats the model compares the exact values, so a
      double that rounds across a threshold can take the other branch in
      the code.
    - Python exceptions are the [Raise] outcomes of an error monad; code that
      also consumes the random source lives in a state-and-error monad.
    - A [set] of tile names is a [gset string]; the order in which CPython
      iterates over it depends on the string hashes of the running process
      and is therefore an interface of its own ([SetOrder]).
    - [while] loops are run on fuel; the theorems show that the fuel the
      model hands out is never exhausted.
    - Files are what the run returns: the OBJ file is the list of its lines
      with the numbers left unformatted, the metadata file is a record; the
      summary line printed at the end is left out. *)

From Stdlib Require Import QArith Qminmax ZArith Lia Lqa.
From stdpp Require Import gmap strings list fin_maps fin_sets.

#[local] Set Warnings "-clear-no-such-hyp".

Open Scope string_scope.
Open Scope list_scope.
Open Scope Z_scope.

(** ** Outcomes of a Python computation *)

Inductive exn : Type :=
  | ZeroDivisionError
  | IndexError
  | KeyError
  | ValueError
  | StopIteration.

(** [Timeout] is an artefact of running loops on fuel; no Python behaviour
    corresponds to it. *)
Inductive outcome (A : Type) : Type :=
  | Ok (a : A)
  | Raise (e : exn)
  | Timeout.
Arguments Ok {A} a.
Arguments Raise {A} e.
Arguments Timeout {A}.

#[global] Instance outcome_ret : MRet outcome := λ A a, Ok a.
#[global] Instance outcome_bind : MBind outcome := λ A B f m,
  match m with
  | Ok a => f a
  | Raise e => Raise e
  | Timeout => Timeout
  end.

(** ** The interfaces the program runs against *)

(** [random.Random]: its state, its constructor from a seed and the three
    primitives the program reaches ([uniform] is derived from [random], and
    [choice] from [_randbelow], as in CPython). *)
Class RandomSource : Type := {
  rng : Type;
  Random : Z → rng;
  random : rng → Q * rng;
  gauss : Q → Q → rng → Q * rng;
  randbelow : nat → rng → nat * rng;
  randbelow_lt : ∀ n s, (0 < n)%nat → (fst (randbelow n s) < n)%nat
}.

(** The two functions of [math] that the program calls. *)
Class MathLib : Type := {
  math_log : Q → Q;
  math_hypot : Z → Z → Q
}.

(** The iteration order of a [set] of strings.  It is fixed within one
    process but varies between processes with the hash secret. *)
Class SetOrder : Type := {
  set_iter : gset string → list string;
  set_iter_perm : ∀ s, set_iter s ≡ₚ elements s
}.

(** ** Python primitives *)

Definition Qltb (a b : Q) : bool := negb (Qle_bool b a).

(** [max(a, b)] and [min(a, b)]: the first argument wins ties. *)
Definition py_max (a b : Q) : Q := if Qltb a b then b else a.
Definition py_min (a b : Q) : Q := if Qltb b a then b else a.

Definition py_abs (a : Q) : Q := if Qltb a 0 then (- a)%Q else a.

(** [sum(l)] *)
Definition py_sum (l : list Q) : Q := foldl Qplus 0%Q l.

(** [a / b] on floats (and on ints, true division). *)
Definition py_div (a b : Q) : outcome Q :=
  if Qeq_bool b 0 then Raise ZeroDivisionError else Ok (a / b)%Q.

(** [l[i]], negative indices counting from the end. *)
Definition py_index {A} (l : list A) (i : Z) : outcome A :=
  let n := Z.of_nat (length l) in
  let j := if i <? 0 then i + n else i in
  if (0 <=? j) && (j <? n) then
    match l !! Z.to_nat j with
    | Some a => Ok a
    | None => Raise IndexError
    end
  else Raise IndexError.

(** [l[i] = v] *)
Definition py_setitem {A} (l : list A) (i : Z) (v : A) : outcome (list A) :=
  let n := Z.of_nat (length l) in
  let j := if i <? 0 then i + n else i in
  if (0 <=? j) && (j <? n) then Ok (<[Z.to_nat j := v]> l)
  else Raise IndexError.

(** [range(n)] *)
Definition py_range (n : Z) : list Z := seqZ 0 n.

(** [d[k]] on a dict kept as an association list in insertion order. *)
Fixpoint dict_get {V} (d : list (string * V)) (k : string) : outcome V :=
  match d with
  | [] => Raise KeyError
  | (k', v) :: d' => if String.eqb k k' then Ok v else dict_get d' k
  end.

Definition dict_keys {V} (d : list (string * V)) : list string := d.*1.

(** [d[k]] on a dict kept as a finite map. *)
Definition map_get (d : gmap string Q) (k : string) : outcome Q :=
  match d !! k with
  | Some v => Ok v
  | None => Raise KeyError
  end.

(** A [for] loop whose body may raise, threading the loop state. *)
Fixpoint for_each {A St} (body : A → St → outcome St) (l : list A) (s : St)
    : outcome St :=
  match l with
  | [] => Ok s
  | a :: l' => s' ← body a s; for_each body l' s'
  end.

(** A list comprehension whose element expression may raise. *)
Fixpoint comprehension {A B} (f : A → outcome B) (l : list A)
    : outcome (list B) :=
  match l with
  | [] => Ok []
  | a :: l' => b ← f a; bs ← comprehension f l'; Ok (b :: bs)
  end.

(** ** Static tables *)

Module PlanetProfile.
Record t : Type := mk {
  name : string;
  mean : Q;
  stdev : Q;
  roughness : Q;
  weight : Q
}.
End PlanetProfile.

Module TileType.
Record t : Type := mk {
  name : string;
  height_range : Q * Q;
  allowed_neighbors : list string;
  weight : Q
}.
End TileType.

Definition PLANET_PROFILES : list PlanetProfile.t := [
  PlanetProfile.mk "Earth" 200 1200 (6 # 10) 1;
  PlanetProfile.mk "Mars" (-800) 2500 (7 # 10) (9 # 10);
  PlanetProfile.mk "Moon" 0 1700 (8 # 10) (7 # 10);
  PlanetProfile.mk "Venus" 0 1100 (5 # 10) (6 # 10);
  PlanetProfile.mk "Mercury" 100 2000 (9 # 10) (6 # 10);
  PlanetProfile.mk "Europa" (-300) 800 (4 # 10) (5 # 10);
  PlanetProfile.mk "Titan" (-500) 900 (4 # 10) (5 # 10)
]%Q.

Definition TILE_TYPES : list (string * TileType.t) := [
  ("ocean", TileType.mk "ocean" (-6000, -200)
              ["ocean"; "shore"; "lowland"] 1);
  ("shore", TileType.mk "shore" (-200, 50)
              ["ocean"; "shore"; "lowland"] (11 # 10));
  ("lowland", TileType.mk "lowland" (0, 800)
              ["shore"; "lowland"; "highland"] (14 # 10));
  ("highland", TileType.mk "highland" (400, 2000)
              ["lowland"; "highland"; "mountain"] 1);
  ("mountain", TileType.mk "mountain" (1500, 6500)
              ["highland"; "mountain"; "polar"] (7 # 10));
  ("polar", TileType.mk "polar" (0, 3000)
              ["ocean"; "shore"; "lowland"; "highland"; "mountain"; "polar"]
              (4 # 10))
]%Q.

(** The tile vocabulary: the keys of [TILE_TYPES]. *)
Definition vocabulary : gset string := list_to_set (dict_keys TILE_TYPES).

(** Cells, grids and the work stack of the solver. *)
Abbreviation cell := (gset string) (only parsing).
Abbreviation grid := (list (list (gset string))) (only parsing).
Abbreviation coord := (Z * Z)%type (only parsing).

(** [grid[y][x]] and [grid[y][x] = v] *)
Definition grid_get {A} (g : list (list A)) (x y : Z) : outcome A :=
  row ← py_index g y; py_index row x.

Definition grid_set {A} (g : list (list A)) (x y : Z) (v : A)
    : outcome (list (list A)) :=
  row ← py_index g y; row' ← py_setitem row x v; py_setitem g y row'.

(** ** The program *)

Section Program.
Context `{RS : RandomSource} `{ML : MathLib} `{SO : SetOrder}.

(** Computations that consume the random source and may raise. *)
Definition M (A : Type) : Type := rng → outcome (A * rng).

#[global] Instance M_ret : MRet M := λ A a s, Ok (a, s).
#[global] Instance M_bind : MBind M := λ A B f m s,
  match m s with
  | Ok (a, s') => f a s'
  | Raise e => Raise e
  | Timeout => Timeout
  end.

Definition lift {A} (o : outcome A) : M A := λ s,
  match o with
  | Ok a => Ok (a, s)
  | Raise e => Raise e
  | Timeout => Timeout
  end.

(** [rng.uniform(a, b)], [rng.gauss(mu, sigma)] and [rng.choice(seq)] *)
Definition uniform (a b : Q) : M Q := λ s,
  let '(r, s') := random s in Ok ((a + (b - a) * r)%Q, s').

Definition rng_gauss (mu sigma : Q) : M Q := λ s, Ok (gauss mu sigma s).

Definition choice {A} (seq : list A) : M A := λ s,
  match seq with
  | [] => Raise IndexError
  | _ =>
      let '(i, s') := randbelow (length seq) s in
      match seq !! i with
      | Some a => Ok (a, s')
      | None => Raise IndexError
      end
  end.

(** [[f() for _ in range(n)]] *)
Fixpoint repeat_draw {A} (n : nat) (m : M A) : M (list A) :=
  match n with
  | O => mret []
  | S n' => a ← m; l ← repeat_draw n' m; mret (a :: l)
  end.

(** A [for] loop whose body consumes the random source. *)
Fixpoint for_eachM {A St} (body : A → St → M St) (l : list A) (acc : St)
    : M St :=
  match l with
  | [] => mret acc
  | a :: l' => acc' ← body a acc; for_eachM body l' acc'
  end.

(** *** Weighted choice *)

(** The [for] loop of [_weighted_choice]: [Some name] when it returns from
    inside the loop, [None] when the loop runs to its end. *)
Fixpoint weighted_walk (pick current : Q) (items : list (string * Q))
    : option string :=
  match items with
  | [] => None
  | (name, weight) :: rest =>
      let current := (current + weight)%Q in
      if Qle_bool pick current then Some name
      else weighted_walk pick current rest
  end.

Definition _weighted_choice (items : list (string * Q)) : M string :=
  let total := py_sum (items.*2) in
  pick ← uniform 0 total;
  match weighted_walk pick 0 items with
  | Some name => mret name
  | None => last ← lift (py_index items (-1)); mret (last.1)
  end.

(** *** Planet profile model *)

Fixpoint select_profile (pick current : Q) (profiles : list PlanetProfile.t)
    (selected : PlanetProfile.t) : PlanetProfile.t :=
  match profiles with
  | [] => selected
  | profile :: rest =>
      let current := (current + PlanetProfile.weight profile)%Q in
      if Qle_bool pick current then profile
      else select_profile pick current rest selected
  end.

Definition _planet_sample (profiles : list PlanetProfile.t) : M Q :=
  let weights := PlanetProfile.weight <$> profiles in
  let total := py_sum weights in
  pick ← uniform 0 total;
  last ← lift (py_index profiles (-1));
  let selected := select_profile pick 0 profiles last in
  base ← rng_gauss (PlanetProfile.mean selected) (PlanetProfile.stdev selected);
  rough ← rng_gauss 0 (PlanetProfile.stdev selected
                        * PlanetProfile.roughness selected)%Q;
  mret (base + rough)%Q.

(** *** Empirical tile weights *)

Definition in_range (range : Q * Q) (sample : Q) : bool :=
  Qle_bool range.1 sample && Qle_bool sample range.2.

(** [sum(1 for sample in samples if lo <= sample <= hi)] *)
Definition count_matches (range : Q * Q) (samples : list Q) : Z :=
  Z.of_nat (length (filter (λ sample, in_range range sample = true) samples)).

Definition tile_weight_of (tile : TileType.t) (samples : list Q) : outcome Q :=
  let matches := count_matches (TileType.height_range tile) samples in
  fraction ← py_div (inject_Z matches) (inject_Z (Z.of_nat (length samples)));
  Ok (TileType.weight tile * py_max (5 # 100) fraction)%Q.

Definition _initial_tile_weights (planet_profiles : list PlanetProfile.t)
    : M (gmap string Q) :=
  for_eachM (λ '(tile_name, tile) weights,
      samples ← repeat_draw 30 (_planet_sample planet_profiles);
      w ← lift (tile_weight_of tile samples);
      mret (<[tile_name := w]> weights))
    TILE_TYPES ∅.

(** *** The solver *)

Definition _neighbors (x y width height : Z) : list coord :=
  filter (λ '(nx, ny), 0 ≤ nx < width ∧ 0 ≤ ny < height)
    ((λ '(dx, dy), (x + dx, y + dy)) <$> [(1, 0); (-1, 0); (0, 1); (0, -1)]).

(** [math.log], which rejects non-positive arguments. *)
Definition py_log (a : Q) : outcome Q :=
  if Qltb 0 a then Ok (math_log a) else Raise ValueError.

Definition entropy (tile_weights : gmap string Q) (c : cell) : outcome Q :=
  if (size c <=? 1)%nat then Ok 0%Q
  else
    weights ← comprehension (map_get tile_weights) (set_iter c);
    let total := py_sum weights in
    terms ← comprehension
               (λ w, p ← py_div w total; l ← py_log p; Ok (p * l)%Q)
               (filter (λ w, Qltb 0 w = true) weights);
    Ok (- py_sum terms)%Q.

(** The scan that builds [candidates]. *)
Definition scan_candidates (tile_weights : gmap string Q) (width height : Z)
    (g : grid) : outcome (list (Z * Z * Q)) :=
  for_each (λ y acc,
      for_each (λ x acc,
          c ← grid_get g x y;
          if (1 <? size c)%nat then
            e ← entropy tile_weights c; Ok (acc ++ [(x, y, e)])
          else Ok acc)
        (py_range width) acc)
    (py_range height) [].

(** [min(...)] over a non-empty sequence: the first minimum wins. *)
Definition py_min_list (l : list Q) : outcome Q :=
  match l with
  | [] => Raise ValueError
  | a :: l' => Ok (foldl (λ best e, if Qltb e best then e else best) a l')
  end.

(** The union of [allowed_neighbors] built by [allowed.update]. *)
Definition allowed_union (options : list string) : outcome cell :=
  for_each (λ option allowed,
      tile ← dict_get TILE_TYPES option;
      Ok (allowed ∪ list_to_set (TileType.allowed_neighbors tile)))
    options ∅.

(** The solver is instrumented with a log of the values that the variable
    [grid] takes, newest first: every assignment to a cell pushes the new
    grid onto the log.  The log is ghost state: nothing is computed from
    it. *)

(** The body of the loop over [_neighbors(cx, cy, width, height)]. *)
Definition visit_neighbor (allowed : cell) (n : coord)
    (st : grid * list coord * list grid)
    : outcome (grid * list coord * list grid) :=
  let '(g, stack, log) := st in
  let '(nx, ny) := n in
  before ← grid_get g nx ny;
  let after := before ∩ allowed in
  if bool_decide (after ≠ before) && bool_decide (after ≠ ∅) then
    g' ← grid_set g nx ny after; Ok (g', (nx, ny) :: stack, g' :: log)
  else Ok (g, stack, log).

(** One round of the [while stack] loop, after [stack.pop()] returned
    [(cx, cy)].  The top of the Python stack is the head of the list. *)
Definition propagate_step (width height : Z) (c : coord)
    (st : grid * list coord * list grid)
    : outcome (grid * list coord * list grid) :=
  let '(cx, cy) := c in
  current_options ← grid_get st.1.1 cx cy;
  allowed ← allowed_union (set_iter current_options);
  for_each (visit_neighbor allowed) (_neighbors cx cy width height) st.

(** The [while stack] loop. *)
Fixpoint propagate (fuel : nat) (width height : Z)
    (st : grid * list coord * list grid) : outcome (grid * list grid) :=
  match st.1.2 with
  | [] => Ok (st.1.1, st.2)
  | c :: rest =>
      match fuel with
      | O => Timeout
      | S fuel' =>
          st' ← propagate_step width height c (st.1.1, rest, st.2);
          propagate fuel' width height st'
      end
  end.

(** The number of candidates left on the whole grid. *)
Definition grid_sum (f : cell → nat) (g : grid) : nat :=
  sum_list_with (sum_list_with f) g.

Definition grid_card (g : grid) : nat := grid_sum size g.

(** One round of the [while True] loop: [None] when it breaks out. *)
Definition wfc_iteration (tile_weights : gmap string Q) (width height : Z)
    (g : grid) (log : list grid) : M (option (grid * list grid)) :=
  candidates ← lift (scan_candidates tile_weights width height g);
  match candidates with
  | [] => mret None
  | _ =>
      min_entropy ← lift (py_min_list (snd <$> candidates));
      let low_entropy :=
        filter (λ item, Qeq_bool item.2 min_entropy = true) candidates in
      '(x, y, _) ← choice low_entropy;
      options ← lift (grid_get g x y);
      items ← lift (comprehension
                      (λ name, w ← map_get tile_weights name; Ok (name, w))
                      (set_iter options));
      chosen ← _weighted_choice items;
      g1 ← lift (grid_set g x y {[chosen]});
      r ← lift (propagate (S (grid_card g1)) width height
                  (g1, [(x, y)], g1 :: log));
      mret (Some r)
  end.

(** The [while True] loop; [rounds] counts the rounds that collapsed a
    cell. *)
Fixpoint wfc_loop (fuel : nat) (tile_weights : gmap string Q)
    (width height : Z) (g : grid) (rounds : nat) (log : list grid)
    : M (grid * nat * list grid) :=
  match fuel with
  | O => λ _, Timeout
  | S fuel' =>
      r ← wfc_iteration tile_weights width height g log;
      match r with
      | None => mret (g, rounds, log)
      | Some (g', log') =>
          wfc_loop fuel' tile_weights width height g' (S rounds) log'
      end
  end.

Definition initial_grid (width height : Z) : grid :=
  replicate (Z.to_nat height) (replicate (Z.to_nat width) vocabulary).

(** [next(iter(cell))] *)
Definition first_of (c : cell) : outcome string :=
  match set_iter c with
  | [] => Raise StopIteration
  | name :: _ => Ok name
  end.

(** What an instrumented run of the solver reports: the tile grid that
    [wave_function_collapse] returns, the number of rounds of its main
    loop that collapsed a cell, and the values of [grid] in the order in
    which they arose. *)
Record Solved : Type := {
  solved_tiles : list (list string);
  solved_rounds : nat;
  solved_history : list (list (list (gset string)))
}.

Definition wave_function_collapse_run (width height : Z)
    (planet_profiles : list PlanetProfile.t) : M Solved :=
  tile_weights ← _initial_tile_weights planet_profiles;
  let g0 := initial_grid width height in
  '(g, rounds, log) ← wfc_loop (S (Z.to_nat width * Z.to_nat height))
                         tile_weights width height g0 0 [g0];
  tiles ← lift (comprehension (comprehension first_of) g);
  mret {| solved_tiles := tiles; solved_rounds := rounds;
          solved_history := reverse log |}.

Definition wave_function_collapse (width height : Z)
    (planet_profiles : list PlanetProfile.t) : M (list (list string)) :=
  r ← wave_function_collapse_run width height planet_profiles;
  mret (solved_tiles r).

(** *** Heightfield *)

Definition generate_heightfield (tiles : list (list string))
    (planet_profiles : list PlanetProfile.t) : M (list (list Q)) :=
  let height := Z.of_nat (length tiles) in
  row0 ← lift (py_index tiles 0);
  let width := Z.of_nat (length row0) in
  let heights := replicate (Z.to_nat height) (replicate (Z.to_nat width) 0%Q) in
  for_eachM (λ y heights,
      for_eachM (λ x heights,
          name ← lift (grid_get tiles x y);
          tile ← lift (dict_get TILE_TYPES name);
          sample ← _planet_sample planet_profiles;
          let '(min_h, max_h) := TileType.height_range tile in
          lift (grid_set heights x y (py_max (py_min sample max_h) min_h)))
        (py_range width) heights)
    (py_range height) heights.

(** *** Biomes *)

Definition _temperature_at (lat_norm elevation : Q) : Q :=
  let base_temp := (1 - py_abs lat_norm)%Q in
  let lapse := py_max 0 (1 - elevation / 8000)%Q in
  (base_temp * lapse)%Q.

Definition _moisture_at (distance_to_ocean : Q) : M Q :=
  base ← uniform 0 1;
  let ocean_bonus := py_max 0 (1 - distance_to_ocean / 12)%Q in
  mret (py_min 1 ((6 # 10) * base + (4 # 10) * ocean_bonus)%Q).

Definition _biome (temperature moisture elevation : Q) : string :=
  if Qltb 3500 elevation || Qltb temperature (15 # 100) then "alpine"
  else if Qltb temperature (3 # 10) && Qltb moisture (35 # 100) then "tundra"
  else if Qltb temperature (4 # 10) && Qle_bool (35 # 100) moisture then "taiga"
  else if Qltb (65 # 100) temperature && Qltb moisture (35 # 100) then "desert"
  else if Qltb (65 # 100) temperature && Qle_bool (35 # 100) moisture
    then "rainforest"
  else if Qle_bool (5 # 10) moisture then "forest"
  else "grassland".

(** [range(a, b)] *)
Definition py_range2 (a b : Z) : list Z := seqZ a (b - a).

(** The offsets of the square of one radius, in the order of the two inner
    loops, and those of all radii [1..max_radius] in the order of the
    three loops. *)
Definition square_offsets (radius : Z) : list coord :=
  dx ← py_range2 (- radius) (radius + 1);
  dy ← py_range2 (- radius) (radius + 1);
  [(dx, dy)].

Definition scan_offsets (max_radius : Z) : list coord :=
  radius ← py_range2 1 (max_radius + 1); square_offsets radius.

(** The two [if]s in the innermost loop: is the cell at this offset inside
    the grid and an ocean? *)
Definition ocean_at (tiles : list (list string)) (x y : Z) (d : coord)
    : outcome bool :=
  let nx := x + d.1 in
  let ny := y + d.2 in
  if 0 <=? nx then
    row0 ← py_index tiles 0;
    if (nx <? Z.of_nat (length row0)) && (0 <=? ny)
       && (ny <? Z.of_nat (length tiles)) then
      t ← grid_get tiles nx ny; Ok (String.eqb t "ocean")
    else Ok false
  else Ok false.

(** The three nested loops: the first offset at which [ocean_at] holds. *)
Fixpoint first_ocean (tiles : list (list string)) (x y : Z)
    (offsets : list coord) : outcome (option coord) :=
  match offsets with
  | [] => Ok None
  | d :: rest =>
      b ← ocean_at tiles x y d;
      if b : bool then Ok (Some d) else first_ocean tiles x y rest
  end.

Definition _distance_to_ocean (tiles : list (list string)) (x y : Z)
    : outcome Q :=
  t ← grid_get tiles x y;
  if String.eqb t "ocean" then Ok 0%Q
  else
    let max_radius := 10 in
    found ← first_ocean tiles x y (scan_offsets max_radius);
    match found with
    | Some (dx, dy) => Ok (math_hypot dx dy)
    | None => Ok (inject_Z max_radius)
    end.

Definition assign_biomes (tiles : list (list string))
    (heights : list (list Q)) : M (list (list string)) :=
  let height := Z.of_nat (length tiles) in
  row0 ← lift (py_index tiles 0);
  let width := Z.of_nat (length row0) in
  let biomes := replicate (Z.to_nat height) (replicate (Z.to_nat width) "") in
  for_eachM (λ y biomes,
      ratio ← lift (py_div (inject_Z y) (inject_Z (height - 1)));
      let lat_norm := (ratio * 2 - 1)%Q in
      for_eachM (λ x biomes,
          elevation ← lift (grid_get heights x y);
          let temp := _temperature_at lat_norm elevation in
          distance ← lift (_distance_to_ocean tiles x y);
          moisture ← _moisture_at distance;
          lift (grid_set biomes x y (_biome temp moisture elevation)))
        (py_range width) biomes)
    (py_range height) biomes.

(** *** Export *)

(** The lines of the OBJ file; numbers are kept unformatted. *)
Inductive obj_line : Type :=
  | Comment (text : string)
  | Vertex (x y z : Q)
  | Face (a b c : Z).

Definition export_obj (heights : list (list Q)) (scale : Q)
    : outcome (list obj_line) :=
  let height := Z.of_nat (length heights) in
  row0 ← py_index heights 0;
  let width := Z.of_nat (length row0) in
  let handle := [Comment "# Terrain OBJ"] in
  handle ← for_each (λ y handle,
               for_each (λ x handle,
                   z ← grid_get heights x y;
                   Ok (handle ++ [Vertex (inject_Z x * scale)
                                    (inject_Z y * scale) z]))
                 (py_range width) handle)
             (py_range height) handle;
  for_each (λ y handle,
      for_each (λ x handle,
          let v1 := y * width + x + 1 in
          let v2 := v1 + 1 in
          let v3 := v1 + width in
          let v4 := v3 + 1 in
          Ok (handle ++ [Face v1 v2 v4; Face v1 v4 v3]))
        (py_range (width - 1)) handle)
    (py_range (height - 1)) handle.

Record Metadata : Type := {
  meta_width : Z;
  meta_height : Z;
  meta_tiles : list (list string);
  meta_heights : list (list Q);
  meta_biomes : list (list string)
}.

Definition write_metadata (tiles : list (list string))
    (heights : list (list Q)) (biomes : list (list string))
    : outcome Metadata :=
  row0 ← py_index tiles 0;
  Ok {| meta_width := Z.of_nat (length row0);
        meta_height := Z.of_nat (length tiles);
        meta_tiles := tiles; meta_heights := heights;
        meta_biomes := biomes |}.

(** *** The command line *)

(** What [parse_args] returns: any integers for [--width], [--height] and
    [--seed]. *)
Record Args : Type := {
  width : Z;
  height : Z;
  scale : Q;
  seed : Z;
  output : string;
  metadata : string
}.

(** What a run leaves behind: the three grids, the OBJ file and, when
    asked for, the metadata file. *)
Record Run : Type := {
  run_tiles : list (list string);
  run_heights : list (list Q);
  run_biomes : list (list string);
  run_obj : list obj_line;
  run_metadata : option Metadata
}.

Definition main_from (args : Args) : M Run :=
  tiles ← wave_function_collapse (width args) (height args) PLANET_PROFILES;
  heights ← generate_heightfield tiles PLANET_PROFILES;
  biomes ← assign_biomes tiles heights;
  obj ← lift (export_obj heights (scale args));
  meta ← (if String.eqb (metadata args) "" then mret None
          else m ← lift (write_metadata tiles heights biomes); mret (Some m));
  mret {| run_tiles := tiles; run_heights := heights; run_biomes := biomes;
          run_obj := obj; run_metadata := meta |}.

Definition main (args : Args) : outcome Run :=
  match main_from args (Random (seed args)) with
  | Ok (run, _) => Ok run
  | Raise e => Raise e
  | Timeout => Timeout
  end.

End Program.

(** ** Vocabulary of the specification *)


(** [m] started in state [s] returns a value and a state satisfying [P]. *)
Definition returns `{RS : RandomSource} {A} (m : M A) (s : rng)
    (P : A → rng → Prop) : Prop :=
  ∃ a s', m s = Ok (a, s') ∧ P a s'.

(** The number of [samples] that lie in [range], bounds included: a sample
    counts unless it is below the lower or above the upper bound.  The
    count is taken on the order of the rationals, not with the tests of
    the code. *)
Fixpoint count_inside (range : Q * Q) (samples : list Q) : Z :=
  match samples with
  | [] => 0
  | sample :: rest =>
      (if Qlt_le_dec sample range.1 then 0
       else if Qlt_le_dec range.2 sample then 0 else 1)
      + count_inside range rest
  end.

(** The fraction of [samples] that lie in [range], bounds included. *)
Definition fraction_inside (range : Q * Q) (samples : list Q) : Q :=
  (inject_Z (count_inside range samples)
   / inject_Z (Z.of_nat (length samples)))%Q.

(** The table built by the loop of [_initial_tile_weights] over the tiles
    [ts], given the batch of samples drawn for each. *)
Definition weights_from (ts : list (string * TileType.t))
    (batches : list (list Q)) (acc : gmap string Q) : gmap string Q :=
  foldl (λ weights '((tile_name, tile), samples),
           <[tile_name :=
               (TileType.weight tile
                * py_max (5 # 100)
                    (fraction_inside (TileType.height_range tile) samples))%Q]>
             weights)
    acc (zip ts batches).

(** The cell at a coordinate, and the coordinates inside a grid. *)
Definition cell_at {A} (g : list (list A)) (c : coord) : option A :=
  g !! Z.to_nat c.2 ≫= λ row, row !! Z.to_nat c.1.

Definition in_grid (width height : Z) (c : coord) : Prop :=
  0 ≤ c.1 < width ∧ 0 ≤ c.2 < height.

Definition grid_shape {A} (width height : Z) (g : list (list A)) : Prop :=
  length g = Z.to_nat height ∧
  Forall (λ row, length row = Z.to_nat width) g.

(** [grid[y][x] = v] as a pure update. *)
Definition grid_update {A} (g : list (list A)) (c : coord) (v : A)
    : list (list A) :=
  alter (<[Z.to_nat c.1 := v]>) (Z.to_nat c.2) g.

(** A candidate set is in order when it is a non-empty subset of the tile
    vocabulary. *)
Definition cell_ok (c : cell) : Prop := c ≠ ∅ ∧ c ⊆ vocabulary.

Definition grid_ok (g : grid) : Prop := Forall (Forall cell_ok) g.

(** [g'] has the shape of [g] and each of its cells is a subset of the cell
    of [g] at the same place. *)
Definition grid_le (g' g : grid) : Prop := Forall2 (Forall2 (⊆)) g' g.

(** The number of cells that are not collapsed yet. *)
Definition open_cell (c : cell) : nat := if (1 <? size c)%nat then 1 else 0.

Definition open_cells (g : grid) : nat := grid_sum open_cell g.

(** The union of [allowed_neighbors] over the tiles of a candidate set. *)
Definition allowed_set (c : cell) : cell :=
  ⋃ ((λ kt : string * TileType.t,
        if decide (kt.1 ∈ c)
        then list_to_set (TileType.allowed_neighbors kt.2) else ∅)
      <$> TILE_TYPES).

(** The weight table has a positive weight for every tile. *)
Definition weights_ok (tile_weights : gmap string Q) : Prop :=
  ∀ name, name ∈ vocabulary →
          ∃ w, tile_weights !! name = Some w ∧ (0 < w)%Q.

(** Two cells are 4-connected. *)
Definition adjacent (c nb : coord) : Prop :=
  (nb.1 = c.1 ∧ Z.abs (nb.2 - c.2) = 1) ∨ (nb.2 = c.2 ∧ Z.abs (nb.1 - c.1) = 1).

(** Intersecting [before] with [allowed] gives a non-empty set that is
    strictly smaller than [before]. *)
Definition narrows (allowed before : gset string) : Prop :=
  before ∩ allowed ≠ ∅ ∧ before ∩ allowed ⊂ before.

#[global] Instance narrows_dec allowed before
    : Decision (narrows allowed before) :=
  (_ : Decision (before ∩ allowed ≠ ∅ ∧ before ∩ allowed ⊂ before)).

(** The cell of [g] at [nb] exists and is narrowed by [allowed]. *)
Definition narrows_at (g : grid) (allowed : gset string) (nb : coord) : Prop :=
  match cell_at g nb with
  | Some before => narrows allowed before
  | None => False
  end.

#[global] Instance narrows_at_dec g allowed nb
    : Decision (narrows_at g allowed nb) :=
  match cell_at g nb as o
    return Decision (match o with
                     | Some before => narrows allowed before
                     | None => False
                     end)
  with
  | Some before => narrows_dec allowed before
  | None => False_dec
  end.

(** What a propagation step leaves in a cell that held [before]. *)
Definition narrowed (allowed : gset string) (hit : Prop) `{!Decision hit}
    (before : gset string) : gset string :=
  if decide (hit ∧ narrows allowed before) then before ∩ allowed else before.

(** A log of grids, newest first: every grid is in order, and each grid is
    below the one logged just before it. *)
Inductive history_ok : list (list (list (gset string))) → Prop :=
  | history_ok_one g : grid_ok g → history_ok [g]
  | history_ok_cons g' g log :
      grid_ok g' → grid_le g' g → history_ok (g :: log) →
      history_ok (g' :: g :: log).

(** The invariant of the propagation loop on (grid, stack, log). *)
Definition solver_inv (width height : Z)
    (st : list (list (gset string)) * list coord
          * list (list (list (gset string)))) : Prop :=
  grid_shape width height st.1.1 ∧ grid_ok st.1.1 ∧
  Forall (in_grid width height) st.1.2 ∧
  history_ok st.2 ∧ head st.2 = Some st.1.1.

(** What a step may do to the state: cells only shrink, the log only grows,
    and candidates plus pending cells do not increase. *)
Definition solver_le
    (st' st : list (list (gset string)) * list coord
              * list (list (list (gset string)))) : Prop :=
  grid_le st'.1.1 st.1.1 ∧ st.2 `suffix_of` st'.2 ∧
  (grid_card st'.1.1 + length st'.1.2 ≤ grid_card st.1.1 + length st.1.2)%nat.

(** No cell of the grid has more than one candidate left. *)
Definition all_collapsed (width height : Z) (g : grid) : Prop :=
  ∀ c a, in_grid width height c → cell_at g c = Some a → (size a ≤ 1)%nat.

(** An entry of [candidates]: a cell of the grid with more than one
    candidate. *)
Definition candidate_ok (width height : Z) (g : grid) (item : Z * Z * Q)
    : Prop :=
  in_grid width height item.1 ∧
  ∃ a, cell_at g item.1 = Some a ∧ (1 < size a)%nat.

(** [max(min(sample, max_h), min_h)] *)
Definition clamp (range : Q * Q) (sample : Q) : Q :=
  py_max (py_min sample range.2) range.1.

(** The elevation [e] of cell [c] is the clamped sample number
    [c.2 * width + c.1] of [samples]. *)
Definition height_spec (tiles : list (list string)) (samples : list Q)
    (width : Z) (c : coord) (e : Q) : Prop :=
  ∃ name tile sample,
    cell_at tiles c = Some name ∧ dict_get TILE_TYPES name = Ok tile ∧
    samples !! Z.to_nat (c.2 * width + c.1) = Some sample ∧
    e = clamp (TileType.height_range tile) sample.

(** Every cell before [(x, y)] in row-major order holds its elevation. *)
Definition filled_to (tiles : list (list string)) (samples : list Q)
    (width height : Z) (x y : Z) (heights : list (list Q)) : Prop :=
  ∀ c, in_grid width height c → c.2 < y ∨ (c.2 = y ∧ c.1 < x) →
       ∃ e, cell_at heights c = Some e ∧ height_spec tiles samples width c e.

(** The cell at offset [d] from [(x, y)] lies inside the grid and is an
    ocean. *)
Definition ocean_offset (width height : Z) (tiles : list (list string))
    (x y : Z) (d : coord) : Prop :=
  in_grid width height (x + d.1, y + d.2) ∧
  cell_at tiles (x + d.1, y + d.2) = Some "ocean".

#[global] Instance ocean_offset_dec width height tiles x y d
    : Decision (ocean_offset width height tiles x y d) :=
  (_ : Decision ((0 ≤ x + d.1 < width ∧ 0 ≤ y + d.2 < height) ∧
                 cell_at tiles (x + d.1, y + d.2) = Some "ocean")).

Definition chebyshev (d : coord) : Z := Z.max (Z.abs d.1) (Z.abs d.2).

(** *** Vocabulary of the further properties *)

(** The number that [export_obj] gives to the vertex of cell [(x, y)]: OBJ
    counts vertices from one, in the order in which they are written. *)
Definition vertex_index (width x y : Z) : Z := y * width + x + 1.

(** The vertex lines and the face lines that the two loop nests of
    [export_obj] write. *)
Definition mesh_vertices (heights : list (list Q)) (scale : Q)
    (width height : Z) : list obj_line :=
  y ← py_range height; x ← py_range width;
  [Vertex (inject_Z x * scale) (inject_Z y * scale)
     (default 0%Q (cell_at heights (x, y)))].

Definition mesh_faces (width height : Z) : list obj_line :=
  y ← py_range (height - 1); x ← py_range (width - 1);
  [Face (y * width + x + 1) (y * width + x + 1 + 1)
     (y * width + x + 1 + width + 1);
   Face (y * width + x + 1) (y * width + x + 1 + width + 1)
     (y * width + x + 1 + width)].

Definition is_vertex (l : obj_line) : Prop :=
  match l with Vertex _ _ _ => True | _ => False end.

Definition is_face (l : obj_line) : Prop :=
  match l with Face _ _ _ => True | _ => False end.

(** The labels that [_biome] can return. *)
Definition biome_labels : list string :=
  ["alpine"; "tundra"; "taiga"; "desert"; "rainforest"; "forest"; "grassland"].

(** [lat_norm] of row [y] in [assign_biomes], and the moisture computed
    from the uniform draw [base]. *)
Definition latitude (height y : Z) : Q :=
  (inject_Z y / inject_Z (height - 1) * 2 - 1)%Q.

Definition moisture_from (base distance_to_ocean : Q) : Q :=
  py_min 1 ((6 # 10) * base + (4 # 10) * py_max 0 (1 - distance_to_ocean / 12))%Q.

(** A grid that is filled cell by cell in row-major order, one draw per
    cell: every cell before [(x, y)] holds the value computed from the draw
    with the cell's number. *)
Definition drawn_to {A D} (value : coord → D → A) (draws : list D)
    (width height x y : Z) (g : list (list A)) : Prop :=
  ∀ c, in_grid width height c → c.2 < y ∨ (c.2 = y ∧ c.1 < x) →
       ∃ d, draws !! Z.to_nat (c.2 * width + c.1) = Some d ∧
            cell_at g c = Some (value c d).

(** What the scan of the solver appends to [candidates] for the cell
    [(x, y)]: the cell with its entropy when it is still open, nothing
    otherwise. *)
Definition candidate_entry `{ML : MathLib} `{SO : SetOrder}
    (tile_weights : gmap string Q) (g : list (list (gset string)))
    (y x : Z) : list (Z * Z * Q) :=
  match cell_at g (x, y) with
  | Some a =>
      if (1 <? size a)%nat then
        match entropy tile_weights a with
        | Ok e => [(x, y, e)]
        | _ => []
        end
      else []
  | None => []
  end.

(** The pair of cells [c], [nb] is settled when the candidates of [nb] are
    either all allowed next to the candidates of [c] or all forbidden next
    to them (a contradiction, which the propagation leaves as it is).  A
    grid is settled off a stack when every pair of neighbours whose first
    cell is not on the stack is settled. *)
Definition settled (g : list (list (gset string))) (c nb : coord) : Prop :=
  ∀ a b, cell_at g c = Some a → cell_at g nb = Some b →
         b ⊆ allowed_set a ∨ b ∩ allowed_set a = ∅.

Definition settled_off (width height : Z) (g : list (list (gset string)))
    (stack : list coord) : Prop :=
  ∀ c nb, in_grid width height c → in_grid width height nb →
          adjacent c nb → c ∉ stack → settled g c nb.

(** ** A concrete platform

    One instance of every interface, on which the program can be evaluated:
    a linear congruential generator, rational approximations of [log] and
    [hypot], and two iteration orders for sets (standing for two processes
    with different hash secrets). *)

Module Platform.

Definition modulus : Z := 2147483648.

Definition lcg_next (s : Z) : Z := (s * 1103515245 + 12345) `mod` modulus.

Definition lcg_random (s : Z) : Q * Z :=
  let s' := lcg_next s in (Qmake s' (Z.to_pos modulus), s').

(** A sum of three uniform draws, centred and scaled to unit variance. *)
Definition lcg_gauss (mu sigma : Q) (s : Z) : Q * Z :=
  let '(u1, s1) := lcg_random s in
  let '(u2, s2) := lcg_random s1 in
  let '(u3, s3) := lcg_random s2 in
  (Qred (mu + sigma * (2 * (u1 + u2 + u3) - 3)), s3)%Q.

Definition lcg_randbelow (n : nat) (s : Z) : nat * Z :=
  let s' := lcg_next s in (Z.to_nat (s' `mod` Z.of_nat n), s').

#[export] Instance lcg : RandomSource := {|
  rng := Z;
  Random := λ seed, seed `mod` modulus;
  random := lcg_random;
  gauss := lcg_gauss;
  randbelow := lcg_randbelow;
  randbelow_lt :=
    ltac:(intros n s Hn; unfold lcg_randbelow; simpl;
          pose proof (Z.mod_pos_bound (lcg_next s) (Z.of_nat n)); lia)
|}.

(** [ln a] by the series [2 * (z + z^3/3 + z^5/5 + z^7/7)] with
    [z = (a - 1) / (a + 1)]. *)
Definition approx_log (a : Q) : Q :=
  let z := Qred ((a - 1) / (a + 1)) in
  let z2 := Qred (z * z) in
  Qred (2 * z * (1 + z2 * ((1 # 3) + z2 * ((1 # 5) + z2 * (1 # 7)))))%Q.

(** [sqrt(dx^2 + dy^2)] to three decimals. *)
Definition approx_hypot (dx dy : Z) : Q :=
  Qred (Qmake (Z.sqrt ((dx * dx + dy * dy) * 1000000)) 1000).

#[export] Instance approx_math : MathLib := {|
  math_log := approx_log;
  math_hypot := approx_hypot
|}.

Definition sorted_order : SetOrder := {|
  set_iter := elements;
  set_iter_perm := λ s, reflexivity (elements s)
|}.

Definition reversed_order : SetOrder := {|
  set_iter := λ s, reverse (elements s);
  set_iter_perm := λ s, reverse_Permutation (elements s)
|}.

End Platform.

(** ** Sample inputs *)

Module Samples.
Import Platform.

Definition args_2x2 : Args :=
  {| width := 2; height := 2; scale := 1; seed := 42;
     output := "terrain.obj"; metadata := "" |}.

Definition args_0x2 : Args :=
  {| width := 0; height := 2; scale := 1; seed := 1337;
     output := "terrain.obj"; metadata := "" |}.

(** The tile grid of a run. *)
Definition tiles_of (r : outcome Run) : option (list (list string)) :=
  match r with
  | Ok run => Some (run_tiles run)
  | _ => None
  end.

Definition start : @rng lcg := 42.


Definition one_row : list (list string) := [["ocean"; "polar"]].

Definition coast : list (list string) :=
  [["ocean"; "ocean"]; ["shore"; "shore"]].

Definition heights_2x2 : list (list Q) := [[0; 100]; [250; 4000]]%Q.

(** The weight table that gives every tile its catalogue weight. *)
Definition catalogue_weights : gmap string Q :=
  list_to_map ((λ kt, (kt.1, TileType.weight kt.2)) <$> TILE_TYPES).

(** A grid in the middle of a run: the cell (0, 0) is collapsed to ocean,
    its right neighbour to mountain, and the two cells below are untouched.
    Next to an ocean the cell below keeps three candidates, while nothing
    would be left of the mountain. *)
Definition ocean_corner : list (list (gset string)) :=
  [[{["ocean"]}; {["mountain"]}]; [vocabulary; vocabulary]].

(** A strip of eleven rows and one column with two ocean cells, one in
    a cold row and one on the equator, and its elevations.  No temperature
    on the strip is close to a threshold of [_biome]. *)
Definition strip : list (list string) :=
  [["lowland"]; ["ocean"]; ["lowland"]; ["lowland"]; ["lowland"]; ["ocean"];
   ["lowland"]; ["lowland"]; ["lowland"]; ["lowland"]; ["lowland"]].

Definition strip_heights : list (list Q) :=
  [[400]; [-1000]; [400]; [400]; [400]; [-1000]; [400]; [400]; [400]; [400];
   [400]]%Q.

(** The grid that a computation returns. *)
Definition grid_of {A} (r : outcome (list (list A) * @rng lcg))
    : option (list (list A)) :=
  match r with
  | Ok (g, _) => Some g
  | _ => None
  end.


(** The 2x2 grid right after its first cell was collapsed to ocean. *)
Definition ocean_start : list (list (gset string)) :=
  [[{["ocean"]}; vocabulary]; [vocabulary; vocabulary]].

(** A grid with the candidates of every cell listed, and what a
    propagation step leaves: the grid, the stack and the length of the
    log. *)
Definition names_of (g : list (list (gset string)))
    : list (list (list string)) :=
  (λ row : list (gset string), (λ c : gset string, elements c) <$> row) <$> g.

Definition step_result
    (r : outcome (list (list (gset string)) * list (Z * Z)
                  * list (list (list (gset string)))))
    : option (list (list (list string)) * list (Z * Z) * nat) :=
  match r with
  | Ok (g, stack, log) => Some (names_of g, stack, length log)
  | _ => None
  end.

Definition grid_result
    (r : outcome (list (list (gset string))
                  * list (list (list (gset string)))))
    : option (list (list (list string)) * nat) :=
  match r with
  | Ok (g, log) => Some (names_of g, length log)
  | _ => None
  end.

End Samples.

(** ** Properties *)

(** *** Python primitives *)

Lemma Qltb_lt (a b : Q) : Qltb a b = true ↔ (a < b)%Q.
Proof.
  unfold Qltb. rewrite negb_true_iff, <- not_true_iff_false, Qle_bool_iff.
  split; [apply Qnot_le_lt | apply Qlt_not_le].
Qed.

Lemma Qltb_ge (a b : Q) : Qltb a b = false ↔ (b <= a)%Q.
Proof. unfold Qltb. by rewrite negb_false_iff, Qle_bool_iff. Qed.

Lemma py_index_nat {A} (l : list A) (i : nat) (a : A) :
  l !! i = Some a → py_index l (Z.of_nat i) = Ok a.
Proof.
  intros Hi. pose proof (lookup_lt_Some _ _ _ Hi) as Hlt. unfold py_index.
  replace (Z.of_nat i <? 0) with false by lia.
  replace ((0 <=? Z.of_nat i) && (Z.of_nat i <? Z.of_nat (length l)))
    with true by lia.
  by rewrite Nat2Z.id, Hi.
Qed.

Lemma py_index_last {A} (l : list A) (a : A) :
  last l = Some a → py_index l (-1) = Ok a.
Proof.
  intros Hl. rewrite last_lookup in Hl.
  pose proof (lookup_lt_Some _ _ _ Hl) as Hlt. unfold py_index.
  replace (-1 <? 0) with true by lia.
  replace ((0 <=? -1 + Z.of_nat (length l))
           && (-1 + Z.of_nat (length l) <? Z.of_nat (length l)))
    with true by lia.
  replace (Z.to_nat (-1 + Z.of_nat (length l))) with (pred (length l)) by lia.
  by rewrite Hl.
Qed.

Lemma py_index_Ok {A} (l : list A) (i : Z) (a : A) :
  0 ≤ i → py_index l i = Ok a ↔ l !! Z.to_nat i = Some a.
Proof.
  intros Hi. unfold py_index. replace (i <? 0) with false by lia.
  destruct ((0 <=? i) && (i <? Z.of_nat (length l))) eqn:Hb.
  - destruct (l !! Z.to_nat i); naive_solver.
  - split; [done|]. intros Hl%lookup_lt_Some. lia.
Qed.

Lemma py_setitem_nat {A} (l : list A) (i : nat) (v : A) :
  (i < length l)%nat → py_setitem l (Z.of_nat i) v = Ok (<[i := v]> l).
Proof.
  intros Hlt. unfold py_setitem. replace (Z.of_nat i <? 0) with false by lia.
  replace ((0 <=? Z.of_nat i) && (Z.of_nat i <? Z.of_nat (length l)))
    with true by lia.
  by rewrite Nat2Z.id.
Qed.

(** *** Weighted choice *)

Section WeightedChoice.
Context `{RS : RandomSource}.

Lemma weighted_walk_elem pick current items name :
  weighted_walk pick current items = Some name → name ∈ items.*1.
Proof.
  revert current. induction items as [|[n w] items IH]; intros current; [done|].
  simpl. destruct (Qle_bool pick (current + w)).
  - intros [= ->]. left.
  - intros Hw. right. by eapply IH.
Qed.


Lemma weighted_choice_elem (items : list (string * Q)) (s : rng) :
  items ≠ [] →
  ∃ name, _weighted_choice items s = Ok (name, (random s).2) ∧
          name ∈ items.*1.
Proof.
  intros Hne. unfold _weighted_choice, mbind, M_bind, uniform.
  destruct (random s) as [r s'] eqn:Hr. simpl.
  destruct (weighted_walk _ 0 items) as [name|] eqn:Hw.
  - exists name. split; [done|]. by eapply weighted_walk_elem.
  - destruct (last items) as [[n w]|] eqn:Hl; [|by apply last_None in Hl].
    exists n. unfold lift. rewrite (py_index_last _ _ Hl). simpl.
    split; [done|]. apply list_elem_of_fmap. exists (n, w).
    split; [done|]. by apply last_Some_elem_of.
Qed.


End WeightedChoice.

(** *** Reasoning about computations *)

Section Returns.
Context `{RS : RandomSource}.

Lemma returns_ret {A} (a : A) s (P : A → rng → Prop) :
  P a s → returns (mret a) s P.
Proof. intros HP. by exists a, s. Qed.

Lemma returns_bind {A B} (m : M A) (f : A → M B) s (P : B → rng → Prop) :
  returns m s (λ a s', returns (f a) s' P) → returns (m ≫= f) s P.
Proof.
  intros (a & s' & Hm & b & s'' & Hf & HP). exists b, s''.
  split; [|done]. unfold mbind, M_bind. by rewrite Hm.
Qed.

Lemma returns_lift {A} (o : outcome A) (a : A) s (P : A → rng → Prop) :
  o = Ok a → P a s → returns (lift o) s P.
Proof. intros -> HP. by exists a, s. Qed.

Lemma returns_mono {A} (m : M A) s (P Q : A → rng → Prop) :
  returns m s P → (∀ a s', P a s' → Q a s') → returns m s Q.
Proof. intros (a & s' & Hm & HP) HPQ. exists a, s'. auto. Qed.

Lemma returns_eq {A} (m : M A) s a s' (P : A → rng → Prop) :
  m s = Ok (a, s') → P a s' → returns m s P.
Proof. intros Hm HP. by exists a, s'. Qed.

Lemma bind_Ok {A B} (m : M A) (f : A → M B) s a s' :
  m s = Ok (a, s') → (m ≫= f) s = f a s'.
Proof. intros Hm. unfold mbind, M_bind. by rewrite Hm. Qed.

Lemma repeat_draw_S {A} (m : M A) (n : nat) :
  repeat_draw (S n) m = (a ← m; l ← repeat_draw n m; mret (a :: l)).
Proof. done. Qed.

Lemma returns_gauss mu sigma s (P : Q → rng → Prop) :
  P (gauss mu sigma s).1 (gauss mu sigma s).2 →
  returns (rng_gauss mu sigma) s P.
Proof.
  intros HP. eexists _, _. split; [|done].
  unfold rng_gauss. by destruct (gauss mu sigma s).
Qed.

Lemma returns_uniform a b s (P : Q → rng → Prop) :
  P (a + (b - a) * (random s).1)%Q (random s).2 →
  returns (uniform a b) s P.
Proof.
  intros HP. eexists _, _. split; [|done].
  unfold uniform. by destruct (random s).
Qed.

(** A [for] loop with an invariant indexed by the number of rounds done. *)
Lemma for_eachM_inv {A St} (body : A → St → M St) (l : list A)
    (I : nat → St → rng → Prop) acc s :
  I 0%nat acc s →
  (∀ i a acc s, l !! i = Some a → I i acc s →
                returns (body a acc) s (I (S i))) →
  returns (for_eachM body l acc) s (I (length l)).
Proof.
  revert I acc s. induction l as [|a l IH]; intros I acc s H0 Hstep.
  - by apply returns_ret.
  - simpl. apply returns_bind.
    eapply returns_mono; [by apply (Hstep 0%nat a)|].
    intros acc' s' HI. apply (IH (λ i, I (S i))); [done|].
    intros i b acc'' s'' Hb. by apply (Hstep (S i)).
Qed.

Lemma for_each_inv {A St} (body : A → St → outcome St) (l : list A)
    (I : nat → St → Prop) acc :
  I 0%nat acc →
  (∀ i a acc, l !! i = Some a → I i acc →
              ∃ acc', body a acc = Ok acc' ∧ I (S i) acc') →
  ∃ acc', for_each body l acc = Ok acc' ∧ I (length l) acc'.
Proof.
  revert I acc. induction l as [|a l IH]; intros I acc H0 Hstep.
  - by exists acc.
  - simpl. destruct (Hstep 0%nat a acc) as (acc' & -> & HI); [done..|].
    simpl. apply (IH (λ i, I (S i))); [done|].
    intros i b acc'' Hb. by apply (Hstep (S i)).
Qed.

Lemma repeat_draw_returns {A} (m : M A) (n : nat) s (P : A → Prop) :
  (∀ s, returns m s (λ a _, P a)) →
  returns (repeat_draw n m) s (λ l _, length l = n ∧ Forall P l).
Proof.
  intros Hm. revert s. induction n as [|n IH]; intros s.
  - by apply returns_ret.
  - simpl. apply returns_bind. eapply returns_mono; [apply Hm|].
    intros a s' Ha. apply returns_bind. eapply returns_mono; [apply IH|].
    intros l s'' [Hl HP]. apply returns_ret. simpl. split; [lia|].
    by constructor.
Qed.

End Returns.

(** *** Empirical tile weights *)

Lemma in_range_spec (range : Q * Q) (sample : Q) :
  in_range range sample = true ↔ (range.1 <= sample ∧ sample <= range.2)%Q.
Proof. unfold in_range. by rewrite andb_true_iff, !Qle_bool_iff. Qed.

Lemma py_max_Qmax (a b : Q) : py_max a b = Qmax a b.
Proof.
  unfold py_max, Qmax, GenericMinMax.gmax.
  destruct (Qltb a b) eqn:Hlt.
  - apply Qltb_lt in Hlt. by rewrite (proj1 (Qlt_alt a b) Hlt).
  - apply Qltb_ge in Hlt. destruct (a ?= b)%Q eqn:Hc; [done| |done].
    apply Qlt_alt in Hc. by apply Qlt_not_le in Hc.
Qed.

Lemma tile_weights_positive :
  Forall (λ kt, (0 < TileType.weight kt.2)%Q) TILE_TYPES.
Proof. repeat constructor. Qed.

(** The generator expression that the code sums counts exactly the samples
    inside the range. *)
Lemma count_matches_inside (range : Q * Q) (samples : list Q) :
  count_matches range samples = count_inside range samples.
Proof.
  unfold count_matches. induction samples as [|sample rest IH]; [done|].
  rewrite filter_cons. cbn [count_inside]. rewrite <- IH.
  destruct (Qlt_le_dec sample range.1) as [Hlow|Hlow].
  - rewrite decide_False; [lia|].
    intros [Hle _]%in_range_spec. by apply Qlt_not_le in Hlow.
  - destruct (Qlt_le_dec range.2 sample) as [Hhigh|Hhigh].
    + rewrite decide_False; [lia|].
      intros [_ Hle]%in_range_spec. by apply Qlt_not_le in Hhigh.
    + rewrite decide_True by (by apply in_range_spec).
      cbn [length]. lia.
Qed.

Lemma count_inside_bounds (range : Q * Q) (samples : list Q) :
  0 ≤ count_inside range samples ≤ Z.of_nat (length samples).
Proof.
  induction samples as [|sample rest IH]; [done|]. cbn [count_inside length].
  destruct (Qlt_le_dec sample range.1); [lia|].
  destruct (Qlt_le_dec range.2 sample); lia.
Qed.

Section TileWeights.
Context `{RS : RandomSource}.

Lemma planet_sample_returns profiles s :
  profiles ≠ [] → returns (_planet_sample profiles) s (λ _ _, True).
Proof.
  intros Hne. destruct (last profiles) as [p|] eqn:Hl;
    [|by apply last_None in Hl].
  unfold _planet_sample. apply returns_bind, returns_uniform.
  apply returns_bind. eapply returns_lift; [by apply py_index_last|].
  apply returns_bind, returns_gauss. apply returns_bind, returns_gauss.
  by apply returns_ret.
Qed.

Lemma tile_weight_of_30 tile samples :
  length samples = 30%nat →
  tile_weight_of tile samples =
    Ok (TileType.weight tile
        * py_max (5 # 100)
            (fraction_inside (TileType.height_range tile) samples))%Q.
Proof.
  intros Hl. unfold tile_weight_of, fraction_inside.
  by rewrite count_matches_inside, Hl.
Qed.

Lemma initial_tile_weights_loop profiles ts acc s :
  profiles ≠ [] →
  ∃ batches s',
    repeat_draw (length ts) (repeat_draw 30 (_planet_sample profiles)) s
      = Ok (batches, s') ∧
    for_eachM (λ '(tile_name, tile) weights,
        samples ← repeat_draw 30 (_planet_sample profiles);
        w ← lift (tile_weight_of tile samples);
        mret (<[tile_name := w]> weights)) ts acc s
      = Ok (weights_from ts batches acc, s') ∧
    length batches = length ts ∧
    Forall (λ samples, length samples = 30%nat) batches.
Proof.
  intros Hne. revert acc s. induction ts as [|[n t] ts IH]; intros acc s.
  - exists [], s. by repeat split.
  - destruct (repeat_draw_returns (_planet_sample profiles) 30 s (λ _, True))
      as (samples & s1 & Hd & Hlen & _).
    { intros s0. by apply planet_sample_returns. }
    destruct (IH (<[n := (TileType.weight t
                            * py_max (5 # 100)
                                (fraction_inside (TileType.height_range t)
                                   samples))%Q]> acc) s1)
      as (batches & s2 & Hb & Hf & Hlb & Hall).
    exists (samples :: batches), s2. repeat split.
    + change (length ((n, t) :: ts)) with (S (length ts)).
      rewrite repeat_draw_S, (bind_Ok _ _ _ _ _ Hd), (bind_Ok _ _ _ _ _ Hb).
      done.
    + cbn [for_eachM]. erewrite bind_Ok; [apply Hf|].
      rewrite (bind_Ok _ _ _ _ _ Hd), (tile_weight_of_30 _ _ Hlen). done.
    + simpl. by rewrite Hlb.
    + by constructor.
Qed.

(** The entries of the table built from six batches of 30 samples. *)
Lemma weights_from_entries (batches : list (list Q)) :
  length batches = length TILE_TYPES →
  Forall (λ samples, length samples = 30%nat) batches →
  dom (weights_from TILE_TYPES batches ∅) = vocabulary ∧
  ∀ i tile_name tile, TILE_TYPES !! i = Some (tile_name, tile) →
    ∃ samples w,
      batches !! i = Some samples ∧ length samples = 30%nat ∧
      weights_from TILE_TYPES batches ∅ !! tile_name = Some w ∧
      w = (TileType.weight tile
           * Qmax (5 # 100)
               (fraction_inside (TileType.height_range tile) samples))%Q ∧
      ((5 # 100) * TileType.weight tile <= w)%Q ∧
      (0 < w)%Q.
Proof.
  intros Hlen Hall.
  do 7 (destruct batches as [|? batches]; try discriminate Hlen).
  clear Hlen. unfold weights_from. cbn [zip zip_with foldl TILE_TYPES]. split.
  { rewrite !dom_insert_L, dom_empty_L. unfold vocabulary. simpl.
    set_solver. }
  intros i tile_name tile Hi.
  assert (∀ x, (0 < TileType.weight tile)%Q →
            ((5 # 100) * TileType.weight tile
             <= TileType.weight tile * Qmax (5 # 100) x)%Q ∧
            (0 < TileType.weight tile * Qmax (5 # 100) x)%Q) as Hbound.
  { intros x Hpos.
    assert ((5 # 100) <= Qmax (5 # 100) x)%Q as Hle by apply Q.le_max_l.
    split.
    - rewrite (Qmult_comm (5 # 100)). apply Qmult_le_l; done.
    - apply Qmult_lt_0_compat; [done|].
      eapply Qlt_le_trans; [|apply Hle]. done. }
  assert (0 < TileType.weight tile)%Q as Hpos.
  { pose proof tile_weights_positive as Hall'.
    rewrite Forall_lookup in Hall'. apply (Hall' i (tile_name, tile) Hi). }
  rewrite !py_max_Qmax.
  repeat (match goal with
          | H : Forall _ (_ :: _) |- _ => apply Forall_cons in H as [? H]
          end).
  clear Hall.
  do 6 (destruct i as [|i];
        [injection Hi as <- <-; eexists _, _;
         split; [reflexivity|]; split; [assumption|];
         split; [rewrite ?lookup_insert_ne by discriminate;
                 apply lookup_insert_eq|];
         split; [reflexivity|]; apply (Hbound _ Hpos)|]).
  discriminate Hi.
Qed.

(** C7: [_initial_tile_weights] returns; with [batches] the six batches of
    30 planet samples it draws, in the order of the catalogue, the weight
    it stores for a tile is the tile's base weight times the larger of 0.05
    and the fraction of that tile's batch inside the tile's elevation
    range; hence every stored weight is at least 5% of the base weight and
    positive.  The table has an entry for exactly the tiles of the
    catalogue. *)
Theorem initial_tile_weights_floored (profiles : list PlanetProfile.t)
    (s : rng) :
  profiles ≠ [] →
  ∃ batches weights s',
    repeat_draw (length TILE_TYPES) (repeat_draw 30 (_planet_sample profiles)) s
      = Ok (batches, s') ∧
    _initial_tile_weights profiles s = Ok (weights, s') ∧
    dom weights = vocabulary ∧
    ∀ i tile_name tile, TILE_TYPES !! i = Some (tile_name, tile) →
      ∃ samples w,
        batches !! i = Some samples ∧ length samples = 30%nat ∧
        weights !! tile_name = Some w ∧
        w = (TileType.weight tile
             * Qmax (5 # 100)
                 (fraction_inside (TileType.height_range tile) samples))%Q ∧
        ((5 # 100) * TileType.weight tile <= w)%Q ∧
        (0 < w)%Q.
Proof.
  intros Hne.
  destruct (initial_tile_weights_loop profiles TILE_TYPES ∅ s Hne)
    as (batches & s' & Hb & Hw & Hlen & Hall).
  exists batches, (weights_from TILE_TYPES batches ∅), s'.
  split; [done|]. split; [done|]. by apply weights_from_entries.
Qed.

End TileWeights.

(** *** Grids *)

Section Grids.
Context {A : Type}.
Implicit Types (g : list (list A)) (c : coord) (v : A).

Lemma cell_at_in_grid width height g c :
  grid_shape width height g → in_grid width height c →
  is_Some (cell_at g c).
Proof.
  intros [Hh Hw] [Hx Hy]. unfold cell_at.
  destruct (lookup_lt_is_Some_2 g (Z.to_nat c.2)) as [row Hrow]; [lia|].
  rewrite Hrow. simpl. apply lookup_lt_is_Some_2.
  rewrite Forall_lookup in Hw. rewrite (Hw _ _ Hrow). lia.
Qed.

Lemma grid_get_cell_at g x y a :
  0 ≤ x → 0 ≤ y → grid_get g x y = Ok a ↔ cell_at g (x, y) = Some a.
Proof.
  intros Hx Hy. unfold grid_get, cell_at. simpl.
  destruct (py_index g y) as [row| |] eqn:Hrow; simpl.
  - apply py_index_Ok in Hrow; [|done]. rewrite Hrow. simpl.
    by apply py_index_Ok.
  - split; [done|]. destruct (g !! Z.to_nat y) as [row|] eqn:Hg; [|done].
    apply py_index_Ok in Hg; [congruence|done].
  - split; [done|]. destruct (g !! Z.to_nat y) as [row|] eqn:Hg; [|done].
    apply py_index_Ok in Hg; [congruence|done].
Qed.

Lemma grid_set_update g x y a v :
  0 ≤ x → 0 ≤ y → cell_at g (x, y) = Some a →
  grid_set g x y v = Ok (grid_update g (x, y) v).
Proof.
  intros Hx Hy. unfold cell_at, grid_set, grid_update. simpl.
  destruct (g !! Z.to_nat y) as [row|] eqn:Hrow; [|done]. simpl. intros Ha.
  rewrite (proj2 (py_index_Ok g y row Hy) Hrow). simpl.
  pose proof (lookup_lt_Some _ _ _ Hrow).
  pose proof (lookup_lt_Some _ _ _ Ha).
  rewrite <- (Z2Nat.id x) at 1 by done. rewrite py_setitem_nat by done.
  simpl. rewrite <- (Z2Nat.id y) at 1 by done.
  rewrite py_setitem_nat by done. f_equal.
  apply list_eq. intros i. destruct (decide (i = Z.to_nat y)) as [->|Hne].
  - rewrite list_lookup_insert_eq by done.
    by rewrite list_lookup_alter_eq, Hrow.
  - rewrite list_lookup_insert_ne by done.
    by rewrite list_lookup_alter_ne by done.
Qed.

Lemma cell_at_update g c c' v :
  0 ≤ c.1 → 0 ≤ c.2 → 0 ≤ c'.1 → 0 ≤ c'.2 →
  cell_at (grid_update g c v) c' =
    if decide (c' = c) then (λ _, v) <$> cell_at g c else cell_at g c'.
Proof.
  intros Hx Hy Hx' Hy'. unfold cell_at, grid_update.
  destruct c as [x y], c' as [x' y']. simpl in *.
  destruct (decide (Z.to_nat y' = Z.to_nat y)) as [Hey|Hney].
  - rewrite Hey, list_lookup_alter_eq.
    destruct (g !! Z.to_nat y) as [row|]; simpl.
    + destruct (decide (Z.to_nat x' = Z.to_nat x)) as [Hex|Hnex].
      * rewrite Hex. assert ((x', y') = (x, y)) as -> by (f_equal; lia).
        rewrite decide_True by done.
        destruct (row !! Z.to_nat x) eqn:Hr.
        -- rewrite list_lookup_insert_eq; [done|].
           by eapply lookup_lt_Some.
        -- simpl. apply lookup_ge_None. rewrite length_insert.
           by apply lookup_ge_None.
      * rewrite list_lookup_insert_ne by done.
        rewrite decide_False; [done|]. intros [= -> ->]. done.
    + by destruct (decide _).
  - rewrite list_lookup_alter_ne by done.
    rewrite decide_False; [done|]. intros [= -> ->]. done.
Qed.

Lemma grid_update_shape width height g c v :
  grid_shape width height g → grid_shape width height (grid_update g c v).
Proof.
  intros [Hh Hw]. unfold grid_update. split; [by rewrite length_alter|].
  rewrite Forall_lookup in Hw. apply Forall_lookup. intros i row.
  destruct (decide (i = Z.to_nat c.2)) as [->|Hne].
  - rewrite list_lookup_alter_eq.
    destruct (g !! Z.to_nat c.2) as [row'|] eqn:Hrow; [|done]. simpl.
    intros [= <-]. rewrite length_insert. by eapply Hw.
  - rewrite list_lookup_alter_ne by done. apply Hw.
Qed.

End Grids.

(** *** Measures and order on grids *)

Section GridMeasures.
Implicit Types (g : grid) (c : coord) (v a : gset string).

Lemma sum_list_with_alter {B} (f : B → nat) (h : B → B) (l : list B) i b :
  l !! i = Some b →
  (sum_list_with f (alter h i l) + f b = sum_list_with f l + f (h b))%nat.
Proof.
  revert i. induction l as [|x l IH]; intros [|i] Hi; simplify_eq/=; [lia|].
  specialize (IH i Hi). lia.
Qed.

Lemma grid_sum_update (f : gset string → nat) g c a v :
  cell_at g c = Some a →
  (grid_sum f (grid_update g c v) + f a = grid_sum f g + f v)%nat.
Proof.
  unfold cell_at, grid_sum, grid_update.
  destruct (g !! Z.to_nat c.2) as [row|] eqn:Hrow; [|done]. simpl.
  intros Ha.
  pose proof (sum_list_with_alter (sum_list_with f)
                (<[Z.to_nat c.1 := v]>) g _ _ Hrow) as Hg.
  pose proof (sum_list_with_alter f (λ _, v) row _ _ Ha) as Hr.
  rewrite <- list_insert_alter in Hr. lia.
Qed.

Lemma grid_ok_cell_at g c a : grid_ok g → cell_at g c = Some a → cell_ok a.
Proof.
  unfold grid_ok, cell_at. intros Hok.
  destruct (g !! Z.to_nat c.2) as [row|] eqn:Hrow; [|done]. simpl.
  intros Ha. rewrite Forall_lookup in Hok. specialize (Hok _ _ Hrow).
  rewrite Forall_lookup in Hok. by eapply Hok.
Qed.

Lemma grid_ok_update g c v :
  grid_ok g → cell_ok v → grid_ok (grid_update g c v).
Proof.
  intros Hok Hv. apply Forall_alter; [done|].
  intros row _ Hrow. by apply Forall_insert.
Qed.

Lemma grid_le_refl g : grid_le g g.
Proof. unfold grid_le. reflexivity. Qed.

Lemma grid_le_trans g1 g2 g3 : grid_le g1 g2 → grid_le g2 g3 → grid_le g1 g3.
Proof.
  unfold grid_le. intros H12 H23. by etrans.
Qed.

Lemma grid_le_update g c a v :
  cell_at g c = Some a → v ⊆ a → grid_le (grid_update g c v) g.
Proof.
  unfold cell_at, grid_le, grid_update. intros Ha Hv.
  apply Forall2_alter_l; [apply grid_le_refl|].
  intros row row' Hrow Hrow' _. simplify_eq. rewrite Hrow in Ha.
  simpl in Ha. rewrite list_insert_alter. apply Forall2_alter_l.
  - reflexivity.
  - intros x y Hx Hy _. by simplify_eq.
Qed.

Lemma grid_le_cell_at g' g c a' :
  grid_le g' g → cell_at g' c = Some a' →
  ∃ a, cell_at g c = Some a ∧ a' ⊆ a.
Proof.
  unfold grid_le, cell_at. intros Hle.
  destruct (g' !! Z.to_nat c.2) as [row'|] eqn:Hrow'; [|done]. simpl.
  intros Ha'.
  destruct (Forall2_lookup_l _ _ _ _ _ Hle Hrow') as (row & Hrow & Hrr).
  destruct (Forall2_lookup_l _ _ _ _ _ Hrr Ha') as (a & Ha & Haa).
  exists a. by rewrite Hrow.
Qed.

Lemma subseteq_open_cell (a' a : gset string) :
  a' ⊆ a → (open_cell a' ≤ open_cell a)%nat.
Proof.
  intros Hsub%subseteq_size. unfold open_cell.
  destruct (Nat.ltb_spec 1 (size a')), (Nat.ltb_spec 1 (size a)); lia.
Qed.

Lemma grid_le_sum (f : gset string → nat) g' g :
  (∀ a' a, a' ⊆ a → (f a' ≤ f a)%nat) →
  grid_le g' g → (grid_sum f g' ≤ grid_sum f g)%nat.
Proof.
  intros Hf. unfold grid_le, grid_sum. induction 1 as [|r' r g' g Hr _ IH];
    simpl; [done|].
  assert (sum_list_with f r' ≤ sum_list_with f r)%nat.
  { clear IH. induction Hr as [|a' a r' r Ha _ IH]; simpl; [done|].
    specialize (Hf _ _ Ha). lia. }
  lia.
Qed.

End GridMeasures.

(** *** The tile catalogue *)

Lemma dict_get_elem {V} (d : list (string * V)) k v :
  dict_get d k = Ok v → (k, v) ∈ d.
Proof.
  induction d as [|[k' v'] d IH]; [done|]. simpl.
  destruct (String.eqb_spec k k') as [->|Hne].
  - intros [= ->]. left.
  - intros Hd. right. by apply IH.
Qed.

Lemma dict_get_keys {V} (d : list (string * V)) k :
  k ∈ dict_keys d → ∃ v, dict_get d k = Ok v.
Proof.
  unfold dict_keys. induction d as [|[k' v'] d IH]; [by intros ?%elem_of_nil|].
  simpl. destruct (String.eqb_spec k k') as [->|Hne]; [by eexists|].
  intros [?|Hk]%elem_of_cons; [done|]. by apply IH.
Qed.

Lemma dict_get_NoDup {V} (d : list (string * V)) k v :
  NoDup (dict_keys d) → (k, v) ∈ d → dict_get d k = Ok v.
Proof.
  unfold dict_keys. induction d as [|[k' v'] d IH]; [by intros _ ?%elem_of_nil|].
  simpl. intros [Hk' Hnd]%NoDup_cons [[= -> ->]|Hin]%elem_of_cons.
  - by rewrite String.eqb_refl.
  - destruct (String.eqb_spec k k') as [->|Hne]; [|by apply IH].
    destruct Hk'. apply list_elem_of_fmap. by exists (k', v).
Qed.

Lemma TILE_TYPES_NoDup : NoDup (dict_keys TILE_TYPES).
Proof. compute_done. Qed.

Lemma elem_of_vocabulary name :
  name ∈ vocabulary ↔ name ∈ dict_keys TILE_TYPES.
Proof. unfold vocabulary. by rewrite elem_of_list_to_set. Qed.

Lemma elem_of_allowed_set (c : gset string) n :
  n ∈ allowed_set c ↔
  ∃ name tile, name ∈ c ∧ (name, tile) ∈ TILE_TYPES ∧
               n ∈ TileType.allowed_neighbors tile.
Proof.
  unfold allowed_set. rewrite elem_of_union_list. split.
  - intros (X & [[name tile] [-> Hin]]%list_elem_of_fmap & Hn). simpl in Hn.
    destruct (decide (name ∈ c)); [|set_solver].
    exists name, tile. by rewrite elem_of_list_to_set in Hn.
  - intros (name & tile & Hc & Hin & Hn).
    eexists. split; [apply list_elem_of_fmap; by exists (name, tile)|].
    simpl. rewrite decide_True by done. by rewrite elem_of_list_to_set.
Qed.

(** Every name that some tile allows as a neighbour is a tile itself. *)
Lemma allowed_neighbors_closed :
  Forall (λ kt, Forall (λ n, n ∈ vocabulary) (TileType.allowed_neighbors kt.2))
    TILE_TYPES.
Proof.
  repeat constructor; simpl; apply elem_of_vocabulary; unfold dict_keys;
    simpl; set_solver.
Qed.

Section Propagation.
Context `{SO : SetOrder}.
Implicit Types (g : grid) (c nb : coord) (stack : list coord)
  (log : list (list (list (gset string)))).

Lemma elem_of_set_iter (s : gset string) name : name ∈ set_iter s ↔ name ∈ s.
Proof. by rewrite set_iter_perm, elem_of_elements. Qed.

Lemma length_set_iter (s : gset string) : length (set_iter s) = size s.
Proof. by rewrite set_iter_perm. Qed.

Lemma allowed_union_loop (options : list string) (acc : gset string) :
  Forall (λ name, name ∈ vocabulary) options →
  ∃ allowed,
    for_each (λ option allowed,
        tile ← dict_get TILE_TYPES option;
        Ok (allowed ∪ list_to_set (TileType.allowed_neighbors tile)))
      options acc = Ok allowed ∧
    ∀ n, n ∈ allowed ↔
         n ∈ acc ∨ ∃ name tile, name ∈ options ∧ (name, tile) ∈ TILE_TYPES ∧
                                n ∈ TileType.allowed_neighbors tile.
Proof.
  intros Hall. revert acc.
  induction Hall as [|name options Hname _ IH]; intros acc.
  - exists acc. split; [done|]. intros n. split; [by left|].
    intros [?|(? & ? & ?%elem_of_nil & _)]; done.
  - apply elem_of_vocabulary, dict_get_keys in Hname as [tile Htile].
    destruct (IH (acc ∪ list_to_set (TileType.allowed_neighbors tile)))
      as (allowed & Hloop & Hchar).
    exists allowed. split; [cbn [for_each]; rewrite Htile; exact Hloop|].
    intros n. rewrite Hchar, elem_of_union, elem_of_list_to_set.
    apply dict_get_elem in Htile as Hin. split.
    + intros [[?|?]|(name' & tile' & ? & ? & ?)]; [by left| |].
      * right. exists name, tile. split; [left|done].
      * right. exists name', tile'. split; [by right|done].
    + intros [?|(name' & tile' & [->|?]%elem_of_cons & Hin' & ?)].
      * by left; left.
      * left; right.
        assert (tile' = tile) as ->; [|done].
        apply (dict_get_NoDup _ _ _ TILE_TYPES_NoDup) in Hin'. congruence.
      * right. by exists name', tile'.
Qed.

Lemma allowed_union_set (cur : gset string) :
  cur ⊆ vocabulary → allowed_union (set_iter cur) = Ok (allowed_set cur).
Proof.
  intros Hsub.
  destruct (allowed_union_loop (set_iter cur) ∅) as (allowed & Hloop & Hchar).
  { apply Forall_forall. intros name ?%elem_of_set_iter. by apply Hsub. }
  unfold allowed_union. rewrite Hloop. f_equal.
  apply set_eq. intros n. rewrite Hchar, elem_of_allowed_set. split.
  - intros [?%elem_of_empty|(name & tile & ?%elem_of_set_iter & ?)]; [done|].
    by exists name, tile.
  - intros (name & tile & ?%elem_of_set_iter & ?). right. by exists name, tile.
Qed.

End Propagation.

(** *** One propagation step *)

Lemma narrows_code (allowed before : gset string) :
  bool_decide (before ∩ allowed ≠ before) && bool_decide (before ∩ allowed ≠ ∅)
  = bool_decide (narrows allowed before).
Proof.
  rewrite <- bool_decide_and. apply bool_decide_ext. unfold narrows. split.
  - intros [Hne Hemp]. split; [done|]. set_solver.
  - intros [Hemp Hsub]. split; [|done]. intros Heq. rewrite Heq in Hsub.
    by destruct Hsub.
Qed.

Lemma narrows_size (allowed before : gset string) :
  narrows allowed before →
  (0 < size (before ∩ allowed) < size before)%nat.
Proof.
  intros [Hemp Hsub]. split.
  - assert (size (before ∩ allowed) ≠ 0)%nat; [|lia].
    apply size_non_empty_iff. by intros ?%leibniz_equiv.
  - by apply subset_size.
Qed.

Lemma elem_of_neighbors x y width height nb :
  nb ∈ _neighbors x y width height ↔
  in_grid width height nb ∧ adjacent (x, y) nb.
Proof.
  unfold _neighbors, in_grid, adjacent. rewrite list_elem_of_filter.
  destruct nb as [nx ny]. simpl. rewrite !elem_of_cons, elem_of_nil.
  split.
  - intros [Hin [[= -> ->]|[[= -> ->]|[[= -> ->]|[[= -> ->]|[]]]]]]; lia.
  - intros [Hin Hadj]. split; [done|].
    assert (nx = x + 1 ∧ ny = y + 0 ∨ nx = x + -1 ∧ ny = y + 0 ∨
            nx = x + 0 ∧ ny = y + 1 ∨ nx = x + 0 ∧ ny = y + -1) as Hc by lia.
    destruct Hc as [[-> ->]|[[-> ->]|[[-> ->]|[-> ->]]]]; auto.
Qed.

Lemma neighbors_NoDup x y width height : NoDup (_neighbors x y width height).
Proof.
  unfold _neighbors. apply NoDup_filter. simpl.
  repeat (apply NoDup_cons; split;
          [rewrite ?elem_of_cons, elem_of_nil; intros Hc;
           repeat (destruct Hc as [Hc|Hc]); try done; injection Hc; lia|]).
  apply NoDup_nil_2.
Qed.

Lemma filter_ext_elem_of {B} (P1 P2 : B → Prop)
    `{!∀ x, Decision (P1 x), !∀ x, Decision (P2 x)} (l : list B) :
  (∀ x, x ∈ l → P1 x ↔ P2 x) → filter P1 l = filter P2 l.
Proof.
  induction l as [|x l IH]; intros Hext; [done|].
  rewrite !filter_cons.
  rewrite IH by (intros y Hy; apply Hext; by right).
  destruct (decide (P1 x)) as [H1|H1], (decide (P2 x)) as [H2|H2]; try done.
  - destruct H2. apply Hext; [left|done].
  - destruct H1. apply Hext; [left|done].
Qed.

Section NeighbourVisits.
Implicit Types (g : grid) (c nb : coord) (stack : list coord)
  (log : list (list (list (gset string)))) (allowed before : gset string).

Lemma visit_neighbor_spec allowed nb g stack log before :
  0 ≤ nb.1 → 0 ≤ nb.2 → cell_at g nb = Some before →
  visit_neighbor allowed nb (g, stack, log) =
    Ok (if decide (narrows allowed before)
        then (grid_update g nb (before ∩ allowed), nb :: stack,
              grid_update g nb (before ∩ allowed) :: log)
        else (g, stack, log)).
Proof.
  destruct nb as [nx ny]. simpl. intros Hx Hy Hcell. unfold visit_neighbor.
  rewrite (proj2 (grid_get_cell_at g nx ny before Hx Hy) Hcell). simpl.
  rewrite narrows_code. destruct (decide (narrows allowed before)) as [Hn|Hn].
  - rewrite bool_decide_eq_true_2 by done.
    by rewrite (grid_set_update g nx ny before _ Hx Hy Hcell).
  - by rewrite bool_decide_eq_false_2 by done.
Qed.

Lemma narrowed_cons allowed nb n ns before :
  nb ≠ n →
  narrowed allowed (nb ∈ n :: ns) before = narrowed allowed (nb ∈ ns) before.
Proof.
  intros Hne. unfold narrowed.
  destruct (decide (nb ∈ n :: ns ∧ _)) as [[Hin ?]|H1],
           (decide (nb ∈ ns ∧ _)) as [[Hin' ?]|H2]; try done.
  - destruct H2. apply elem_of_cons in Hin as [?|?]; done.
  - destruct H1. split; [by right|done].
Qed.

Lemma visit_neighbors_spec allowed ns g stack log :
  NoDup ns →
  Forall (λ nb, 0 ≤ nb.1 ∧ 0 ≤ nb.2 ∧ is_Some (cell_at g nb)) ns →
  ∃ g' log',
    for_each (visit_neighbor allowed) ns (g, stack, log)
      = Ok (g', reverse (filter (narrows_at g allowed) ns) ++ stack, log') ∧
    ∀ nb, 0 ≤ nb.1 → 0 ≤ nb.2 →
          cell_at g' nb = narrowed allowed (nb ∈ ns) <$> cell_at g nb.
Proof.
  intros Hnd. revert g stack log.
  induction Hnd as [|n ns Hn Hnd IH]; intros g stack log Hall.
  - exists g, log. split; [done|]. intros nb _ _. unfold narrowed.
    by destruct (cell_at g nb) as [before|].
  - apply Forall_cons in Hall as [(Hx & Hy & before & Hcell) Hall].
    cbn [for_each]. rewrite (visit_neighbor_spec _ _ _ _ _ _ Hx Hy Hcell).
    assert (∀ v nb, nb ∈ ns → cell_at (grid_update g n v) nb = cell_at g nb)
      as Hsame.
    { intros v nb Hnb. rewrite Forall_forall in Hall.
      destruct (Hall _ Hnb) as (Hx' & Hy' & _).
      rewrite cell_at_update by done. rewrite decide_False; [done|].
      by intros ->. }
    destruct (decide (narrows allowed before)) as [Hnar|Hnar].
    + destruct (IH (grid_update g n (before ∩ allowed)) (n :: stack)
                  (grid_update g n (before ∩ allowed) :: log))
        as (g' & log' & Hfor & Hcells).
      { rewrite Forall_forall in Hall |- *. intros nb Hnb.
        rewrite Hsame by done. by apply Hall. }
      exists g', log'. split.
      * cbn [mbind outcome_bind]. rewrite Hfor. do 3 f_equal.
        rewrite filter_cons_True by (unfold narrows_at; by rewrite Hcell).
        rewrite reverse_cons, <- app_assoc. simpl. f_equal.
        f_equal. apply filter_ext_elem_of. intros nb Hnb.
        unfold narrows_at. by rewrite Hsame.
      * intros nb Hx' Hy'. rewrite Hcells by done.
        rewrite cell_at_update by done.
        destruct (decide (nb = n)) as [->|Hne].
        -- rewrite Hcell. simpl. f_equal. unfold narrowed.
           rewrite decide_False by (by intros [? _]).
           rewrite decide_True; [done|]. split; [left|done].
        -- destruct (cell_at g nb); [|done]. simpl.
           by rewrite narrowed_cons.
    + destruct (IH g stack log Hall) as (g' & log' & Hfor & Hcells).
      exists g', log'. split.
      * cbn [mbind outcome_bind]. rewrite Hfor. do 3 f_equal.
        by rewrite filter_cons_False
          by (unfold narrows_at; by rewrite Hcell).
      * intros nb Hx' Hy'. rewrite Hcells by done.
        destruct (decide (nb = n)) as [->|Hne].
        -- rewrite Hcell. simpl. f_equal. unfold narrowed.
           rewrite decide_False by (by intros [? _]).
           rewrite decide_False; [done|]. by intros [_ ?].
        -- destruct (cell_at g nb); [|done]. simpl.
           by rewrite narrowed_cons.
Qed.

End NeighbourVisits.

Section PropagateStep.
Context `{SO : SetOrder}.

Lemma propagate_step_eq (width height : Z) (g : grid) (c : coord)
    (rest : list coord) (log : list (list (list (gset string))))
    (current : gset string) :
  grid_shape width height g → in_grid width height c →
  cell_at g c = Some current → current ⊆ vocabulary →
  ∃ g' log',
    propagate_step width height c (g, rest, log)
      = Ok (g',
            reverse (filter (narrows_at g (allowed_set current))
                       (_neighbors c.1 c.2 width height)) ++ rest,
            log') ∧
    ∀ nb, 0 ≤ nb.1 → 0 ≤ nb.2 →
      cell_at g' nb =
        narrowed (allowed_set current)
          (nb ∈ _neighbors c.1 c.2 width height) <$> cell_at g nb.
Proof.
  intros Hshape [Hx Hy] Hcur Hsub. destruct c as [cx cy]. simpl in *.
  destruct (visit_neighbors_spec (allowed_set current)
              (_neighbors cx cy width height) g rest log)
    as (g' & log' & Hfor & Hcells).
  { apply neighbors_NoDup. }
  { apply Forall_forall. intros nb [[Hnx Hny] _]%elem_of_neighbors.
    split; [lia|]. split; [lia|]. by eapply cell_at_in_grid. }
  exists g', log'. split; [|done]. unfold propagate_step. simpl.
  rewrite (proj2 (grid_get_cell_at g cx cy current (proj1 Hx) (proj1 Hy)) Hcur).
  cbn [mbind outcome_bind]. rewrite (allowed_union_set _ Hsub).
  cbn [mbind outcome_bind]. exact Hfor.
Qed.

(** C6: one propagation step, for the popped cell [c] of a grid whose
    cells are non-empty sets of tile names.  With [allowed] the union of
    [allowed_neighbors] over the tiles in the candidate set of [c]:
    the cells visited are exactly the 4-connected neighbours of [c] that
    lie inside the grid; a visited cell whose intersection with [allowed]
    is non-empty and strictly smaller than the cell is replaced by that
    intersection and pushed onto the stack; every other cell (in
    particular a visited one whose intersection is empty) keeps its set
    and is not pushed. *)
Theorem propagate_step_narrows_neighbors (width height : Z) (g : grid)
    (c : coord) (rest : list coord)
    (log : list (list (list (gset string)))) :
  grid_shape width height g → grid_ok g → in_grid width height c →
  ∃ current g' pushed log',
    cell_at g c = Some current ∧
    propagate_step width height c (g, rest, log)
      = Ok (g', pushed ++ rest, log') ∧
    let allowed := allowed_set current in
    let visited := _neighbors c.1 c.2 width height in
    (∀ name, name ∈ allowed ↔
             ∃ tile_name tile, tile_name ∈ current ∧
               (tile_name, tile) ∈ TILE_TYPES ∧
               name ∈ TileType.allowed_neighbors tile) ∧
    (∀ nb, nb ∈ visited ↔ in_grid width height nb ∧ adjacent c nb) ∧
    (∀ nb before, in_grid width height nb → cell_at g nb = Some before →
       (nb ∈ visited ∧ before ∩ allowed ≠ ∅ ∧ before ∩ allowed ⊂ before →
        cell_at g' nb = Some (before ∩ allowed) ∧ nb ∈ pushed) ∧
       (¬ (nb ∈ visited ∧ before ∩ allowed ≠ ∅ ∧ before ∩ allowed ⊂ before) →
        cell_at g' nb = Some before ∧ nb ∉ pushed)).
Proof.
  intros Hshape Hok Hc.
  destruct (cell_at_in_grid _ _ _ _ Hshape Hc) as [current Hcur].
  pose proof (grid_ok_cell_at _ _ _ Hok Hcur) as [_ Hsub].
  destruct (propagate_step_eq width height g c rest log current)
    as (g' & log' & Hstep & Hcells); [done..|].
  eexists current, g', _, log'. split; [done|]. split; [exact Hstep|].
  cbn zeta. split; [apply elem_of_allowed_set|].
  split; [intros nb; destruct c; apply elem_of_neighbors|].
  intros nb before [Hx Hy] Hbefore.
  specialize (Hcells nb (proj1 Hx) (proj1 Hy)). rewrite Hbefore in Hcells.
  simpl in Hcells. unfold narrowed, narrows in Hcells.
  rewrite elem_of_reverse, list_elem_of_filter. unfold narrows_at.
  rewrite Hbefore. unfold narrows.
  split; intros Hcase.
  - rewrite decide_True in Hcells by tauto. split; [done|]. tauto.
  - rewrite decide_False in Hcells by tauto. split; [done|]. tauto.
Qed.

End PropagateStep.

(** *** Invariants of the solver *)

Lemma solver_le_refl st : solver_le st st.
Proof. split; [apply grid_le_refl|]. split; [done|lia]. Qed.

Lemma solver_le_trans st1 st2 st3 :
  solver_le st1 st2 → solver_le st2 st3 → solver_le st1 st3.
Proof.
  intros (Hg & Hs & Hm) (Hg' & Hs' & Hm'). split; [by eapply grid_le_trans|].
  split; [by etrans|lia].
Qed.

Lemma history_ok_push g' g log :
  history_ok log → head log = Some g → grid_ok g' → grid_le g' g →
  history_ok (g' :: log).
Proof.
  intros Hlog Hhead Hok Hle. destruct log as [|g0 log]; [done|].
  simpl in Hhead. simplify_eq. by constructor.
Qed.

Section SolverInvariants.
Implicit Types (g : grid) (c nb : coord) (stack : list coord)
  (log : list (list (list (gset string)))) (allowed before : gset string).

Lemma visit_neighbor_inv width height allowed nb st :
  solver_inv width height st → in_grid width height nb →
  ∃ st', visit_neighbor allowed nb st = Ok st' ∧
         solver_inv width height st' ∧ solver_le st' st.
Proof.
  destruct st as [[g stack] log].
  intros (Hshape & Hok & Hstack & Hlog & Hhead) Hnb. cbn [fst snd] in *.
  destruct (cell_at_in_grid _ _ _ _ Hshape Hnb) as [before Hcell].
  destruct Hnb as [Hx Hy].
  rewrite (visit_neighbor_spec allowed nb g stack log before) by (done || lia).
  destruct (decide (narrows allowed before)) as [Hnar|Hnar].
  - eexists. split; [done|].
    pose proof (grid_ok_cell_at _ _ _ Hok Hcell) as [_ Hsub].
    assert (cell_ok (before ∩ allowed)) as Hcok.
    { split; [apply Hnar|]. set_solver. }
    assert (grid_le (grid_update g nb (before ∩ allowed)) g) as Hle.
    { eapply grid_le_update; [done|]. set_solver. }
    split.
    + split; [by apply grid_update_shape|]. simpl.
      split; [by apply grid_ok_update|].
      split; [by constructor|].
      split; [|done]. eapply history_ok_push; [done..| |done].
      by apply grid_ok_update.
    + split; [done|]. simpl. split; [by apply suffix_cons_r|].
      pose proof (grid_sum_update size g nb before (before ∩ allowed) Hcell).
      pose proof (narrows_size _ _ Hnar). unfold grid_card. lia.
  - eexists. split; [done|]. split; [done|]. apply solver_le_refl.
Qed.

Lemma visit_neighbors_inv width height allowed ns st :
  solver_inv width height st → Forall (in_grid width height) ns →
  ∃ st', for_each (visit_neighbor allowed) ns st = Ok st' ∧
         solver_inv width height st' ∧ solver_le st' st.
Proof.
  intros Hinv Hns. revert st Hinv.
  induction Hns as [|nb ns Hnb _ IH]; intros st Hinv.
  - exists st. split; [done|]. split; [done|]. apply solver_le_refl.
  - destruct (visit_neighbor_inv _ _ allowed nb st Hinv Hnb)
      as (st1 & Hv & Hinv1 & Hle1).
    destruct (IH st1 Hinv1) as (st2 & Hf & Hinv2 & Hle2).
    exists st2. cbn [for_each]. rewrite Hv. split; [exact Hf|].
    split; [done|]. by eapply solver_le_trans.
Qed.

End SolverInvariants.

Section PropagateLoop.
Context `{SO : SetOrder}.
Implicit Types (g : grid) (c nb : coord) (stack : list coord)
  (log : list (list (list (gset string)))).

Lemma propagate_step_inv width height c g rest log :
  solver_inv width height (g, rest, log) → in_grid width height c →
  ∃ st', propagate_step width height c (g, rest, log) = Ok st' ∧
         solver_inv width height st' ∧ solver_le st' (g, rest, log).
Proof.
  intros Hinv Hc. pose proof Hinv as (Hshape & Hok & _). cbn [fst snd] in *.
  destruct (cell_at_in_grid _ _ _ _ Hshape Hc) as [current Hcur].
  pose proof (grid_ok_cell_at _ _ _ Hok Hcur) as [_ Hsub].
  destruct (visit_neighbors_inv width height (allowed_set current)
              (_neighbors c.1 c.2 width height) (g, rest, log) Hinv)
    as (st' & Hfor & Hinv' & Hle).
  { apply Forall_forall. by intros nb [? _]%elem_of_neighbors. }
  exists st'. split; [|done]. destruct c as [cx cy], Hc as [Hx Hy].
  unfold propagate_step. cbn [fst snd] in *.
  rewrite (proj2 (grid_get_cell_at g cx cy current (proj1 Hx) (proj1 Hy)) Hcur).
  cbn [mbind outcome_bind]. rewrite (allowed_union_set _ Hsub).
  exact Hfor.
Qed.

Lemma propagate_inv width height fuel g stack log :
  solver_inv width height (g, stack, log) →
  (grid_card g + length stack ≤ fuel)%nat →
  ∃ g' log',
    propagate fuel width height (g, stack, log) = Ok (g', log') ∧
    solver_inv width height (g', [], log') ∧
    grid_le g' g ∧ log `suffix_of` log'.
Proof.
  revert g stack log.
  induction fuel as [|fuel IH]; intros g stack log Hinv Hfuel.
  - destruct stack as [|c rest]; [|simpl in Hfuel; lia].
    exists g, log. split; [done|]. split; [done|].
    split; [apply grid_le_refl|done].
  - destruct stack as [|c rest].
    { exists g, log. split; [done|]. split; [done|].
      split; [apply grid_le_refl|done]. }
    destruct Hinv as (Hshape & Hok & Hstack & Hlog).
    apply Forall_cons in Hstack as [Hc Hrest].
    destruct (propagate_step_inv width height c g rest log)
      as ([[g1 stack1] log1] & Hstep & Hinv1 & Hle1 & Hsuf1 & Hm1);
      [done..|].
    cbn [fst snd length] in *.
    destruct (IH g1 stack1 log1 Hinv1) as (g' & log' & Hp & Hinv' & Hle' & Hsuf');
      [lia|].
    exists g', log'. split.
    + cbn [propagate fst snd]. rewrite Hstep. exact Hp.
    + split; [done|]. split; [by eapply grid_le_trans|by etrans].
Qed.

End PropagateLoop.

(** *** Selecting and collapsing a cell *)

Lemma comprehension_Forall2 {A B} (f : A → outcome B) (P : A → B → Prop)
    (l : list A) :
  (∀ a, a ∈ l → ∃ b, f a = Ok b ∧ P a b) →
  ∃ bs, comprehension f l = Ok bs ∧ Forall2 P l bs.
Proof.
  induction l as [|a l IH]; intros Hf.
  - exists []. by split.
  - destruct (Hf a) as (b & Hb & HP); [left|].
    destruct IH as (bs & Hbs & HPs); [intros a' Ha'; apply Hf; by right|].
    exists (b :: bs). cbn [comprehension]. rewrite Hb. cbn [mbind outcome_bind].
    rewrite Hbs. split; [done|]. by constructor.
Qed.

Lemma foldl_Qplus_pos (l : list Q) (acc : Q) :
  Forall (λ w, (0 < w)%Q) l →
  (acc <= foldl Qplus acc l)%Q ∧ (l ≠ [] → (acc < foldl Qplus acc l)%Q).
Proof.
  intros Hl. revert acc. induction Hl as [|w l Hw _ IH]; intros acc.
  - split; [apply Qle_refl|done].
  - simpl. destruct (IH (acc + w)%Q) as [Hle _].
    assert (acc < acc + w)%Q as Hlt.
    { rewrite <- (Qplus_0_r acc) at 1. by apply Qplus_lt_r. }
    split; [|intros _]; [apply Qlt_le_weak|]; by eapply Qlt_le_trans.
Qed.

Lemma py_min_list_elem (l : list Q) :
  l ≠ [] → ∃ m, py_min_list l = Ok m ∧ m ∈ l.
Proof.
  destruct l as [|a l]; [done|]. intros _. eexists. split; [done|].
  revert a. induction l as [|b l IH]; intros a; [left|]. simpl.
  destruct (Qltb b a).
  - right. apply IH.
  - specialize (IH a). apply elem_of_cons in IH as [->|?];
      [left|right; by right].
Qed.

Section Selection.
Context `{RS : RandomSource} `{ML : MathLib} `{SO : SetOrder}.
Implicit Types (g : grid) (c : coord) (tile_weights : gmap string Q).

Lemma choice_returns {A} (seq : list A) s :
  seq ≠ [] → returns (choice seq) s (λ a _, a ∈ seq).
Proof.
  intros Hne. unfold returns, choice. destruct seq as [|a0 seq']; [done|].
  cbv beta. pose proof (randbelow_lt (length (a0 :: seq')) s) as Hlt.
  destruct (randbelow (length (a0 :: seq')) s) as [i s'].
  destruct (lookup_lt_is_Some_2 (a0 :: seq') i) as [a Ha].
  { apply Hlt. simpl. lia. }
  exists a, s'. rewrite Ha. split; [done|]. by eapply list_elem_of_lookup_2.
Qed.

Lemma cell_weights tile_weights (cell : gset string) :
  weights_ok tile_weights → cell ⊆ vocabulary →
  ∃ weights,
    comprehension (map_get tile_weights) (set_iter cell) = Ok weights ∧
    length weights = size cell ∧ Forall (λ w, (0 < w)%Q) weights.
Proof.
  intros Hw Hsub.
  destruct (comprehension_Forall2 (map_get tile_weights)
              (λ _ w, (0 < w)%Q) (set_iter cell)) as (weights & Hc & Hall).
  { intros name Hname%elem_of_set_iter.
    destruct (Hw name (Hsub _ Hname)) as (w & Hlook & Hpos).
    exists w. unfold map_get. by rewrite Hlook. }
  exists weights. split; [done|]. split.
  - by rewrite <- (Forall2_length _ _ _ Hall), length_set_iter.
  - clear Hc. induction Hall; by constructor.
Qed.

Lemma entropy_returns tile_weights (cell : gset string) :
  weights_ok tile_weights → cell ⊆ vocabulary →
  ∃ e, entropy tile_weights cell = Ok e.
Proof.
  intros Hw Hsub. unfold entropy.
  destruct (Nat.leb_spec (size cell) 1) as [Hle|Hgt]; [by eexists|].
  destruct (cell_weights tile_weights cell Hw Hsub)
    as (weights & -> & Hlen & Hpos).
  cbn [mbind outcome_bind].
  assert (0 < py_sum weights)%Q as Htotal.
  { apply foldl_Qplus_pos; [done|]. intros ->. simpl in Hlen. lia. }
  destruct (comprehension_Forall2
              (λ w, p ← py_div w (py_sum weights); l ← py_log p; Ok (p * l)%Q)
              (λ _ _, True)
              (filter (λ w, Qltb 0 w = true) weights)) as (terms & -> & _).
  { intros w [Hw0%Qltb_lt _]%list_elem_of_filter.
    assert (Qeq_bool (py_sum weights) 0 = false) as Hnz.
    { apply not_true_iff_false. rewrite Qeq_bool_iff. intros Heq.
      rewrite Heq in Htotal. by apply Qlt_irrefl in Htotal. }
    unfold py_div. rewrite Hnz. cbn [mbind outcome_bind]. unfold py_log.
    rewrite (proj2 (Qltb_lt _ _)); [by eexists|].
    apply Qlt_shift_div_l; [done|]. by rewrite Qmult_0_l. }
  by eexists.
Qed.

End Selection.

Lemma py_range_lookup (n : Z) (i : nat) (z : Z) :
  py_range n !! i = Some z ↔ z = Z.of_nat i ∧ Z.of_nat i < n.
Proof. unfold py_range. rewrite lookup_seqZ. by rewrite Z.add_0_l. Qed.

Lemma py_range_length (n : Z) : length (py_range n) = Z.to_nat n.
Proof. apply length_seqZ. Qed.

Section Scan.
Context `{ML : MathLib} `{SO : SetOrder}.
Implicit Types (g : grid) (c : coord) (tile_weights : gmap string Q).

Lemma scan_row_returns tile_weights width height g y acc :
  weights_ok tile_weights → grid_shape width height g → grid_ok g →
  0 ≤ y < height → Forall (candidate_ok width height g) acc →
  ∃ acc',
    for_each (λ x acc,
        c ← grid_get g x y;
        if (1 <? size c)%nat then
          e ← entropy tile_weights c; Ok (acc ++ [(x, y, e)])
        else Ok acc)
      (py_range width) acc = Ok acc' ∧
    Forall (candidate_ok width height g) acc' ∧
    (acc' = [] →
     acc = [] ∧
     ∀ x a, 0 ≤ x < width → cell_at g (x, y) = Some a → (size a ≤ 1)%nat).
Proof.
  intros Hw Hshape Hok Hy Hacc.
  destruct (for_each_inv
    (λ x acc,
        c ← grid_get g x y;
        if (1 <? size c)%nat then
          e ← entropy tile_weights c; Ok (acc ++ [(x, y, e)])
        else Ok acc)
    (py_range width)
    (λ i acc', Forall (candidate_ok width height g) acc' ∧
       (acc' = [] →
        acc = [] ∧
        ∀ x a, 0 ≤ x < Z.of_nat i → cell_at g (x, y) = Some a →
               (size a ≤ 1)%nat)) acc) as (acc' & Hfor & Hall & Hnil).
  - split; [done|]. intros ->. split; [done|]. intros; lia.
  - intros i x acc1 [-> Hi]%py_range_lookup [Hall Hnil].
    assert (in_grid width height (Z.of_nat i, y)) as Hin
      by (unfold in_grid; simpl; lia).
    destruct (cell_at_in_grid _ _ _ _ Hshape Hin) as [a Ha].
    rewrite (proj2 (grid_get_cell_at g (Z.of_nat i) y a
                      ltac:(lia) ltac:(lia)) Ha).
    cbn [mbind outcome_bind].
    destruct (Nat.ltb_spec 1 (size a)) as [Hopen|Hclosed].
    + pose proof (grid_ok_cell_at _ _ _ Hok Ha) as [_ Hsub].
      destruct (entropy_returns tile_weights a Hw Hsub) as [e ->].
      eexists. split; [done|]. split.
      * apply Forall_app. split; [done|]. constructor; [|done].
        split; [done|]. by exists a.
      * intros Hnil'. by apply app_eq_nil in Hnil' as [_ ?].
    + eexists. split; [done|]. split; [done|]. intros Hacc1.
      destruct (Hnil Hacc1) as [-> Hprev]. split; [done|].
      intros x a' Hx Ha'. destruct (decide (x = Z.of_nat i)) as [->|Hne].
      * by simplify_eq.
      * apply (Hprev x a'); [lia|done].
  - exists acc'. split; [done|]. split; [done|]. intros Hnil'.
    destruct (Hnil Hnil') as [-> Hall']. split; [done|].
    intros x a Hx. apply Hall'. rewrite py_range_length. lia.
Qed.

Lemma scan_candidates_returns tile_weights width height g :
  weights_ok tile_weights → grid_shape width height g → grid_ok g →
  ∃ candidates,
    scan_candidates tile_weights width height g = Ok candidates ∧
    Forall (candidate_ok width height g) candidates ∧
    (candidates = [] → all_collapsed width height g).
Proof.
  intros Hw Hshape Hok. unfold scan_candidates.
  destruct (for_each_inv
    (λ y acc,
       for_each (λ x acc,
           c ← grid_get g x y;
           if (1 <? size c)%nat then
             e ← entropy tile_weights c; Ok (acc ++ [(x, y, e)])
           else Ok acc)
         (py_range width) acc)
    (py_range height)
    (λ i acc, Forall (candidate_ok width height g) acc ∧
       (acc = [] →
        ∀ c a, 0 ≤ c.1 < width → 0 ≤ c.2 < Z.of_nat i →
               cell_at g c = Some a → (size a ≤ 1)%nat)) [])
    as (acc' & Hfor & Hall & Hnil).
  - split; [done|]. intros; lia.
  - intros i y acc [-> Hi]%py_range_lookup [Hall Hnil].
    destruct (scan_row_returns tile_weights width height g (Z.of_nat i) acc)
      as (acc' & Hrow & Hall' & Hnil'); [done..|lia|done|].
    exists acc'. split; [done|]. split; [done|]. intros Hacc' [x y] a Hx Hy.
    simpl in *. destruct (Hnil' Hacc') as [Hacc Hrowclosed].
    destruct (decide (y = Z.of_nat i)) as [->|Hne].
    + by apply Hrowclosed.
    + apply (Hnil Hacc (x, y) a); simpl; [done|lia].
  - exists acc'. split; [done|]. split; [done|].
    intros Hacc' c a [Hx Hy]. apply (Hnil Hacc'); [done|].
    rewrite py_range_length. lia.
Qed.

End Scan.

Section MainLoop.
Context `{RS : RandomSource} `{ML : MathLib} `{SO : SetOrder}.
Implicit Types (g : grid) (c : coord) (tile_weights : gmap string Q)
  (log : list (list (list (gset string)))).

Lemma weighted_items tile_weights (options : gset string) :
  weights_ok tile_weights → options ⊆ vocabulary →
  ∃ items,
    comprehension (λ name, w ← map_get tile_weights name; Ok (name, w))
      (set_iter options) = Ok items ∧
    items.*1 = set_iter options.
Proof.
  intros Hw Hsub.
  destruct (comprehension_Forall2
              (λ name, w ← map_get tile_weights name; Ok (name, w))
              (λ name item, item.1 = name) (set_iter options))
    as (items & Hc & Hall).
  { intros name Hname%elem_of_set_iter.
    destruct (Hw name (Hsub _ Hname)) as (w & Hlook & _).
    exists (name, w). unfold map_get. by rewrite Hlook. }
  exists items. split; [done|]. clear Hc.
  induction Hall as [|name item names items Hitem _ IH]; [done|].
  by rewrite fmap_cons, Hitem, IH.
Qed.

Lemma open_cells_collapse g c a name :
  cell_at g c = Some a → (1 < size a)%nat →
  (open_cells (grid_update g c {[name]}) < open_cells g)%nat.
Proof.
  intros Ha Hopen.
  pose proof (grid_sum_update open_cell g c a {[name]} Ha) as Hsum.
  assert (open_cell a = 1%nat) as Ha1.
  { unfold open_cell. by destruct (Nat.ltb_spec 1 (size a)); [|lia]. }
  assert (open_cell {[name]} = 0%nat) as Hn0.
  { unfold open_cell. by rewrite size_singleton. }
  unfold open_cells. lia.
Qed.

Lemma wfc_iteration_returns tile_weights width height g log s :
  weights_ok tile_weights → solver_inv width height (g, [], log) →
  returns (wfc_iteration tile_weights width height g log) s (λ r _,
    match r with
    | None => all_collapsed width height g
    | Some (g', log') =>
        solver_inv width height (g', [], log') ∧ grid_le g' g ∧
        log `suffix_of` log' ∧ (open_cells g' < open_cells g)%nat ∧
        ∃ c a chosen,
          in_grid width height c ∧ cell_at g c = Some a ∧
          (1 < size a)%nat ∧ chosen ∈ a ∧
          let g1 := grid_update g c {[chosen]} in
          propagate (S (grid_card g1)) width height (g1, [c], g1 :: log)
            = Ok (g', log')
    end).
Proof.
  intros Hw (Hshape & Hok & _ & Hlog & Hhead). cbn [fst snd] in *.
  unfold wfc_iteration. apply returns_bind.
  destruct (scan_candidates_returns tile_weights width height g Hw Hshape Hok)
    as (candidates & Hscan & Hcands & Hnil).
  eapply returns_lift; [exact Hscan|].
  destruct candidates as [|item0 cands]; [by apply returns_ret, Hnil|].
  clear Hnil. set (candidates := item0 :: cands) in *.
  destruct (py_min_list_elem (snd <$> candidates)) as (m & Hmin & Hm); [done|].
  apply returns_bind. eapply returns_lift; [exact Hmin|].
  apply returns_bind. eapply returns_mono.
  { apply (choice_returns
             (filter (λ item, Qeq_bool item.2 m = true) candidates)).
    apply list_elem_of_fmap in Hm as (item & -> & Hitem).
    intros Hfil. assert (item ∈ @nil (Z * Z * Q)) as Hin; [|by inversion Hin].
    rewrite <- Hfil. apply list_elem_of_filter. split; [|done].
    apply Qeq_bool_refl. }
  intros [[x y] e] s1 [_ Hitem]%list_elem_of_filter.
  rewrite Forall_forall in Hcands.
  destruct (Hcands _ Hitem) as ([Hx Hy] & a & Ha & Hopen).
  cbn [fst snd] in *.
  pose proof (grid_ok_cell_at _ _ _ Hok Ha) as [Hne Hsub].
  apply returns_bind. eapply returns_lift.
  { by apply (grid_get_cell_at g x y a); [lia..|]. }
  destruct (weighted_items tile_weights a Hw Hsub) as (items & Hitems & Hnames).
  apply returns_bind. eapply returns_lift; [exact Hitems|].
  destruct (weighted_choice_elem items s1) as (chosen & Hchoice & Hchosen).
  { intros ->. simpl in Hnames. apply (f_equal length) in Hnames.
    rewrite length_set_iter in Hnames. simpl in Hnames. lia. }
  rewrite Hnames in Hchosen. apply elem_of_set_iter in Hchosen.
  apply returns_bind. eapply returns_eq; [exact Hchoice|].
  apply returns_bind. eapply returns_lift.
  { by apply (grid_set_update g x y a); [lia..|]. }
  set (g1 := grid_update g (x, y) {[chosen]}).
  assert (cell_ok {[chosen]}) as Hcok by (split; set_solver).
  assert (grid_le g1 g) as Hle1.
  { eapply grid_le_update; [done|]. set_solver. }
  destruct (propagate_inv width height (S (grid_card g1)) g1 [(x, y)]
              (g1 :: log)) as (g2 & log2 & Hprop & Hinv2 & Hle2 & Hsuf2).
  { split; [by apply grid_update_shape|]. cbn [fst snd].
    split; [by apply grid_ok_update|].
    split; [by apply Forall_singleton|].
    split; [|done]. eapply history_ok_push; [done..| |done].
    by apply grid_ok_update. }
  { simpl. lia. }
  apply returns_bind. eapply returns_lift; [exact Hprop|].
  apply returns_ret. split; [done|]. split; [by eapply grid_le_trans|].
  split; [|split].
  - etrans; [|exact Hsuf2]. by apply suffix_cons_r.
  - eapply Nat.le_lt_trans; [|by eapply (open_cells_collapse g (x, y) a)].
    apply grid_le_sum; [apply subseteq_open_cell|done].
  - exists (x, y), a, chosen. split; [by split|].
    split; [done|]. split; [done|]. split; [done|]. exact Hprop.
Qed.

End MainLoop.

Lemma sum_list_with_bound {B} (f : B → nat) (l : list B) (k : nat) :
  Forall (λ x, (f x ≤ k)%nat) l → (sum_list_with f l ≤ length l * k)%nat.
Proof. induction 1; simpl; lia. Qed.

Lemma open_cells_bound width height (g : grid) :
  grid_shape width height g →
  (open_cells g ≤ Z.to_nat width * Z.to_nat height)%nat.
Proof.
  intros [Hh Hw]. unfold open_cells, grid_sum.
  rewrite Nat.mul_comm, <- Hh. apply sum_list_with_bound.
  eapply Forall_impl; [exact Hw|]. intros row Hrow. simpl in Hrow.
  rewrite <- Hrow, <- (Nat.mul_1_r (length row)).
  apply sum_list_with_bound, Forall_true. intros a. unfold open_cell.
  destruct (1 <? size a)%nat; lia.
Qed.

Lemma initial_grid_shape width height :
  grid_shape width height (initial_grid width height).
Proof.
  unfold initial_grid. split; [by rewrite length_replicate|].
  apply Forall_replicate. by rewrite length_replicate.
Qed.

Lemma vocabulary_ok : cell_ok vocabulary.
Proof.
  split; [|done]. intros Hemp.
  assert ("ocean" ∈ vocabulary) as Hin by (apply elem_of_vocabulary; left).
  rewrite Hemp in Hin. by apply elem_of_empty in Hin.
Qed.

Lemma initial_grid_ok width height : grid_ok (initial_grid width height).
Proof. do 2 apply Forall_replicate. apply vocabulary_ok. Qed.

Section Solved.
Context `{RS : RandomSource} `{ML : MathLib} `{SO : SetOrder}.
Implicit Types (g : grid) (c : coord) (tile_weights : gmap string Q)
  (log : list (list (list (gset string)))).

Lemma wfc_loop_returns tile_weights width height fuel g rounds log s :
  weights_ok tile_weights → solver_inv width height (g, [], log) →
  (open_cells g < fuel)%nat →
  returns (wfc_loop fuel tile_weights width height g rounds log) s (λ r _,
    solver_inv width height (r.1.1, [], r.2) ∧
    all_collapsed width height r.1.1 ∧ grid_le r.1.1 g ∧
    log `suffix_of` r.2 ∧ (r.1.2 ≤ rounds + open_cells g)%nat).
Proof.
  intros Hw. revert g rounds log s.
  induction fuel as [|fuel IH]; intros g rounds log s Hinv Hfuel; [lia|].
  cbn [wfc_loop]. apply returns_bind. eapply returns_mono.
  { by apply wfc_iteration_returns. }
  intros [[g' log']|] s' Hr.
  - destruct Hr as (Hinv' & Hle & Hsuf & Hopen & _).
    eapply returns_mono; [apply (IH g' (S rounds) log' s' Hinv'); lia|].
    intros [[g2 rounds2] log2] s2 (Hinv2 & Hcol & Hle2 & Hsuf2 & Hrounds).
    cbn [fst snd] in *. split; [done|]. split; [done|].
    split; [by eapply grid_le_trans|]. split; [by etrans|lia].
  - apply returns_ret. cbn [fst snd]. split; [done|]. split; [done|].
    split; [apply grid_le_refl|]. split; [done|lia].
Qed.

Lemma first_of_elem (cell : gset string) :
  cell ≠ ∅ → ∃ name, first_of cell = Ok name ∧ name ∈ cell.
Proof.
  intros Hne. unfold first_of.
  destruct (set_iter cell) as [|name names] eqn:Hiter.
  - destruct Hne. apply leibniz_equiv, size_empty_iff.
    rewrite <- length_set_iter. by rewrite Hiter.
  - exists name. split; [done|]. apply elem_of_set_iter. rewrite Hiter. left.
Qed.

Lemma read_tiles g :
  grid_ok g →
  ∃ tiles, comprehension (comprehension first_of) g = Ok tiles ∧
           Forall2 (Forall2 (λ cell name, name ∈ cell)) g tiles.
Proof.
  intros Hok. apply comprehension_Forall2. intros row Hrow.
  apply comprehension_Forall2. intros cell Hcell. apply first_of_elem.
  unfold grid_ok in Hok. rewrite Forall_forall in Hok.
  specialize (Hok _ Hrow). rewrite Forall_forall in Hok.
  by apply Hok.
Qed.

Lemma initial_tile_weights_ok profiles s :
  profiles ≠ [] →
  returns (_initial_tile_weights profiles) s (λ weights _, weights_ok weights).
Proof.
  intros Hne.
  destruct (initial_tile_weights_loop profiles TILE_TYPES ∅ s Hne)
    as (batches & s' & _ & Hrun & Hlen & Hall).
  destruct (weights_from_entries batches Hlen Hall) as [_ Hentries].
  eapply returns_eq; [exact Hrun|].
  intros name [[name' tile] [-> Hin]]%elem_of_vocabulary%list_elem_of_fmap.
  apply list_elem_of_lookup in Hin as [i Hi].
  destruct (Hentries i name' tile Hi) as (samples & w & _ & _ & Hw & _ & _ & Hpos).
  by exists w.
Qed.

(** What an instrumented run of the solver returns. *)
Lemma wave_function_collapse_run_returns width height profiles s :
  profiles ≠ [] →
  returns (wave_function_collapse_run width height profiles) s (λ r _,
    ∃ g log,
      solved_history r = reverse log ∧ history_ok log ∧
      head log = Some g ∧ last log = Some (initial_grid width height) ∧
      grid_shape width height g ∧ all_collapsed width height g ∧
      Forall2 (Forall2 (λ cell name, name ∈ cell)) g (solved_tiles r) ∧
      (solved_rounds r ≤ Z.to_nat width * Z.to_nat height)%nat).
Proof.
  intros Hne. unfold wave_function_collapse_run. apply returns_bind.
  eapply returns_mono; [by apply initial_tile_weights_ok|].
  intros tile_weights s1 Hw. apply returns_bind.
  pose proof (initial_grid_shape width height) as Hshape0.
  pose proof (initial_grid_ok width height) as Hok0.
  eapply returns_mono.
  { apply (wfc_loop_returns tile_weights width height
             (S (Z.to_nat width * Z.to_nat height))
             (initial_grid width height) 0 [initial_grid width height] s1 Hw).
    - split; [done|]. split; [done|]. split; [done|].
      split; [by constructor|done].
    - pose proof (open_cells_bound _ _ _ Hshape0). lia. }
  intros [[g rounds] log] s2 (Hinv & Hcol & Hle & Hsuf & Hrounds).
  cbn [fst snd] in *. destruct Hinv as (Hshape & Hok & _ & Hlog & Hhead).
  cbn [fst snd] in *.
  destruct (read_tiles g Hok) as (tiles & Htiles & Hall).
  apply returns_bind. eapply returns_lift; [exact Htiles|].
  apply returns_ret. exists g, log. cbn. split; [done|]. split; [done|].
  split; [done|]. split.
  { destruct Hsuf as [k ->]. apply last_snoc. }
  split; [done|]. split; [done|]. split; [done|].
  pose proof (open_cells_bound _ _ _ Hshape0). lia.
Qed.

End Solved.

(** *** The log of a run *)

Lemma grid_le_shape_r width height (g' g : grid) :
  grid_le g' g → grid_shape width height g' → grid_shape width height g.
Proof.
  unfold grid_le. intros Hle [Hh Hw]. split.
  - by rewrite <- (Forall2_length _ _ _ Hle).
  - apply Forall_lookup. intros i row Hrow.
    destruct (Forall2_lookup_r _ _ _ _ _ Hle Hrow) as (row' & Hrow' & Hrr).
    rewrite <- (Forall2_length _ _ _ Hrr). rewrite Forall_lookup in Hw.
    by eapply Hw.
Qed.

Lemma history_ok_Forall log : history_ok log → Forall grid_ok log.
Proof. induction 1; [by apply Forall_singleton|by constructor]. Qed.

Lemma history_ok_shape width height log g :
  history_ok log → head log = Some g → grid_shape width height g →
  Forall (grid_shape width height) log.
Proof.
  intros Hlog. revert g. induction Hlog as [g0 _|g' g0 log _ Hle _ IH];
    intros g [= ->] Hshape; [by apply Forall_singleton|].
  constructor; [done|]. apply (IH g0); [done|]. by eapply grid_le_shape_r.
Qed.

Lemma history_ok_lookup log j g' g :
  history_ok log → log !! j = Some g' → log !! S j = Some g → grid_le g' g.
Proof.
  intros Hlog. revert j. induction Hlog as [g0 _|g1 g0 log _ Hle _ IH];
    intros [|j]; simpl; try done.
  - by intros [= ->] [= ->].
  - apply IH.
Qed.

Lemma history_ok_reverse_lookup log i g g' :
  history_ok log →
  reverse log !! i = Some g → reverse log !! S i = Some g' → grid_le g' g.
Proof.
  intros Hlog [Hg Hi]%reverse_lookup_Some [Hg' Hi']%reverse_lookup_Some.
  apply (history_ok_lookup log (length log - S (S i))); [done..|].
  by replace (S (length log - S (S i))) with (length log - S i)%nat by lia.
Qed.

Lemma collapsed_cell (a : gset string) name :
  (size a ≤ 1)%nat → name ∈ a → a = {[name]}.
Proof.
  intros Hsize Hname.
  assert (size a ≠ 0)%nat as Hne.
  { intros ?%size_empty_iff%leibniz_equiv. set_solver. }
  destruct (size_1_elem_of a) as [x Hx%leibniz_equiv]; [lia|]. set_solver.
Qed.

Section SolverTheorems.
Context `{RS : RandomSource} `{ML : MathLib} `{SO : SetOrder}.

(** C4: the solver returns, and along the whole run -- [solved_history]
    lists the values of [grid], from the initial grid on, one per
    assignment to a cell -- every grid keeps its [height] rows of [width]
    cells, every cell is a non-empty subset of the tile vocabulary, and
    from one grid to the next every cell is a subset of what it was, so
    its size does not increase.  (The dimensions need not be positive for
    this.) *)
Theorem candidate_sets_valid_and_shrinking (width height : Z)
    (profiles : list PlanetProfile.t) (s : rng) :
  profiles ≠ [] →
  ∃ r s',
    wave_function_collapse_run width height profiles s = Ok (r, s') ∧
    head (solved_history r) = Some (initial_grid width height) ∧
    (∀ g, g ∈ solved_history r →
       grid_shape width height g ∧
       ∀ c, in_grid width height c →
            ∃ a, cell_at g c = Some a ∧ a ≠ ∅ ∧ a ⊆ vocabulary) ∧
    (∀ i g g' c a a',
       solved_history r !! i = Some g →
       solved_history r !! S i = Some g' →
       cell_at g c = Some a → cell_at g' c = Some a' →
       a' ⊆ a ∧ (size a' ≤ size a)%nat).
Proof.
  intros Hne.
  destruct (wave_function_collapse_run_returns width height profiles s Hne)
    as (r & s' & Hrun & g & log & Hhist & Hlog & Hhead & Hlast & Hshape & _).
  exists r, s'. split; [done|]. rewrite Hhist. split.
  { by rewrite head_reverse. }
  split.
  - intros g0 Hg0. rewrite elem_of_reverse in Hg0.
    pose proof (history_ok_shape width height log g Hlog Hhead Hshape) as Hsh.
    pose proof (history_ok_Forall log Hlog) as Hoks.
    rewrite Forall_forall in Hsh, Hoks.
    split; [by apply Hsh|]. intros c Hc.
    destruct (cell_at_in_grid width height g0 c (Hsh _ Hg0) Hc) as [a Ha].
    exists a. split; [done|]. by apply (grid_ok_cell_at g0 c a (Hoks _ Hg0)).
  - intros i g0 g1 c a a' Hg0 Hg1 Ha Ha'.
    pose proof (history_ok_reverse_lookup log i g0 g1 Hlog Hg0 Hg1) as Hle.
    destruct (grid_le_cell_at g1 g0 c a' Hle Ha') as (a0 & Ha0 & Hsub).
    simplify_eq. split; [done|]. by apply subseteq_size.
Qed.

(** C5: for positive dimensions the main loop of the solver terminates
    after at most [width * height] rounds that collapse a cell, and the
    solver returns a grid of [height] rows of [width] tile names, each
    the only candidate left in its cell.  Every round makes progress: it
    either finds every cell collapsed and leaves the loop, or it picks a
    cell with more than one candidate, replaces its set by one of its
    candidates and propagates, which leaves strictly fewer uncollapsed
    cells and no cell larger than it was. *)
Theorem solver_terminates_within_cell_count (width height : Z)
    (profiles : list PlanetProfile.t) (s : rng) :
  0 < width → 0 < height → profiles ≠ [] →
  (∃ r s',
     wave_function_collapse_run width height profiles s = Ok (r, s') ∧
     wave_function_collapse width height profiles s
       = Ok (solved_tiles r, s') ∧
     Z.of_nat (solved_rounds r) ≤ width * height ∧
     ∃ g, last (solved_history r) = Some g ∧
          ∀ c, in_grid width height c →
               ∃ name, cell_at (solved_tiles r) c = Some name ∧
                       cell_at g c = Some {[name]}) ∧
  (∀ tile_weights g log s0,
     weights_ok tile_weights → solver_inv width height (g, [], log) →
     ∃ r s1, wfc_iteration tile_weights width height g log s0 = Ok (r, s1) ∧
       match r with
       | None => all_collapsed width height g
       | Some (g', log') =>
           (open_cells g' < open_cells g)%nat ∧ grid_le g' g ∧
           ∃ c a chosen,
             in_grid width height c ∧ cell_at g c = Some a ∧
             (1 < size a)%nat ∧ chosen ∈ a ∧
             let g1 := grid_update g c {[chosen]} in
             propagate (S (grid_card g1)) width height (g1, [c], g1 :: log)
               = Ok (g', log')
       end).
Proof.
  intros Hwidth Hheight Hne. split.
  - destruct (wave_function_collapse_run_returns width height profiles s Hne)
      as (r & s' & Hrun & g & log & Hhist & Hlog & Hhead & Hlast & Hshape
          & Hcol & Htiles & Hrounds).
    exists r, s'. split; [done|]. split.
    { unfold wave_function_collapse. by rewrite (bind_Ok _ _ _ _ _ Hrun). }
    split; [nia|]. exists g. rewrite Hhist, last_reverse. split; [done|].
    intros c Hc.
    destruct (cell_at_in_grid width height g c Hshape Hc) as [a Ha].
    specialize (Hcol c a Hc Ha). unfold cell_at in Ha |- *.
    destruct (g !! Z.to_nat c.2) as [row|] eqn:Hrow; [|done]. simpl in Ha.
    destruct (Forall2_lookup_l _ _ _ _ _ Htiles Hrow) as (names & -> & Hrow').
    destruct (Forall2_lookup_l _ _ _ _ _ Hrow' Ha) as (name & Hn & Hname).
    exists name. simpl. split; [done|]. rewrite Ha. f_equal.
    by apply collapsed_cell.
  - intros tile_weights g log s0 Hw Hinv.
    destruct (wfc_iteration_returns tile_weights width height g log s0 Hw Hinv)
      as (r & s1 & Hit & Hr).
    exists r, s1. split; [done|]. destruct r as [[g' log']|]; [|done].
    by destruct Hr as (_ & ? & _ & ? & ?).
Qed.

End SolverTheorems.

(** *** Heightfield *)

Lemma clamp_in_range (range : Q * Q) (sample : Q) :
  (range.1 <= range.2)%Q →
  (range.1 <= clamp range sample ∧ clamp range sample <= range.2)%Q.
Proof.
  destruct range as [lo hi]. simpl. intros Hle. unfold clamp, py_max, py_min.
  simpl. destruct (Qltb hi sample) eqn:H1.
  - destruct (Qltb hi lo) eqn:H2.
    + apply Qltb_lt in H2. by apply Qlt_not_le in H2.
    + split; [done|apply Qle_refl].
  - apply Qltb_ge in H1. destruct (Qltb sample lo) eqn:H2.
    + split; [apply Qle_refl|done].
    + apply Qltb_ge in H2. done.
Qed.

Lemma tile_ranges_ordered :
  Forall (λ kt, ((TileType.height_range kt.2).1
                 <= (TileType.height_range kt.2).2)%Q) TILE_TYPES.
Proof. repeat constructor; by apply Qle_bool_iff. Qed.

Lemma height_spec_app tiles samples more width c e :
  height_spec tiles samples width c e →
  height_spec tiles (samples ++ more) width c e.
Proof.
  intros (name & tile & sample & ? & ? & Hs & ?). exists name, tile, sample.
  repeat split; try done. by apply lookup_app_l_Some.
Qed.

Section Heightfield.
Context `{RS : RandomSource}.

Lemma repeat_draw_snoc {A} (m : M A) (n : nat) s l s1 a s2 :
  repeat_draw n m s = Ok (l, s1) → m s1 = Ok (a, s2) →
  repeat_draw (S n) m s = Ok (l ++ [a], s2).
Proof.
  revert s l. induction n as [|n IH]; intros s l Hl Ha.
  - injection Hl as <- <-. rewrite repeat_draw_S, (bind_Ok _ _ _ _ _ Ha).
    done.
  - rewrite repeat_draw_S in Hl. unfold mbind at 1, M_bind in Hl.
    destruct (m s) as [[a0 s0]| |] eqn:Hm; try done.
    unfold mbind at 1, M_bind in Hl.
    destruct (repeat_draw n m s0) as [[l0 s0']| |] eqn:Hrest; try done.
    injection Hl as <- <-.
    rewrite repeat_draw_S, (bind_Ok _ _ _ _ _ Hm).
    by rewrite (bind_Ok _ _ _ _ _ (IH _ _ Hrest Ha)).
Qed.

End Heightfield.

Section HeightfieldRange.
Context `{RS : RandomSource}.

Lemma heightfield_row width height tiles profiles y heights samples s0 s :
  grid_shape width height tiles →
  Forall (Forall (λ name, name ∈ vocabulary)) tiles → profiles ≠ [] →
  0 ≤ width → 0 ≤ y < height →
  grid_shape width height heights →
  length samples = Z.to_nat (y * width) →
  repeat_draw (length samples) (_planet_sample profiles) s0
    = Ok (samples, s) →
  filled_to tiles samples width height 0 y heights →
  returns
    (for_eachM (λ x heights,
         name ← lift (grid_get tiles x y);
         tile ← lift (dict_get TILE_TYPES name);
         sample ← _planet_sample profiles;
         let '(min_h, max_h) := TileType.height_range tile in
         lift (grid_set heights x y (py_max (py_min sample max_h) min_h)))
       (py_range width) heights) s
    (λ heights' s',
       grid_shape width height heights' ∧
       ∃ samples',
         length samples' = Z.to_nat ((y + 1) * width) ∧
         repeat_draw (length samples') (_planet_sample profiles) s0
           = Ok (samples', s') ∧
         filled_to tiles samples' width height 0 (y + 1) heights').
Proof.
  intros Htiles Hvoc Hne Hwidth Hy Hshape Hlen Hdraw Hfilled.
  eapply returns_mono.
  { apply (for_eachM_inv _ _
      (λ i heights' s',
         grid_shape width height heights' ∧
         ∃ more,
           length more = i ∧
           repeat_draw (length samples + i) (_planet_sample profiles) s0
             = Ok (samples ++ more, s') ∧
           filled_to tiles (samples ++ more) width height (Z.of_nat i) y
             heights')).
    - split; [done|]. exists []. rewrite Nat.add_0_r, app_nil_r.
      split; [done|]. split; [done|]. exact Hfilled.
    - intros i x heights1 s1 [-> Hi]%py_range_lookup
        (Hshape1 & more & Hmore & Hdraw1 & Hfilled1).
      assert (in_grid width height (Z.of_nat i, y)) as Hin
        by (unfold in_grid; simpl; lia).
      destruct (cell_at_in_grid _ _ _ _ Htiles Hin) as [name Hname].
      destruct (cell_at_in_grid _ _ _ _ Hshape1 Hin) as [old Hold].
      assert (name ∈ vocabulary) as Hnv.
      { unfold cell_at in Hname. simpl in Hname.
        destruct (tiles !! Z.to_nat y) as [row|] eqn:Hrow; [|done].
        rewrite Forall_lookup in Hvoc. specialize (Hvoc _ _ Hrow).
        rewrite Forall_lookup in Hvoc. by eapply Hvoc. }
      apply elem_of_vocabulary, dict_get_keys in Hnv as [tile Htile].
      apply returns_bind. eapply returns_lift.
      { by apply (grid_get_cell_at tiles (Z.of_nat i) y name); [lia..|]. }
      apply returns_bind. eapply returns_lift; [exact Htile|].
      apply returns_bind.
      destruct (planet_sample_returns profiles s1 Hne)
        as (sample & s2 & Hsample & _).
      eapply returns_eq; [exact Hsample|].
      destruct (TileType.height_range tile) as [min_h max_h] eqn:Hrange.
      eapply returns_lift.
      { by apply (grid_set_update heights1 (Z.of_nat i) y old); [lia..|]. }
      split; [by apply grid_update_shape|].
      exists (more ++ [sample]). split; [rewrite length_app; simpl; lia|].
      split.
      { rewrite Nat.add_succ_r, app_assoc.
        by apply (repeat_draw_snoc _ _ _ _ s1). }
      intros c Hc Hbefore.
      rewrite cell_at_update by (destruct Hc; simpl; lia).
      destruct (decide (c = (Z.of_nat i, y))) as [->|Hnc].
      + rewrite Hold. simpl. eexists. split; [done|].
        exists name, tile, sample. split; [done|]. split; [done|].
        split; [|by rewrite Hrange]. simpl.
        rewrite app_assoc.
        replace (Z.to_nat (y * width + Z.of_nat i))
          with (length (samples ++ more) + 0)%nat
          by (rewrite length_app; nia).
        by rewrite lookup_app_r, Nat.add_comm, Nat.add_sub by lia.
      + destruct (Hfilled1 c Hc) as (e & He & Hspec).
        { destruct c as [cx cy]. simpl in *.
          destruct Hbefore as [?|[-> Hcx]]; [by left|]. right.
          split; [done|]. assert (cx ≠ Z.of_nat i) by congruence. lia. }
        exists e. split; [done|]. rewrite app_assoc.
        by apply height_spec_app. }
  intros heights' s' (Hshape' & more & Hmore & Hdraw' & Hfilled').
  rewrite py_range_length in Hmore, Hdraw', Hfilled'.
  split; [done|]. exists (samples ++ more).
  assert (length (samples ++ more) = Z.to_nat ((y + 1) * width)) as Hlen'
    by (rewrite length_app; nia).
  split; [done|]. split; [by rewrite length_app, Hmore|].
  intros c Hc Hbefore. apply Hfilled'; [done|]. destruct Hc as [Hcx Hcy].
  destruct Hbefore as [?|[? ?]]; [|lia].
  destruct (decide (c.2 = y)); [right|left]; lia.
Qed.

End HeightfieldRange.

Section HeightfieldTheorem.
Context `{RS : RandomSource}.

Lemma generate_heightfield_filled (width height : Z)
    (tiles : list (list string)) (profiles : list PlanetProfile.t)
    (s : rng) :
  0 ≤ width → 0 < height → grid_shape width height tiles →
  Forall (Forall (λ name, name ∈ vocabulary)) tiles → profiles ≠ [] →
  returns (generate_heightfield tiles profiles) s
    (λ heights s',
       grid_shape width height heights ∧
       ∃ samples,
         length samples = Z.to_nat (height * width) ∧
         repeat_draw (length samples) (_planet_sample profiles) s
           = Ok (samples, s') ∧
         filled_to tiles samples width height 0 height heights).
Proof.
  intros Hwidth Hheight Htiles Hvoc Hne.
  pose proof Htiles as [Hrows Hcols].
  destruct (lookup_lt_is_Some_2 tiles 0) as [row0 Hrow0]; [lia|].
  assert (length row0 = Z.to_nat width) as Hlen0.
  { rewrite Forall_lookup in Hcols. by apply (Hcols _ _ Hrow0). }
  assert (Z.of_nat (length tiles) = height) as Hh by lia.
  assert (Z.of_nat (length row0) = width) as Hw by lia.
  unfold generate_heightfield. apply returns_bind.
  eapply returns_lift; [by apply (py_index_nat tiles 0)|].
  rewrite Hh, Hw. eapply returns_mono.
  { apply (for_eachM_inv _ _
      (λ j heights' s',
         grid_shape width height heights' ∧
         ∃ samples,
           length samples = Z.to_nat (Z.of_nat j * width) ∧
           repeat_draw (length samples) (_planet_sample profiles) s
             = Ok (samples, s') ∧
           filled_to tiles samples width height 0 (Z.of_nat j) heights')).
    - split.
      { split; [by rewrite length_replicate|].
        apply Forall_replicate. by rewrite length_replicate. }
      exists []. split; [done|]. split; [done|].
      intros c [Hcx Hcy] Hbefore. lia.
    - intros j y heights1 s1 [-> Hj]%py_range_lookup
        (Hshape1 & samples & Hlen & Hdraw & Hfilled).
      eapply returns_mono.
      { by apply (heightfield_row width height tiles profiles
                    (Z.of_nat j) heights1 samples s s1); [..|lia| | | |]. }
      intros heights2 s2 (Hshape2 & samples2 & Hlen2 & Hdraw2 & Hfilled2).
      split; [done|]. exists samples2.
      replace (Z.of_nat (S j)) with (Z.of_nat j + 1) by lia. done. }
  intros heights' s' (Hshape' & samples & Hlen & Hdraw & Hfilled).
  rewrite py_range_length, Z2Nat.id in Hlen, Hfilled by lia.
  split; [done|]. by exists samples.
Qed.

(** C8: on a grid of tile names of [height] rows and [width] columns,
    [generate_heightfield] returns a grid of the same shape; it draws
    exactly one planet sample per cell, in row-major order, and the
    elevation of a cell is that sample clamped to the elevation range of
    the cell's tile ([max(min(sample, max_h), min_h)]), so it lies in the
    range, bounds included. *)
Theorem heights_within_tile_range (width height : Z)
    (tiles : list (list string)) (profiles : list PlanetProfile.t)
    (s : rng) :
  0 ≤ width → 0 < height → grid_shape width height tiles →
  Forall (Forall (λ name, name ∈ vocabulary)) tiles → profiles ≠ [] →
  ∃ heights samples s',
    generate_heightfield tiles profiles s = Ok (heights, s') ∧
    repeat_draw (Z.to_nat (height * width)) (_planet_sample profiles) s
      = Ok (samples, s') ∧
    grid_shape width height heights ∧
    ∀ c name, in_grid width height c → cell_at tiles c = Some name →
      ∃ tile sample elevation,
        dict_get TILE_TYPES name = Ok tile ∧
        samples !! Z.to_nat (c.2 * width + c.1) = Some sample ∧
        cell_at heights c = Some elevation ∧
        elevation = py_max (py_min sample (TileType.height_range tile).2)
                      (TileType.height_range tile).1 ∧
        ((TileType.height_range tile).1 <= elevation)%Q ∧
        (elevation <= (TileType.height_range tile).2)%Q.
Proof.
  intros Hwidth Hheight Htiles Hvoc Hne.
  destruct (generate_heightfield_filled width height tiles profiles s)
    as (heights & s' & Hrun & Hshape & samples & Hlen & Hdraw & Hfilled);
    [done..|].
  exists heights, samples, s'. split; [done|].
  split; [by rewrite <- Hlen|]. split; [done|].
  intros c name Hc Hname.
  destruct (Hfilled c Hc) as (e & He & name' & tile & sample & Hname' & Htile
                              & Hsample & ->).
  { left. apply Hc. }
  rewrite Hname in Hname'. injection Hname' as <-.
  eexists tile, sample, _. split; [done|]. split; [done|].
  split; [done|]. split; [done|]. apply clamp_in_range.
  pose proof tile_ranges_ordered as Hord. rewrite Forall_forall in Hord.
  by apply (Hord (name, tile)), dict_get_elem.
Qed.

End HeightfieldTheorem.

(** *** Distance to the ocean *)

Lemma elem_of_square_offsets (radius : Z) (d : coord) :
  d ∈ square_offsets radius ↔
  - radius ≤ d.1 ≤ radius ∧ - radius ≤ d.2 ≤ radius.
Proof.
  unfold square_offsets, py_range2. rewrite list_elem_of_bind. split.
  - intros (dx & (dy & ->%list_elem_of_singleton & Hdy%elem_of_seqZ)
              %list_elem_of_bind & Hdx%elem_of_seqZ). simpl. lia.
  - intros [Hdx Hdy]. destruct d as [dx dy]. simpl in *. exists dx. split.
    + apply list_elem_of_bind. exists dy.
      split; [by apply list_elem_of_singleton|]. apply elem_of_seqZ. lia.
    + apply elem_of_seqZ. lia.
Qed.

Lemma elem_of_scan_offsets (max_radius : Z) (d : coord) :
  d ∈ scan_offsets max_radius ↔ 1 ≤ max_radius ∧ chebyshev d ≤ max_radius.
Proof.
  unfold scan_offsets, py_range2, chebyshev. rewrite list_elem_of_bind. split.
  - intros (r & Hd%elem_of_square_offsets & Hr%elem_of_seqZ). lia.
  - intros [HR Hd]. exists (Z.max 1 (Z.max (Z.abs d.1) (Z.abs d.2))). split.
    + apply elem_of_square_offsets. lia.
    + apply elem_of_seqZ. lia.
Qed.

Section Distance.
Context `{ML : MathLib}.

Lemma ocean_at_spec width height tiles x y d :
  0 ≤ width → 0 < height → grid_shape width height tiles →
  ocean_at tiles x y d
    = Ok (bool_decide (ocean_offset width height tiles x y d)).
Proof.
  intros Hwidth Hheight Hshape. pose proof Hshape as [Hrows Hcols].
  destruct (lookup_lt_is_Some_2 tiles 0) as [row0 Hrow0]; [lia|].
  assert (length row0 = Z.to_nat width) as Hlen0.
  { rewrite Forall_lookup in Hcols. by apply (Hcols _ _ Hrow0). }
  unfold ocean_at, ocean_offset, in_grid. simpl.
  destruct (Z.leb_spec 0 (x + d.1)) as [Hx|Hx]; cycle 1.
  { rewrite bool_decide_eq_false_2; [done|]. lia. }
  rewrite (py_index_nat tiles 0 row0 Hrow0 : py_index tiles 0 = Ok row0).
  cbn [mbind outcome_bind].
  destruct ((x + d.1 <? Z.of_nat (length row0)) && (0 <=? y + d.2)
            && (y + d.2 <? Z.of_nat (length tiles))) eqn:Hin; cycle 1.
  { rewrite bool_decide_eq_false_2; [done|]. intros [Hc _].
    apply not_true_iff_false in Hin. apply Hin.
    rewrite !andb_true_iff. lia. }
  rewrite !andb_true_iff in Hin.
  assert (in_grid width height (x + d.1, y + d.2)) as Hgrid
    by (unfold in_grid; simpl; lia).
  destruct (cell_at_in_grid _ _ _ _ Hshape Hgrid) as [t Ht].
  rewrite (proj2 (grid_get_cell_at tiles (x + d.1) (y + d.2) t
                    ltac:(lia) ltac:(lia)) Ht).
  cbn [mbind outcome_bind]. f_equal.
  destruct (String.eqb_spec t "ocean") as [->|Hne].
  - by rewrite bool_decide_eq_true_2.
  - rewrite bool_decide_eq_false_2; [done|]. intros [_ Heq]. congruence.
Qed.

Lemma first_ocean_spec width height tiles x y offsets :
  0 ≤ width → 0 < height → grid_shape width height tiles →
  ∃ found,
    first_ocean tiles x y offsets = Ok found ∧
    match found with
    | None => Forall (λ d, ¬ ocean_offset width height tiles x y d) offsets
    | Some d =>
        ∃ before after,
          offsets = before ++ d :: after ∧
          ocean_offset width height tiles x y d ∧
          Forall (λ d', ¬ ocean_offset width height tiles x y d') before
    end.
Proof.
  intros Hwidth Hheight Hshape.
  induction offsets as [|d offsets (found & Hfound & Hspec)].
  - by exists None.
  - cbn [first_ocean]. rewrite (ocean_at_spec width height) by done.
    cbn [mbind outcome_bind].
    destruct (decide (ocean_offset width height tiles x y d)) as [Hd|Hd].
    + rewrite bool_decide_eq_true_2 by done. exists (Some d).
      split; [done|]. by exists [], offsets.
    + rewrite bool_decide_eq_false_2 by done. exists found.
      split; [done|]. destruct found as [d'|]; [|by constructor].
      destruct Hspec as (before & after & -> & Hd' & Hbefore).
      exists (d :: before), after. split; [done|]. split; [done|].
      by constructor.
Qed.

End Distance.

Section DistanceTheorem.
Context `{ML : MathLib}.

(** C9: for a cell [(x, y)] of a rectangular grid of tile names,
    [_distance_to_ocean] returns 0 when the cell is an ocean; 10 when it
    is not and no ocean lies within Chebyshev distance 10; and otherwise
    [hypot dx dy] for the first offset [(dx, dy)] with an ocean in the
    scan order -- the squares of radius 1, 2, ..., 10 one after the other,
    each square scanned column by column ([dx] outermost).  The offset
    found first need not be the nearest ocean: on the grid with oceans in
    the top row, the cell [(1, 1)] gets [hypot (-1) (-1)] although the
    ocean straight above it is at distance 1. *)
Theorem distance_to_ocean_first_in_scan (width height : Z)
    (tiles : list (list string)) (x y : Z) :
  grid_shape width height tiles → in_grid width height (x, y) →
  (∃ t, cell_at tiles (x, y) = Some t ∧
     (t = "ocean" → _distance_to_ocean tiles x y = Ok 0%Q) ∧
     ((∀ d, chebyshev d ≤ 10 → ¬ ocean_offset width height tiles x y d) →
      _distance_to_ocean tiles x y = Ok 10%Q) ∧
     (t ≠ "ocean" →
      (∃ d, chebyshev d ≤ 10 ∧ ocean_offset width height tiles x y d) →
      ∃ before d after,
        scan_offsets 10 = before ++ d :: after ∧
        ocean_offset width height tiles x y d ∧
        Forall (λ d', ¬ ocean_offset width height tiles x y d') before ∧
        _distance_to_ocean tiles x y = Ok (math_hypot d.1 d.2))) ∧
  scan_offsets 10 = mjoin (square_offsets <$> seqZ 1 10) ∧
  square_offsets 1 = [(-1, -1); (-1, 0); (-1, 1); (0, -1); (0, 0); (0, 1);
                      (1, -1); (1, 0); (1, 1)] ∧
  (let tiles0 := [["ocean"; "ocean"]; ["shore"; "shore"]] in
   _distance_to_ocean tiles0 1 1 = Ok (math_hypot (-1) (-1)) ∧
   ocean_offset 2 2 tiles0 1 1 (0, -1) ∧
   0 * 0 + (-1) * (-1) < (-1) * (-1) + (-1) * (-1)).
Proof.
  intros Hshape Hin. split; [|split; [done|split; [done|]]]; cycle 1.
  { cbn zeta. split; [done|]. split; [|done]. split; [|done].
    unfold in_grid. simpl. lia. }
  pose proof Hin as [[Hx0 Hx1] [Hy0 Hy1]]. simpl in *.
  destruct (cell_at_in_grid _ _ _ _ Hshape Hin) as [t Ht].
  exists t. split; [done|]. unfold _distance_to_ocean.
  rewrite (proj2 (grid_get_cell_at tiles x y t Hx0 Hy0) Ht).
  cbn [mbind outcome_bind].
  destruct (first_ocean_spec width height tiles x y (scan_offsets 10))
    as (found & Hfound & Hspec); [lia..|done|].
  split; [|split].
  - intros ->. done.
  - intros Hnone.
    assert (t ≠ "ocean") as Hne.
    { intros ->. apply (Hnone (0, 0)); [done|]. unfold ocean_offset. simpl.
      by rewrite !Z.add_0_r. }
    apply String.eqb_neq in Hne. rewrite Hne, Hfound.
    destruct found as [d|]; [|done].
    destruct Hspec as (before & after & Hscan & Hd & _).
    destruct (Hnone d); [|done].
    apply (elem_of_scan_offsets 10 d). rewrite Hscan.
    apply elem_of_app. right. left.
  - intros Hne [d0 [Hcheb Hd0]]. apply String.eqb_neq in Hne.
    rewrite Hne, Hfound. destruct found as [[dx dy]|].
    + destruct Hspec as (before & after & Hscan & Hd & Hbefore).
      by exists before, (dx, dy), after.
    + rewrite Forall_forall in Hspec. destruct (Hspec d0); [|done].
      apply elem_of_scan_offsets. lia.
Qed.

End DistanceTheorem.

(** *** The whole run *)

Lemma grid_shape_clip {A} (width height : Z) (g : list (list A)) :
  grid_shape width height g ↔ grid_shape (Z.max 0 width) height g.
Proof. unfold grid_shape. by replace (Z.to_nat (Z.max 0 width))
         with (Z.to_nat width) by lia. Qed.

Section Pipeline.
Context `{RS : RandomSource} `{ML : MathLib} `{SO : SetOrder}.

Lemma bind_Raise {A B} (m : M A) (f : A → M B) s e :
  m s = Raise e → (m ≫= f) s = Raise e.
Proof. intros Hm. unfold mbind, M_bind. by rewrite Hm. Qed.

(** The solver returns a grid of tile names of the requested shape. *)
Lemma wave_function_collapse_returns width height profiles s :
  profiles ≠ [] →
  returns (wave_function_collapse width height profiles) s (λ tiles _,
    grid_shape width height tiles ∧
    Forall (Forall (λ name, name ∈ vocabulary)) tiles).
Proof.
  intros Hne. unfold wave_function_collapse. apply returns_bind.
  eapply returns_mono; [by apply wave_function_collapse_run_returns|].
  intros r s' (g & log & _ & Hlog & Hhead & _ & Hshape & _ & Htiles & _).
  apply returns_ret.
  assert (grid_ok g) as Hok.
  { pose proof (history_ok_Forall log Hlog) as Hall.
    rewrite Forall_forall in Hall. apply Hall.
    destruct log; simplify_eq/=. left. }
  destruct Hshape as [Hrows Hcols]. split; [split|].
  - by rewrite <- (Forall2_length _ _ _ Htiles).
  - apply Forall_lookup. intros i names Hnames.
    destruct (Forall2_lookup_r _ _ _ _ _ Htiles Hnames) as (row & Hrow & Hrr).
    rewrite <- (Forall2_length _ _ _ Hrr). rewrite Forall_lookup in Hcols.
    by apply (Hcols _ _ Hrow).
  - apply Forall_lookup. intros i names Hnames.
    destruct (Forall2_lookup_r _ _ _ _ _ Htiles Hnames) as (row & Hrow & Hrr).
    apply Forall_lookup. intros j name Hname.
    destruct (Forall2_lookup_r _ _ _ _ _ Hrr Hname) as (a & Ha & Hin).
    unfold grid_ok in Hok. rewrite Forall_lookup in Hok.
    specialize (Hok _ _ Hrow). rewrite Forall_lookup in Hok.
    destruct (Hok _ _ Ha) as [_ Hsub]. by apply Hsub.
Qed.

(** With a single row, [y / (height - 1)] divides by zero. *)
Lemma assign_biomes_single_row (row : list string)
    (heights : list (list Q)) s :
  assign_biomes [row] heights s = Raise ZeroDivisionError.
Proof. reflexivity. Qed.

Lemma main_single_row (args : Args) :
  height args = 1 → main args = Raise ZeroDivisionError.
Proof.
  intros Hheight. unfold main, main_from.
  destruct (wave_function_collapse_returns (width args) (height args)
              PLANET_PROFILES (Random (seed args)))
    as (tiles & s1 & Hwfc & Hshape & Hvoc); [done|].
  rewrite (bind_Ok _ _ _ _ _ Hwfc).
  destruct (generate_heightfield_filled (Z.max 0 (width args)) (height args)
              tiles PLANET_PROFILES s1)
    as (heights & s2 & Hgen & _);
    [lia|lia|exact (proj1 (grid_shape_clip _ _ _) Hshape)|done..|].
  rewrite (bind_Ok _ _ _ _ _ Hgen).
  destruct Hshape as [Hrows _]. rewrite Hheight in Hrows.
  destruct tiles as [|row [|]]; [done| |done].
  by rewrite (bind_Raise _ _ _ _ (assign_biomes_single_row row heights s2)).
Qed.

End Pipeline.

Lemma vocabulary_size : size vocabulary = 6%nat.
Proof. compute_done. Qed.

Section SingleCell.
Context `{RS : RandomSource} `{ML : MathLib} `{SO : SetOrder}.

(** On a 1x1 grid the popped cell has no neighbour to visit. *)
Lemma propagate_single_cell fuel (g : grid)
    (log : list (list (list (gset string)))) (current : gset string) :
  cell_at g (0, 0) = Some current → current ⊆ vocabulary →
  propagate (S fuel) 1 1 (g, [(0, 0)], log) = Ok (g, log).
Proof.
  intros Hcur Hsub. cbn [propagate fst snd]. unfold propagate_step.
  cbn [fst snd].
  rewrite (proj2 (grid_get_cell_at g 0 0 current ltac:(done) ltac:(done)) Hcur).
  cbn [mbind outcome_bind]. rewrite (allowed_union_set _ Hsub).
  cbn [mbind outcome_bind].
  change (_neighbors 0 0 1 1) with (@nil (Z * Z)). cbn [for_each].
  cbn [mbind outcome_bind]. by destruct fuel.
Qed.

Lemma in_grid_single (c : coord) : in_grid 1 1 c → c = (0, 0).
Proof. destruct c as [x y]. intros [Hx Hy]. simpl in *. f_equal; lia. Qed.

(** The run of the solver on a 1x1 grid: one round collapses the cell,
    propagation writes nothing, and the next round leaves the loop. *)
Lemma wave_function_collapse_run_single_cell profiles s :
  profiles ≠ [] →
  returns (wave_function_collapse_run 1 1 profiles) s (λ r _,
    ∃ name, name ∈ vocabulary ∧ solved_tiles r = [[name]] ∧
            solved_rounds r = 1%nat ∧
            solved_history r = [[[vocabulary]]; [[{[name]}]]]).
Proof.
  intros Hne. unfold wave_function_collapse_run. apply returns_bind.
  eapply returns_mono; [by apply initial_tile_weights_ok|].
  intros tile_weights s1 Hw. apply returns_bind.
  change (initial_grid 1 1) with [[vocabulary]].
  change (S (Z.to_nat 1 * Z.to_nat 1)) with 2%nat.
  assert (solver_inv 1 1 ([[vocabulary]], [], [[[vocabulary]]])) as Hinv0.
  { split; [apply (initial_grid_shape 1 1)|].
    split; [apply (initial_grid_ok 1 1)|]. split; [done|].
    split; [|done]. constructor. apply (initial_grid_ok 1 1). }
  cbn [wfc_loop]. apply returns_bind. eapply returns_mono.
  { by apply wfc_iteration_returns. }
  intros [[g1 log1]|] s2 Hr1; cycle 1.
  { specialize (Hr1 (0, 0) vocabulary). rewrite vocabulary_size in Hr1.
    assert (6 ≤ 1)%nat; [|lia]. apply Hr1; [|done].
    unfold in_grid. simpl. lia. }
  destruct Hr1 as (Hinv1 & _ & _ & _ & c & a & chosen & ->%in_grid_single
                   & [= <-] & _ & Hchosen & Hprop).
  change (grid_update [[vocabulary]] (0, 0) {[chosen]})
    with [[({[chosen]} : gset string)]] in Hprop.
  cbn zeta in Hprop.
  rewrite (propagate_single_cell _ _ _ {[chosen]}) in Hprop
    by (done || set_solver).
  injection Hprop as <- <-.
  apply returns_bind. eapply returns_mono.
  { by apply wfc_iteration_returns. }
  intros [[g2 log2]|] s3 Hr2.
  { destruct Hr2 as (_ & _ & _ & _ & c & a & chosen' & ->%in_grid_single
                     & [= <-] & Hopen & _).
    rewrite size_singleton in Hopen. lia. }
  apply returns_ret.
  destruct (read_tiles [[({[chosen]} : gset string)]]) as (tiles & Htiles & Hall).
  { by destruct Hinv1 as (_ & ? & _). }
  apply returns_bind. eapply returns_lift; [exact Htiles|].
  apply returns_ret. exists chosen. split; [done|]. cbn.
  split; [|done].
  apply Forall2_cons_inv_l in Hall as (names & rest & Hrow & ->%Forall2_nil_inv_l & ->).
  apply Forall2_cons_inv_l in Hrow as (name & rest & Hname & ->%Forall2_nil_inv_l & ->).
  apply elem_of_singleton in Hname as ->. done.
Qed.

End SingleCell.

Section SingleCellTheorem.
Context `{RS : RandomSource} `{ML : MathLib} `{SO : SetOrder}.

(** C2: the run on a 1x1 grid, for any seed, scale and file names.  The
    solver does what the claim says: one round of its main loop collapses
    the cell and propagation changes nothing (the history holds the
    initial grid and the collapsed one, nothing else).  But the run never
    reaches the exporter: with a single row [assign_biomes] divides by
    [height - 1 = 0] and [main] ends with [ZeroDivisionError].  Called on
    its own with a 1x1 heightfield, [export_obj] does write one vertex and
    no face. *)
Theorem single_cell_run_divides_by_zero (sc : Q) (sd : Z)
    (out meta : string) :
  (∃ r s',
     wave_function_collapse_run 1 1 PLANET_PROFILES (Random sd) = Ok (r, s') ∧
     solved_rounds r = 1%nat ∧
     ∃ name, solved_tiles r = [[name]] ∧
             solved_history r = [[[vocabulary]]; [[{[name]}]]]) ∧
  main {| width := 1; height := 1; scale := sc; seed := sd;
          output := out; metadata := meta |}
    = Raise ZeroDivisionError ∧
  (∀ z, export_obj [[z]] sc
        = Ok [Comment "# Terrain OBJ";
              Vertex (inject_Z 0 * sc) (inject_Z 0 * sc) z]).
Proof.
  split; [|split].
  - destruct (wave_function_collapse_run_single_cell PLANET_PROFILES
                (Random sd)) as (r & s' & Hrun & name & _ & Ht & Hr & Hh);
      [done|].
    exists r, s'. split; [done|]. split; [done|]. by exists name.
  - by apply main_single_row.
  - intros z. reflexivity.
Qed.

End SingleCellTheorem.

(** *** Degenerate dimensions *)

Lemma empty_rows {A} (l : list (list A)) :
  Forall (λ row, length row = 0%nat) l → l = replicate (length l) [].
Proof.
  induction 1 as [|row l Hrow _ IH]; [done|]. simpl.
  apply nil_length_inv in Hrow as ->. by rewrite <- IH.
Qed.

Lemma degenerate_shape {A} (width height : Z) (g : list (list A)) :
  width ≤ 0 ∨ height ≤ 0 → grid_shape width height g →
  g = replicate (Z.to_nat height) [].
Proof.
  intros Hdim [Hrows Hcols]. rewrite <- Hrows. destruct Hdim as [Hw|Hh].
  - apply empty_rows. eapply Forall_impl; [exact Hcols|].
    intros row Hrow. simpl in Hrow. lia.
  - destruct g; [done|]. simpl in Hrows. lia.
Qed.

Section Degenerate.
Context `{RS : RandomSource} `{ML : MathLib} `{SO : SetOrder}.

Lemma for_eachM_skip {A St} (body : A → St → M St) (l : list A) acc s :
  (∀ a, a ∈ l → body a acc s = Ok (acc, s)) →
  for_eachM body l acc s = Ok (acc, s).
Proof.
  induction l as [|a l IH]; intros Hbody; [done|]. cbn [for_eachM].
  rewrite (bind_Ok _ _ _ _ _ (Hbody a ltac:(left))).
  apply IH. intros a' Ha'. apply Hbody. by right.
Qed.

Lemma for_each_skip {A St} (body : A → St → outcome St) (l : list A) acc :
  (∀ a, a ∈ l → body a acc = Ok acc) → for_each body l acc = Ok acc.
Proof.
  induction l as [|a l IH]; intros Hbody; [done|]. cbn [for_each].
  rewrite (Hbody a ltac:(left)). cbn [mbind outcome_bind].
  apply IH. intros a' Ha'. apply Hbody. by right.
Qed.

Lemma wave_function_collapse_degenerate width height profiles s :
  width ≤ 0 ∨ height ≤ 0 → profiles ≠ [] →
  ∃ s', wave_function_collapse width height profiles s
        = Ok (replicate (Z.to_nat height) [], s').
Proof.
  intros Hdim Hne.
  destruct (wave_function_collapse_returns width height profiles s Hne)
    as (tiles & s' & Hrun & Hshape & _).
  exists s'. by rewrite Hrun, (degenerate_shape width height tiles).
Qed.

Lemma generate_heightfield_no_columns (n : nat) profiles s :
  (0 < n)%nat → profiles ≠ [] →
  generate_heightfield (replicate n []) profiles s = Ok (replicate n [], s).
Proof.
  intros Hn Hne. unfold generate_heightfield.
  destruct n as [|n]; [lia|].
  erewrite bind_Ok; [|reflexivity]. rewrite length_replicate.
  change (Z.to_nat (Z.of_nat (length (@nil string)))) with 0%nat.
  rewrite Nat2Z.id. apply for_eachM_skip. intros y _. reflexivity.
Qed.

Lemma assign_biomes_no_columns (n : nat) (heights : list (list Q)) s :
  (2 ≤ n)%nat →
  assign_biomes (replicate n []) heights s = Ok (replicate n [], s).
Proof.
  intros Hn. unfold assign_biomes.
  destruct n as [|n]; [lia|].
  erewrite bind_Ok; [|reflexivity]. rewrite length_replicate.
  change (Z.to_nat (Z.of_nat (length (@nil string)))) with 0%nat.
  rewrite Nat2Z.id. apply for_eachM_skip. intros y _.
  assert (Qeq_bool (inject_Z (Z.of_nat (S n) - 1)) 0 = false) as Hnz.
  { apply not_true_iff_false. rewrite Qeq_bool_iff. unfold Qeq. simpl. lia. }
  unfold py_div. rewrite Hnz. reflexivity.
Qed.

Lemma export_obj_no_columns (n : nat) (sc : Q) :
  (0 < n)%nat →
  export_obj (replicate n []) sc = Ok [Comment "# Terrain OBJ"].
Proof.
  intros Hn. unfold export_obj. destruct n as [|n]; [lia|].
  change (py_index (replicate (S n) []) 0) with (Ok (@nil Q)).
  cbn [mbind outcome_bind]. rewrite length_replicate.
  rewrite for_each_skip by (intros y _; reflexivity).
  cbn [mbind outcome_bind]. apply for_each_skip. intros y _. reflexivity.
Qed.

End Degenerate.

Section DegenerateTheorem.
Context `{RS : RandomSource} `{ML : MathLib} `{SO : SetOrder}.

(** C3, as the code has it: [main] does not check the dimensions.  With a
    zero or negative width or height it calls the solver all the same,
    which treats a non-positive dimension as zero and returns
    [max(height, 0)] empty rows.  What follows depends on the height:
    without rows [generate_heightfield] raises [IndexError] at [tiles[0]];
    with two rows or more the run completes and writes an OBJ file that
    holds the header line and neither vertices nor faces. *)
Theorem degenerate_dimensions_reach_solver (args : Args) :
  width args ≤ 0 ∨ height args ≤ 0 →
  (∃ s', wave_function_collapse (width args) (height args) PLANET_PROFILES
           (Random (seed args))
         = Ok (replicate (Z.to_nat (height args)) [], s')) ∧
  (height args ≤ 0 → main args = Raise IndexError) ∧
  (2 ≤ height args →
   main args
   = Ok {| run_tiles := replicate (Z.to_nat (height args)) [];
           run_heights := replicate (Z.to_nat (height args)) [];
           run_biomes := replicate (Z.to_nat (height args)) [];
           run_obj := [Comment "# Terrain OBJ"];
           run_metadata :=
             if String.eqb (metadata args) "" then None
             else Some {| meta_width := 0;
                          meta_height := height args;
                          meta_tiles := replicate (Z.to_nat (height args)) [];
                          meta_heights := replicate (Z.to_nat (height args)) [];
                          meta_biomes := replicate (Z.to_nat (height args)) []
                       |} |}).
Proof.
  intros Hdim.
  destruct (wave_function_collapse_degenerate (width args) (height args)
              PLANET_PROFILES (Random (seed args)) Hdim) as [s' Hwfc];
    [done|].
  split; [by exists s'|]. split.
  - intros Hheight. unfold main, main_from.
    rewrite (bind_Ok _ _ _ _ _ Hwfc).
    replace (Z.to_nat (height args)) with 0%nat by lia. reflexivity.
  - intros Hheight. unfold main, main_from.
    rewrite (bind_Ok _ _ _ _ _ Hwfc).
    rewrite (bind_Ok _ _ _ _ _
               (generate_heightfield_no_columns (Z.to_nat (height args))
                  PLANET_PROFILES s' ltac:(lia) ltac:(done))).
    rewrite (bind_Ok _ _ _ _ _
               (assign_biomes_no_columns (Z.to_nat (height args))
                  (replicate (Z.to_nat (height args)) []) s' ltac:(lia))).
    rewrite export_obj_no_columns by lia.
    unfold lift at 1. unfold mbind at 1, M_bind.
    destruct (String.eqb (metadata args) "").
    + reflexivity.
    + unfold write_metadata.
      destruct (Z.to_nat (height args)) as [|n] eqn:Hn; [lia|].
      change (py_index (replicate (S n) []) 0) with (Ok (@nil string)).
      cbn [mbind outcome_bind lift M_bind mret M_ret length]. simpl.
      rewrite length_replicate. do 4 f_equal. lia.
Qed.

End DegenerateTheorem.

(** ** Further properties of the program *)

(** *** The exported mesh *)

Section ObjExport.

Lemma for_each_append {A B} (body : A → list B → outcome (list B))
    (f : A → list B) (l : list A) (acc : list B) :
  (∀ a acc, a ∈ l → body a acc = Ok (acc ++ f a)) →
  for_each body l acc = Ok (acc ++ l ≫= f).
Proof.
  revert acc. induction l as [|a l IH]; intros acc Hbody.
  - simpl. by rewrite app_nil_r.
  - cbn [for_each]. rewrite (Hbody a acc ltac:(left)).
    cbn [mbind outcome_bind]. rewrite IH.
    + by rewrite bind_cons, app_assoc.
    + intros a' acc' Ha'. apply Hbody. by right.
Qed.

Lemma length_bind_const {A B} (f : A → list B) (l : list A) (k : nat) :
  (∀ a, a ∈ l → length (f a) = k) → length (l ≫= f) = (length l * k)%nat.
Proof.
  induction l as [|a l IH]; intros Hf; [done|].
  rewrite bind_cons, length_app, IH, (Hf a) by (try left; intros; apply Hf; by right).
  simpl. lia.
Qed.

Lemma lookup_bind_const {A B} (f : A → list B) (l : list A) (k i j : nat) a :
  (∀ a, a ∈ l → length (f a) = k) → l !! i = Some a → (j < k)%nat →
  (l ≫= f) !! (i * k + j)%nat = f a !! j.
Proof.
  revert i. induction l as [|a0 l IH]; intros i Hf Hi Hj; [done|].
  rewrite bind_cons. destruct i as [|i]; simplify_eq/=.
  - apply lookup_app_l. rewrite (Hf a) by left. lia.
  - rewrite lookup_app_r; rewrite (Hf a0) by left; [|lia].
    replace (k + i * k + j - k)%nat with (i * k + j)%nat by lia.
    apply IH; [|done..]. intros a' Ha'. apply Hf. by right.
Qed.

Lemma export_obj_lines (width height : Z) (heights : list (list Q))
    (scale : Q) :
  0 ≤ width → 0 < height → grid_shape width height heights →
  export_obj heights scale =
    Ok (Comment "# Terrain OBJ"
          :: mesh_vertices heights scale width height
          ++ mesh_faces width height).
Proof.
  intros Hw Hh [Hlen Hrows]. unfold export_obj.
  destruct heights as [|row0 rest] eqn:Hheights; [simpl in Hlen; lia|].
  rewrite <- Hheights in *.
  assert (py_index heights 0 = Ok row0) as -> by (by subst heights).
  cbn [mbind outcome_bind].
  assert (Z.of_nat (length row0) = width) as ->.
  { subst heights. apply Forall_cons in Hrows as [-> _]. lia. }
  assert (Z.of_nat (length heights) = height) as -> by lia.
  erewrite (for_each_append _ (λ y, x ← py_range width;
      [Vertex (inject_Z x * scale) (inject_Z y * scale)
         (default 0%Q (cell_at heights (x, y)))])).
  - cbn [mbind outcome_bind].
    erewrite (for_each_append _ (λ y, x ← py_range (width - 1);
      [Face (y * width + x + 1) (y * width + x + 1 + 1)
         (y * width + x + 1 + width + 1);
       Face (y * width + x + 1) (y * width + x + 1 + width + 1)
         (y * width + x + 1 + width)])).
    + unfold mesh_vertices, mesh_faces. by rewrite <- app_assoc.
    + intros y acc _. by apply for_each_append.
  - intros y acc Hy. apply for_each_append. intros x acc' Hx.
    unfold py_range in Hx, Hy. apply elem_of_seqZ in Hx, Hy.
    destruct (cell_at_in_grid width height heights (x, y)) as [z Hz];
      [by split|split; simpl; lia|].
    rewrite Hz. simpl.
    apply grid_get_cell_at in Hz as ->; [done|lia..].
Qed.

Lemma mesh_vertices_length heights scale width height :
  0 ≤ width → 0 ≤ height →
  length (mesh_vertices heights scale width height)
    = Z.to_nat (width * height).
Proof.
  intros Hw Hh. unfold mesh_vertices.
  rewrite (length_bind_const _ _ (Z.to_nat width)), py_range_length; [lia|].
  intros y _. rewrite (length_bind_const _ _ 1), py_range_length; [lia|done].
Qed.

Lemma mesh_vertices_lookup heights scale width height x y :
  in_grid width height (x, y) →
  mesh_vertices heights scale width height
    !! Z.to_nat (vertex_index width x y - 1)
  = Some (Vertex (inject_Z x * scale) (inject_Z y * scale)
            (default 0%Q (cell_at heights (x, y)))).
Proof.
  intros [Hx Hy]. simpl in Hx, Hy. unfold mesh_vertices, vertex_index.
  replace (Z.to_nat (y * width + x + 1 - 1))
    with (Z.to_nat y * Z.to_nat width + Z.to_nat x)%nat by lia.
  rewrite (lookup_bind_const _ _ (Z.to_nat width) _ _ y); [|..|lia].
  - replace (Z.to_nat x) with (Z.to_nat x * 1 + 0)%nat at 1 by lia.
    rewrite (lookup_bind_const _ _ 1 _ _ x); [done|done|..|lia].
    apply py_range_lookup. lia.
  - intros y' _. rewrite (length_bind_const _ _ 1), py_range_length; [lia|done].
  - apply py_range_lookup. lia.
Qed.

Lemma mesh_faces_length width height :
  0 ≤ width → 0 < height →
  length (mesh_faces width height)
    = Z.to_nat (2 * (width - 1) * (height - 1)).
Proof.
  intros Hw Hh. unfold mesh_faces.
  rewrite (length_bind_const _ _ (Z.to_nat (width - 1) * 2)), py_range_length.
  - destruct (decide (width = 0)) as [->|]; [simpl; lia|nia].
  - intros y _. by rewrite (length_bind_const _ _ 2), py_range_length.
Qed.

Lemma elem_of_mesh_faces width height f :
  f ∈ mesh_faces width height ↔
  ∃ x y, 0 ≤ x < width - 1 ∧ 0 ≤ y < height - 1 ∧
    (f = Face (vertex_index width x y) (vertex_index width (x + 1) y)
           (vertex_index width (x + 1) (y + 1)) ∨
     f = Face (vertex_index width x y) (vertex_index width (x + 1) (y + 1))
           (vertex_index width x (y + 1))).
Proof.
  unfold mesh_faces, vertex_index. rewrite list_elem_of_bind. split.
  - intros (y & Hf & Hy). apply list_elem_of_bind in Hf as (x & Hf & Hx).
    unfold py_range in Hx, Hy. apply elem_of_seqZ in Hx, Hy.
    exists x, y. split; [lia|]. split; [lia|].
    apply elem_of_cons in Hf as [->|Hf]; [left; f_equal; lia|].
    apply list_elem_of_singleton in Hf as ->. right. f_equal; lia.
  - intros (x & y & Hx & Hy & Hf). exists y. split.
    + apply list_elem_of_bind. exists x. split.
      * rewrite elem_of_cons, list_elem_of_singleton.
        destruct Hf as [->| ->]; [left|right]; f_equal; lia.
      * unfold py_range. apply elem_of_seqZ. lia.
    + unfold py_range. apply elem_of_seqZ. lia.
Qed.

(** X1: for a rectangular heightfield with at least one row, [export_obj]
    writes the header line, then one vertex line per cell in row-major
    order, the vertex of cell (x, y) at position [y * width + x] with the
    coordinates (x * scale, y * scale, heights[y][x]), then only face lines.
    There are [width * height] vertices; there are
    [2 * (width - 1) * (height - 1)] faces when the heightfield has a
    column, and none when it has no column. *)
Theorem export_obj_header_vertices_faces (width height : Z)
    (heights : list (list Q)) (scale : Q) :
  0 ≤ width → 0 < height → grid_shape width height heights →
  ∃ vs fs,
    export_obj heights scale = Ok (Comment "# Terrain OBJ" :: vs ++ fs) ∧
    Forall is_vertex vs ∧ Forall is_face fs ∧
    Z.of_nat (length vs) = width * height ∧
    (1 ≤ width → Z.of_nat (length fs) = 2 * (width - 1) * (height - 1)) ∧
    (width = 0 → fs = []) ∧
    ∀ x y, in_grid width height (x, y) →
      ∃ z, cell_at heights (x, y) = Some z ∧
           vs !! Z.to_nat (y * width + x)
             = Some (Vertex (inject_Z x * scale) (inject_Z y * scale) z).
Proof.
  intros Hw Hh Hshape.
  exists (mesh_vertices heights scale width height), (mesh_faces width height).
  split; [by apply export_obj_lines|].
  split. { unfold mesh_vertices. apply Forall_bind, Forall_forall.
           intros y _. apply Forall_bind, Forall_forall. intros x _.
           by apply Forall_singleton. }
  split. { unfold mesh_faces. apply Forall_bind, Forall_forall.
           intros y _. apply Forall_bind, Forall_forall. intros x _.
           by repeat constructor. }
  split; [rewrite mesh_vertices_length by lia; nia|].
  split; [intros Hcol; rewrite mesh_faces_length by lia; nia|].
  split.
  { intros ->. apply length_zero_iff_nil.
    rewrite mesh_faces_length by lia. lia. }
  intros x y Hin.
  destruct (cell_at_in_grid width height heights (x, y)) as [z Hz]; [done..|].
  exists z. split; [done|].
  pose proof (mesh_vertices_lookup heights scale width height x y Hin) as Hl.
  rewrite Hz in Hl. unfold vertex_index in Hl.
  by replace (y * width + x + 1 - 1) with (y * width + x) in Hl by lia.
Qed.

(** X2: the faces that [export_obj] writes are exactly two triangles for
    every 2x2 block of cells, (x, y), (x+1, y), (x+1, y+1) and
    (x, y), (x+1, y+1), (x, y+1) in the numbering of the vertex lines; so
    every face names three different vertices, all of which are in the
    file. *)
Theorem export_obj_faces_name_written_vertices (width height : Z)
    (heights : list (list Q)) (scale : Q) :
  0 ≤ width → 0 < height → grid_shape width height heights →
  ∃ vs fs,
    export_obj heights scale = Ok (Comment "# Terrain OBJ" :: vs ++ fs) ∧
    length vs = Z.to_nat (width * height) ∧
    (∀ f, f ∈ fs ↔
       ∃ x y, 0 ≤ x < width - 1 ∧ 0 ≤ y < height - 1 ∧
         (f = Face (vertex_index width x y) (vertex_index width (x + 1) y)
                (vertex_index width (x + 1) (y + 1)) ∨
          f = Face (vertex_index width x y)
                (vertex_index width (x + 1) (y + 1))
                (vertex_index width x (y + 1)))) ∧
    (∀ a b c, Face a b c ∈ fs →
       a ≠ b ∧ b ≠ c ∧ a ≠ c ∧
       Forall (λ i, 1 ≤ i ≤ Z.of_nat (length vs)) [a; b; c]).
Proof.
  intros Hw Hh Hshape.
  exists (mesh_vertices heights scale width height), (mesh_faces width height).
  split; [by apply export_obj_lines|].
  split; [apply mesh_vertices_length; lia|].
  split; [apply elem_of_mesh_faces|].
  intros a b c (x & y & Hx & Hy & Hf)%elem_of_mesh_faces.
  rewrite mesh_vertices_length by lia. unfold vertex_index in Hf.
  assert (a = y * width + x + 1 ∧
          ((b = a + 1 ∧ c = a + width + 1) ∨
           (b = a + width + 1 ∧ c = a + width))) as (Ha & Hbc).
  { destruct Hf as [Hf|Hf]; injection Hf as -> -> ->; split; lia. }
  assert (1 ≤ a ∧ a + width + 1 ≤ width * height) by nia.
  repeat split; try lia.
  repeat constructor; lia.
Qed.

End ObjExport.

(** *** Climate and biomes *)

Lemma Qltb_cases (a b : Q) :
  (Qltb a b = true ∧ (a < b)%Q) ∨ (Qltb a b = false ∧ (b <= a)%Q).
Proof.
  destruct (Qltb a b) eqn:H; [left|right]; (split; [done|]).
  - by apply Qltb_lt.
  - by apply Qltb_ge.
Qed.

Lemma Qle_bool_cases (a b : Q) :
  (Qle_bool a b = true ∧ (a <= b)%Q) ∨ (Qle_bool a b = false ∧ (b < a)%Q).
Proof.
  destruct (Qle_bool a b) eqn:H; [left|right]; (split; [done|]).
  - by apply Qle_bool_iff.
  - apply Qnot_le_lt. intros Hle%Qle_bool_iff. congruence.
Qed.

(** X3: [_biome] always returns one of seven labels, and its chain of
    tests cuts the inputs into these regions.  Alpine: elevation above 3500
    or temperature below 0.15, whatever the moisture.  Otherwise, tundra:
    temperature below 0.3 and moisture below 0.35; taiga: temperature below
    0.4 and moisture at least 0.35; desert and rainforest: temperature above
    0.65 with moisture below, respectively at least, 0.35; forest:
    temperature from 0.4 to 0.65 and moisture at least 0.5; grassland:
    temperature at most 0.65 and either at least 0.3 with moisture below
    0.35 or at least 0.4 with moisture below 0.5. *)
Theorem biome_regions (temperature moisture elevation : Q) :
  let b := _biome temperature moisture elevation in
  let t := temperature in
  let m := moisture in
  b ∈ biome_labels ∧
  (b = "alpine" ↔ (3500 < elevation ∨ t < 15 # 100)%Q) ∧
  (b = "tundra" ↔
     (elevation <= 3500 ∧ 15 # 100 <= t ∧ t < 3 # 10 ∧ m < 35 # 100)%Q) ∧
  (b = "taiga" ↔
     (elevation <= 3500 ∧ 15 # 100 <= t ∧ t < 4 # 10 ∧ 35 # 100 <= m)%Q) ∧
  (b = "desert" ↔ (elevation <= 3500 ∧ 65 # 100 < t ∧ m < 35 # 100)%Q) ∧
  (b = "rainforest" ↔
     (elevation <= 3500 ∧ 65 # 100 < t ∧ 35 # 100 <= m)%Q) ∧
  (b = "forest" ↔
     (elevation <= 3500 ∧ 4 # 10 <= t ∧ t <= 65 # 100 ∧ 5 # 10 <= m)%Q) ∧
  (b = "grassland" ↔
     (elevation <= 3500 ∧ t <= 65 # 100 ∧
      ((3 # 10 <= t ∧ m < 35 # 100) ∨ (4 # 10 <= t ∧ m < 5 # 10)))%Q).
Proof.
  unfold _biome, biome_labels.
  destruct (Qltb_cases 3500 elevation) as [[-> He]|[-> He]];
  destruct (Qltb_cases temperature (15 # 100)) as [[-> H1]|[-> H1]];
  destruct (Qltb_cases temperature (3 # 10)) as [[-> H2]|[-> H2]];
  destruct (Qltb_cases temperature (4 # 10)) as [[-> H3]|[-> H3]];
  destruct (Qltb_cases (65 # 100) temperature) as [[-> H4]|[-> H4]];
  destruct (Qltb_cases moisture (35 # 100)) as [[-> H5]|[-> H5]];
  destruct (Qle_bool_cases (35 # 100) moisture) as [[-> H6]|[-> H6]];
  destruct (Qle_bool_cases (5 # 10) moisture) as [[-> H7]|[-> H7]];
  try (exfalso; lra); cbn [orb andb];
  (split; [set_solver|]);
  repeat split; try discriminate; intros; try lra;
  try (exfalso; intuition lra).
Qed.

Lemma py_max_cases (a b : Q) :
  (py_max a b = b ∧ (a < b)%Q) ∨ (py_max a b = a ∧ (b <= a)%Q).
Proof. unfold py_max. destruct (Qltb_cases a b) as [[-> ?]|[-> ?]]; auto. Qed.

Lemma py_min_cases (a b : Q) :
  (py_min a b = b ∧ (b < a)%Q) ∨ (py_min a b = a ∧ (a <= b)%Q).
Proof. unfold py_min. destruct (Qltb_cases b a) as [[-> ?]|[-> ?]]; auto. Qed.

Lemma py_abs_cases (a : Q) :
  (py_abs a = (- a)%Q ∧ (a < 0)%Q) ∨ (py_abs a = a ∧ (0 <= a)%Q).
Proof. unfold py_abs. destruct (Qltb_cases a 0) as [[-> ?]|[-> ?]]; auto. Qed.

(** X4: for a normalised latitude in [-1, 1], [_temperature_at] is never
    negative and falls as the elevation rises; it is zero exactly at the
    two poles and from 8000 upwards; at or above sea level it is at most 1,
    while below sea level it exceeds 1 on the equator. *)
Theorem temperature_at_range (lat_norm elevation : Q) :
  (-1 <= lat_norm)%Q → (lat_norm <= 1)%Q →
  (0 <= _temperature_at lat_norm elevation)%Q ∧
  (_temperature_at lat_norm elevation == 0 ↔
     lat_norm == -1 ∨ lat_norm == 1 ∨ 8000 <= elevation)%Q ∧
  (0 <= elevation → _temperature_at lat_norm elevation <= 1)%Q ∧
  (elevation < 0 → lat_norm == 0 → 1 < _temperature_at lat_norm elevation)%Q ∧
  (∀ higher, elevation <= higher →
     _temperature_at lat_norm higher <= _temperature_at lat_norm elevation)%Q.
Proof.
  intros Hlo Hhi. unfold _temperature_at.
  assert (∀ e, (1 - e / 8000 == 1 - e * (1 # 8000))%Q) as Hdiv
    by (intros e; field).
  destruct (py_abs_cases lat_norm) as [[-> Hl]|[-> Hl]];
    destruct (py_max_cases 0 (1 - elevation / 8000)) as [[-> He]|[-> He]];
    rewrite Hdiv in He.
  all: repeat split.
  all: try (intros higher Hhigher;
            destruct (py_max_cases 0 (1 - higher / 8000)) as [[-> Hh]|[-> Hh]];
            rewrite Hdiv in Hh).
  all: rewrite ?Hdiv; try nra.
  all: try (intros H; nra).
  all: try (intros [H|[H|H]]; nra).
  all: try (intros H1 H2; nra).
Qed.

Section Moisture.
Context `{RS : RandomSource}.

Lemma moisture_at_eq (distance_to_ocean : Q) (s : rng) :
  _moisture_at distance_to_ocean s
    = Ok (moisture_from (0 + (1 - 0) * (random s).1) distance_to_ocean,
          (random s).2).
Proof.
  unfold _moisture_at, moisture_from, uniform, mbind, M_bind.
  by destruct (random s).
Qed.

(** X5: [_moisture_at] takes exactly one uniform draw.  For a draw in
    [0, 1] and a distance that is not negative the result lies in [0, 1]
    and is at least [0.4 * (1 - distance / 12)], the ocean bonus alone;
    from distance 12 on the bonus is gone and the result is at most 0.6.
    For one and the same draw a cell farther from the ocean is never
    wetter. *)
Theorem moisture_at_range (distance_to_ocean : Q) (s : rng) :
  (0 <= (random s).1)%Q → ((random s).1 <= 1)%Q →
  (0 <= distance_to_ocean)%Q →
  ∃ moisture,
    _moisture_at distance_to_ocean s = Ok (moisture, (random s).2) ∧
    (0 <= moisture)%Q ∧ (moisture <= 1)%Q ∧
    ((4 # 10) * (1 - distance_to_ocean / 12) <= moisture)%Q ∧
    (12 <= distance_to_ocean → moisture <= 6 # 10)%Q ∧
    ∀ farther, (distance_to_ocean <= farther)%Q →
      ∃ drier, _moisture_at farther s = Ok (drier, (random s).2) ∧
               (drier <= moisture)%Q.
Proof.
  intros Hlo Hhi Hd. eexists. split; [apply moisture_at_eq|].
  unfold moisture_from. set (r := (random s).1) in *.
  assert (∀ d, (1 - d / 12 == 1 - d * (1 # 12))%Q) as Hdiv
    by (intros d; field).
  destruct (py_max_cases 0 (1 - distance_to_ocean / 12)) as [[-> Hb]|[-> Hb]];
    rewrite Hdiv in Hb;
    match goal with
    | |- context [py_min 1 ?a] =>
        destruct (py_min_cases 1 a) as [[-> Hm]|[-> Hm]]
    end; rewrite ?Hdiv in Hm.
  all: repeat split; rewrite ?Hdiv; try lra.
  all: intros farther Hf; eexists; (split; [apply moisture_at_eq|]).
  all: unfold moisture_from; fold r.
  all: destruct (py_max_cases 0 (1 - farther / 12)) as [[-> Hb']|[-> Hb']];
    rewrite Hdiv in Hb';
    match goal with
    | |- (py_min 1 ?a <= _)%Q =>
        destruct (py_min_cases 1 a) as [[-> Hm']|[-> Hm']]
    end; rewrite ?Hdiv in Hm'; rewrite ?Hdiv; lra.
Qed.

End Moisture.

(** *** Loops that fill a grid *)

Section FillGrid.
Context `{RS : RandomSource} {A D : Type}.
Context (draw : M D) (value : coord → D → A).
Context (width height : Z).
Context (body : Z → Z → list (list A) → M (list (list A))).
Hypothesis draw_returns : ∀ s, ∃ d s', draw s = Ok (d, s').
Hypothesis body_writes : ∀ x y g s d s',
  in_grid width height (x, y) → grid_shape width height g →
  draw s = Ok (d, s') →
  body y x g s = Ok (grid_update g (x, y) (value (x, y) d), s').

Lemma fill_row y g draws s0 s :
  0 ≤ width → 0 ≤ y < height → grid_shape width height g →
  length draws = Z.to_nat (y * width) →
  repeat_draw (length draws) draw s0 = Ok (draws, s) →
  drawn_to value draws width height 0 y g →
  returns (for_eachM (body y) (py_range width) g) s
    (λ g' s',
       grid_shape width height g' ∧
       ∃ draws',
         length draws' = Z.to_nat ((y + 1) * width) ∧
         repeat_draw (length draws') draw s0 = Ok (draws', s') ∧
         drawn_to value draws' width height 0 (y + 1) g').
Proof.
  intros Hwidth Hy Hshape Hlen Hdraw Hfilled.
  eapply returns_mono.
  { apply (for_eachM_inv _ _
      (λ i g' s',
         grid_shape width height g' ∧
         ∃ more,
           length more = i ∧
           repeat_draw (length draws + i) draw s0 = Ok (draws ++ more, s') ∧
           drawn_to value (draws ++ more) width height (Z.of_nat i) y g')).
    - split; [done|]. exists []. rewrite Nat.add_0_r, app_nil_r. done.
    - intros i x g1 s1 [-> Hi]%py_range_lookup
        (Hshape1 & more & Hmore & Hdraw1 & Hfilled1).
      assert (in_grid width height (Z.of_nat i, y)) as Hin
        by (unfold in_grid; simpl; lia).
      destruct (cell_at_in_grid _ _ _ _ Hshape1 Hin) as [old Hold].
      destruct (draw_returns s1) as (d & s2 & Hd).
      eapply returns_eq; [by apply body_writes|].
      split; [by apply grid_update_shape|].
      exists (more ++ [d]). split; [rewrite length_app; simpl; lia|].
      split.
      { rewrite Nat.add_succ_r, app_assoc.
        by apply (repeat_draw_snoc _ _ _ _ s1). }
      intros c Hc Hbefore.
      rewrite cell_at_update by (destruct Hc; simpl; lia).
      destruct (decide (c = (Z.of_nat i, y))) as [->|Hnc].
      + rewrite Hold. simpl. exists d. split; [|done].
        rewrite app_assoc.
        replace (Z.to_nat (y * width + Z.of_nat i))
          with (length (draws ++ more) + 0)%nat
          by (rewrite length_app; nia).
        by rewrite lookup_app_r, Nat.add_comm, Nat.add_sub by lia.
      + destruct (Hfilled1 c Hc) as (d' & Hd' & Hcell).
        { destruct c as [cx cy]. simpl in *.
          destruct Hbefore as [?|[-> Hcx]]; [by left|]. right.
          split; [done|]. assert (cx ≠ Z.of_nat i) by congruence. lia. }
        exists d'. split; [|done]. rewrite app_assoc.
        by apply lookup_app_l_Some. }
  intros g' s' (Hshape' & more & Hmore & Hdraw' & Hfilled').
  rewrite py_range_length in Hmore, Hdraw', Hfilled'.
  split; [done|]. exists (draws ++ more).
  assert (length (draws ++ more) = Z.to_nat ((y + 1) * width)) as Hlen'
    by (rewrite length_app; nia).
  split; [done|]. split; [by rewrite length_app, Hmore|].
  intros c Hc Hbefore. apply Hfilled'; [done|]. destruct Hc as [Hcx Hcy].
  destruct Hbefore as [?|[? ?]]; [|lia].
  destruct (decide (c.2 = y)); [right|left]; lia.
Qed.

Lemma fill_rows (row : Z → list (list A) → M (list (list A))) g s :
  0 ≤ width → 0 ≤ height → grid_shape width height g →
  (∀ y g s, 0 ≤ y < height →
            row y g s = for_eachM (body y) (py_range width) g s) →
  returns (for_eachM row (py_range height) g) s
    (λ g' s',
       grid_shape width height g' ∧
       ∃ draws,
         repeat_draw (Z.to_nat (height * width)) draw s = Ok (draws, s') ∧
         ∀ c, in_grid width height c →
              ∃ d, draws !! Z.to_nat (c.2 * width + c.1) = Some d ∧
                   cell_at g' c = Some (value c d)).
Proof.
  intros Hwidth Hheight Hshape Hrow. eapply returns_mono.
  { apply (for_eachM_inv _ _
      (λ j g' s',
         grid_shape width height g' ∧
         ∃ draws,
           length draws = Z.to_nat (Z.of_nat j * width) ∧
           repeat_draw (length draws) draw s = Ok (draws, s') ∧
           drawn_to value draws width height 0 (Z.of_nat j) g')).
    - split; [done|]. exists []. split; [done|]. split; [done|].
      intros c [Hcx Hcy] Hbefore. lia.
    - intros j y g1 s1 [-> Hj]%py_range_lookup
        (Hshape1 & draws & Hlen & Hdraw & Hfilled).
      unfold returns. rewrite Hrow by lia.
      eapply returns_mono.
      { by apply (fill_row (Z.of_nat j) g1 draws s s1); [|lia|..]. }
      intros g2 s2 (Hshape2 & draws2 & Hlen2 & Hdraw2 & Hfilled2).
      split; [done|]. exists draws2.
      replace (Z.of_nat (S j)) with (Z.of_nat j + 1) by lia. done. }
  intros g' s' (Hshape' & draws & Hlen & Hdraw & Hfilled).
  rewrite py_range_length, Z2Nat.id in Hlen, Hfilled by lia.
  split; [done|]. exists draws. rewrite <- Hlen. split; [done|].
  intros c Hc. apply Hfilled; [done|]. left. apply Hc.
Qed.

End FillGrid.

(** *** Biome assignment *)

Section Biomes.
Context `{RS : RandomSource} `{ML : MathLib}.

Lemma distance_to_ocean_returns width height tiles x y :
  0 ≤ width → grid_shape width height tiles → in_grid width height (x, y) →
  ∃ distance, _distance_to_ocean tiles x y = Ok distance.
Proof.
  intros Hwidth Hshape Hin.
  destruct (cell_at_in_grid _ _ _ _ Hshape Hin) as [t Ht].
  destruct Hin as [Hx Hy]. simpl in Hx, Hy. unfold _distance_to_ocean.
  apply grid_get_cell_at in Ht as ->; [|lia..]. cbn [mbind outcome_bind].
  destruct (String.eqb t "ocean"); [by eexists|].
  destruct (first_ocean_spec width height tiles x y (scan_offsets 10))
    as (found & -> & _); [lia|lia|done|].
  cbn [mbind outcome_bind]. destruct found as [[dx dy]|]; by eexists.
Qed.

Lemma py_div_Z (a b : Z) :
  b ≠ 0 → py_div (inject_Z a) (inject_Z b) = Ok (inject_Z a / inject_Z b)%Q.
Proof.
  intros Hb. unfold py_div.
  destruct (Qeq_bool (inject_Z b) 0) eqn:Heq; [|done].
  apply Qeq_bool_iff in Heq. unfold Qeq in Heq. simpl in Heq. lia.
Qed.

Lemma uniform_eq (a b : Q) (s : rng) :
  uniform a b s = Ok ((a + (b - a) * (random s).1)%Q, (random s).2).
Proof. unfold uniform. by destruct (random s). Qed.

Lemma assign_biomes_drawn (width height : Z) (tiles : list (list string))
    (heights : list (list Q)) (s : rng) :
  0 ≤ width → 2 ≤ height →
  grid_shape width height tiles → grid_shape width height heights →
  returns (assign_biomes tiles heights) s
    (λ biomes s',
       grid_shape width height biomes ∧
       ∃ draws,
         repeat_draw (Z.to_nat (height * width)) (uniform 0 1) s
           = Ok (draws, s') ∧
         ∀ c, in_grid width height c →
           ∃ elevation distance base,
             cell_at heights c = Some elevation ∧
             _distance_to_ocean tiles c.1 c.2 = Ok distance ∧
             draws !! Z.to_nat (c.2 * width + c.1) = Some base ∧
             cell_at biomes c
               = Some (_biome
                         (_temperature_at (latitude height c.2) elevation)
                         (moisture_from base distance) elevation)).
Proof.
  intros Hwidth Hheight Htiles Hheights.
  pose proof Htiles as [Hrows Hcols].
  destruct (lookup_lt_is_Some_2 tiles 0) as [row0 Hrow0]; [lia|].
  assert (length row0 = Z.to_nat width) as Hlen0.
  { rewrite Forall_lookup in Hcols. by apply (Hcols _ _ Hrow0). }
  assert (Z.of_nat (length tiles) = height) as Hh by lia.
  assert (Z.of_nat (length row0) = width) as Hw by lia.
  unfold assign_biomes. apply returns_bind.
  eapply returns_lift; [by apply (py_index_nat tiles 0)|].
  rewrite Hh, Hw.
  set (elev := λ c : coord, default 0%Q (cell_at heights c)).
  set (dist := λ c : coord,
         match _distance_to_ocean tiles c.1 c.2 with
         | Ok d => d
         | _ => 0%Q
         end).
  eapply returns_mono.
  { apply (fill_rows (uniform 0 1)
             (λ c base, _biome (_temperature_at (latitude height c.2) (elev c))
                          (moisture_from base (dist c)) (elev c))
             width height
             (λ y x biomes,
                elevation ← lift (grid_get heights x y);
                let temp := _temperature_at (latitude height y) elevation in
                distance ← lift (_distance_to_ocean tiles x y);
                moisture ← _moisture_at distance;
                lift (grid_set biomes x y (_biome temp moisture elevation)))).
    - intros s0. eexists _, _. apply uniform_eq.
    - intros x y g s0 base s1 Hin Hg Hbase.
      destruct (cell_at_in_grid _ _ _ _ Hheights Hin) as [e He].
      destruct (cell_at_in_grid _ _ _ _ Hg Hin) as [old Hold].
      destruct (distance_to_ocean_returns _ _ _ _ _ Hwidth Htiles Hin)
        as [d Hd].
      unfold elev, dist. simpl. rewrite He, Hd. simpl.
      destruct Hin as [Hx Hy]. simpl in Hx, Hy.
      apply grid_get_cell_at in He; [|lia..].
      rewrite uniform_eq in Hbase. injection Hbase as <- <-.
      unfold mbind, M_bind, lift. rewrite He, moisture_at_eq.
      by rewrite (grid_set_update g x y old) by (done || lia).
    - done.
    - lia.
    - split; [by rewrite length_replicate|].
      apply Forall_replicate. by rewrite length_replicate.
    - intros y g s0 Hy. unfold mbind at 1, M_bind, lift.
      by rewrite py_div_Z by lia. }
  intros biomes s' (Hshape & draws & Hdraws & Hcells).
  split; [done|]. exists draws. split; [done|]. intros c Hc.
  destruct (Hcells c Hc) as (base & Hbase & Hcell).
  destruct (cell_at_in_grid _ _ _ _ Hheights Hc) as [e He].
  destruct (distance_to_ocean_returns width height tiles c.1 c.2)
    as [d Hd]; [done|done|by destruct c|].
  exists e, d, base. unfold elev, dist in Hcell. rewrite He, Hd in Hcell.
  done.
Qed.

Lemma biome_label (temperature moisture elevation : Q) :
  _biome temperature moisture elevation ∈ biome_labels.
Proof.
  unfold _biome, biome_labels.
  repeat match goal with
         | |- context [if ?b then _ else _] => destruct b
         end; set_solver.
Qed.

Lemma biome_alpine (temperature moisture elevation : Q) :
  (3500 < elevation ∨ temperature < 15 # 100)%Q →
  _biome temperature moisture elevation = "alpine".
Proof.
  unfold _biome. intros [H|H]; apply Qltb_lt in H; rewrite H; [done|].
  by rewrite orb_true_r.
Qed.

Lemma temperature_at_pole (lat_norm elevation : Q) :
  (lat_norm == -1 ∨ lat_norm == 1)%Q →
  (_temperature_at lat_norm elevation == 0)%Q.
Proof.
  intros Hlat. unfold _temperature_at.
  destruct (py_abs_cases lat_norm) as [[-> Hl]|[-> Hl]];
    destruct (py_max_cases 0 (1 - elevation / 8000)) as [[-> He]|[-> He]];
    nra.
Qed.

Lemma latitude_poles (height : Z) :
  2 ≤ height →
  (latitude height 0 == -1 ∧ latitude height (height - 1) == 1)%Q.
Proof.
  intros Hheight. unfold latitude.
  assert (¬ (inject_Z (height - 1) == 0)%Q) as Hne
    by (unfold Qeq; simpl; lia).
  split; by field.
Qed.


(** X7: whatever the tiles, the elevations and the draws, [assign_biomes]
    labels every cell with one of the seven biomes, and the first and the
    last row of the map, and every cell above 3500, are alpine. *)
Theorem assign_biomes_polar_rows_alpine (width height : Z)
    (tiles : list (list string)) (heights : list (list Q)) (s : rng) :
  0 ≤ width → 2 ≤ height →
  grid_shape width height tiles → grid_shape width height heights →
  ∃ biomes s',
    assign_biomes tiles heights s = Ok (biomes, s') ∧
    grid_shape width height biomes ∧
    ∀ c, in_grid width height c →
      ∃ b, cell_at biomes c = Some b ∧ b ∈ biome_labels ∧
           (c.2 = 0 ∨ c.2 = height - 1 → b = "alpine") ∧
           (∀ elevation, cell_at heights c = Some elevation →
                         (3500 < elevation)%Q → b = "alpine").
Proof.
  intros Hwidth Hheight Htiles Hheights.
  destruct (assign_biomes_drawn width height tiles heights s)
    as (biomes & s' & Hrun & Hshape & draws & Hdraws & Hcells); [done..|].
  exists biomes, s'. split; [done|]. split; [done|]. intros c Hc.
  destruct (Hcells c Hc) as (e & d & base & He & Hd & Hbase & Hcell).
  eexists. split; [exact Hcell|]. split; [apply biome_label|]. split.
  - intros Hrow. apply biome_alpine. right.
    destruct (latitude_poles height Hheight) as [Hsouth Hnorth].
    rewrite temperature_at_pole; [done|].
    destruct Hrow as [-> | ->]; auto.
  - intros e' He' Hhigh. apply biome_alpine. left. congruence.
Qed.

Lemma biome_moist (temperature moisture elevation : Q) :
  (35 # 100 <= moisture)%Q →
  _biome temperature moisture elevation ≠ "tundra" ∧
  _biome temperature moisture elevation ≠ "desert".
Proof.
  intros Hm%Qltb_ge. unfold _biome. rewrite Hm, !andb_false_r.
  repeat match goal with
         | |- context [if ?b then _ else _] => destruct b
         end; by split.
Qed.

Lemma distance_to_ocean_on_ocean (tiles : list (list string)) (x y : Z) :
  0 ≤ x → 0 ≤ y → cell_at tiles (x, y) = Some "ocean" →
  _distance_to_ocean tiles x y = Ok 0%Q.
Proof.
  intros Hx Hy Hcell. unfold _distance_to_ocean.
  by rewrite (proj2 (grid_get_cell_at tiles x y "ocean" Hx Hy) Hcell).
Qed.

(** X19: with a random source whose uniform draws are not negative, an
    ocean cell is never a desert or a tundra: its distance to the ocean is
    0, so the ocean bonus alone lifts its moisture to 0.4 or more, above
    the 0.35 that both biomes stay below. *)
Theorem assign_biomes_ocean_never_dry (width height : Z)
    (tiles : list (list string)) (heights : list (list Q)) (s : rng) :
  (∀ s0, (0 <= (random s0).1)%Q) →
  0 ≤ width → 2 ≤ height →
  grid_shape width height tiles → grid_shape width height heights →
  ∃ biomes s',
    assign_biomes tiles heights s = Ok (biomes, s') ∧
    ∀ c b, in_grid width height c → cell_at tiles c = Some "ocean" →
           cell_at biomes c = Some b → b ≠ "desert" ∧ b ≠ "tundra".
Proof.
  intros Hrandom Hwidth Hheight Htiles Hheights.
  destruct (assign_biomes_drawn width height tiles heights s)
    as (biomes & s' & Hrun & Hshape & draws & Hdraws & Hcells); [done..|].
  exists biomes, s'. split; [done|]. intros c b Hc Hocean Hb.
  destruct (Hcells c Hc) as (e & d & base & He & Hd & Hbase & Hcell).
  rewrite Hcell in Hb. injection Hb as <-.
  rewrite distance_to_ocean_on_ocean in Hd
    by (try apply Hc; by destruct c). injection Hd as <-.
  assert (0 <= base)%Q as Hnonneg.
  { destruct (repeat_draw_returns (uniform 0 1)
                (Z.to_nat (height * width)) s (λ a, (0 <= a)%Q))
      as (draws' & s'' & Hdraws' & _ & Hall).
    { intros s0. eapply returns_eq; [apply uniform_eq|].
      specialize (Hrandom s0). lra. }
    rewrite Hdraws in Hdraws'. injection Hdraws' as <- <-.
    rewrite Forall_lookup in Hall. by eapply Hall. }
  assert (1 - 0 / 12 == 1)%Q as Hone by reflexivity.
  split; [apply biome_moist|apply biome_moist]; unfold moisture_from.
  all: destruct (py_max_cases 0 (1 - 0 / 12)) as [[-> Hb]|[-> Hb]];
    rewrite Hone in Hb;
    match goal with
    | |- (_ <= py_min 1 ?a)%Q =>
        destruct (py_min_cases 1 a) as [[-> Hm]|[-> Hm]]
    end; rewrite ?Hone in *; lra.
Qed.

End Biomes.

(** *** A whole run *)

Section WholeRun.
Context `{RS : RandomSource} `{ML : MathLib} `{SO : SetOrder}.

Lemma write_metadata_shape (width height : Z) (tiles : list (list string))
    (heights : list (list Q)) (biomes : list (list string)) :
  0 ≤ width → 0 < height → grid_shape width height tiles →
  write_metadata tiles heights biomes
    = Ok {| meta_width := width; meta_height := height;
            meta_tiles := tiles; meta_heights := heights;
            meta_biomes := biomes |}.
Proof.
  intros Hwidth Hheight [Hrows Hcols]. unfold write_metadata.
  destruct (lookup_lt_is_Some_2 tiles 0) as [row0 Hrow0]; [lia|].
  assert (py_index tiles 0 = Ok row0) as ->
    by (by apply (py_index_nat tiles 0)).
  cbn [mbind outcome_bind].
  rewrite Forall_lookup in Hcols. rewrite (Hcols _ _ Hrow0).
  do 2 f_equal; lia.
Qed.

(** X8: started with [--width >= 1] and [--height >= 2], [main] runs to
    completion for every seed.  The tile grid, the heightfield and the biome
    grid all have [height] rows of [width] cells; in every cell the tile is
    one of the catalogue, the elevation lies in that tile's elevation range
    and the biome is one of the seven labels.  The OBJ file is the export
    of this heightfield and has [1 + width * height
    + 2 * (width - 1) * (height - 1)] lines; the metadata file is written
    exactly when [--metadata] is not empty, and records these dimensions
    and grids. *)
Theorem main_completes_on_regular_grid (args : Args) :
  1 ≤ width args → 2 ≤ height args →
  ∃ run,
    main args = Ok run ∧
    grid_shape (width args) (height args) (run_tiles run) ∧
    grid_shape (width args) (height args) (run_heights run) ∧
    grid_shape (width args) (height args) (run_biomes run) ∧
    (∀ c, in_grid (width args) (height args) c →
       ∃ name tile elevation biome,
         cell_at (run_tiles run) c = Some name ∧
         dict_get TILE_TYPES name = Ok tile ∧
         cell_at (run_heights run) c = Some elevation ∧
         ((TileType.height_range tile).1 <= elevation)%Q ∧
         (elevation <= (TileType.height_range tile).2)%Q ∧
         cell_at (run_biomes run) c = Some biome ∧
         biome ∈ biome_labels) ∧
    export_obj (run_heights run) (scale args) = Ok (run_obj run) ∧
    length (run_obj run)
      = Z.to_nat (1 + width args * height args
                  + 2 * (width args - 1) * (height args - 1)) ∧
    run_metadata run =
      if String.eqb (metadata args) "" then None
      else Some {| meta_width := width args; meta_height := height args;
                   meta_tiles := run_tiles run;
                   meta_heights := run_heights run;
                   meta_biomes := run_biomes run |}.
Proof.
  intros Hwidth Hheight. unfold main, main_from.
  destruct (wave_function_collapse_returns (width args) (height args)
              PLANET_PROFILES (Random (seed args)))
    as (tiles & s1 & Hwfc & Htiles & Hvoc); [done|].
  rewrite (bind_Ok _ _ _ _ _ Hwfc).
  destruct (generate_heightfield_filled (width args) (height args)
              tiles PLANET_PROFILES s1)
    as (heights & s2 & Hgen & Hheights & samples & _ & _ & Hfilled);
    [lia|lia|done..|].
  rewrite (bind_Ok _ _ _ _ _ Hgen).
  destruct (assign_biomes_drawn (width args) (height args) tiles heights s2)
    as (biomes & s3 & Hbio & Hbiomes & draws & _ & Hcells); [lia|done..|].
  rewrite (bind_Ok _ _ _ _ _ Hbio).
  pose proof (export_obj_lines (width args) (height args) heights
                (scale args) ltac:(lia) ltac:(lia) Hheights) as Hobj.
  rewrite Hobj. unfold lift at 1. unfold mbind at 1, M_bind.
  rewrite (write_metadata_shape (width args) (height args)) by (done || lia).
  destruct (String.eqb (metadata args) "") eqn:Hmeta.
  all: eexists; (split; [reflexivity|]); cbn [run_tiles run_heights
         run_biomes run_obj run_metadata].
  all: split; [done|]; split; [done|]; split; [done|].
  all: split; [|split; [done|split; [|done]]].
  all: try (cbn [length];
            rewrite length_app, mesh_vertices_length, mesh_faces_length
              by lia; nia).
  all: intros c Hc;
    destruct (Hfilled c Hc)
      as (e & He & name & tile & sample & Hname & Htile & _ & ->);
      [left; apply Hc|];
    destruct (Hcells c Hc) as (e' & d & base & _ & _ & _ & Hcell);
    exists name, tile; eexists _, _; split; [done|]; split; [done|];
    split; [done|];
    pose proof tile_ranges_ordered as Hord; rewrite Forall_forall in Hord;
    destruct (clamp_in_range (TileType.height_range tile) sample) as [? ?];
      [by apply (Hord (name, tile)), dict_get_elem|];
    split; [done|]; split; [done|]; split; [exact Hcell|apply biome_label].
Qed.

End WholeRun.

(** *** The ring of the nearest ocean *)

Lemma scan_offsets_split (radius max_radius : Z) :
  0 ≤ radius ≤ max_radius →
  scan_offsets max_radius
    = scan_offsets radius
      ++ (py_range2 (radius + 1) (max_radius + 1) ≫= square_offsets).
Proof.
  intros Hr. unfold scan_offsets, py_range2.
  replace (max_radius + 1 - 1) with ((radius + 1 - 1)
                                     + (max_radius + 1 - (radius + 1)))
    by lia.
  rewrite seqZ_app, bind_app by lia. do 3 f_equal. lia.
Qed.

Lemma prefix_before_first {B} (l1 l2 before after : list B) (d : B) :
  l1 ++ l2 = before ++ d :: after → d ∉ l1 → ∀ b, b ∈ l1 → b ∈ before.
Proof.
  intros [l [[-> Hl]|[-> Hl]]]%List.app_eq_app Hd b Hb.
  - destruct l as [|d' l]; [by rewrite app_nil_r in Hb|].
    injection Hl as -> _. destruct Hd. apply elem_of_app. right. left.
  - apply elem_of_app. by left.
Qed.

Section NearestRing.
Context `{ML : MathLib}.

(** X9: when the cell (x, y) is not an ocean and an ocean lies within 10
    cells of it in both directions, [_distance_to_ocean] returns the
    [math.hypot] of an offset to an ocean cell on the nearest square ring
    around (x, y): no ocean cell of the grid lies on a ring closer to (x, y)
    than the cell it measures to. *)
Theorem distance_to_ocean_nearest_ring (width height : Z)
    (tiles : list (list string)) (x y : Z) :
  grid_shape width height tiles → in_grid width height (x, y) →
  cell_at tiles (x, y) ≠ Some "ocean" →
  (∃ d0, chebyshev d0 ≤ 10 ∧ ocean_offset width height tiles x y d0) →
  ∃ d,
    _distance_to_ocean tiles x y = Ok (math_hypot d.1 d.2) ∧
    ocean_offset width height tiles x y d ∧
    1 ≤ chebyshev d ≤ 10 ∧
    ∀ d', ocean_offset width height tiles x y d' →
          chebyshev d ≤ chebyshev d'.
Proof.
  intros Hshape Hin Hland (d0 & Hcheb0 & Hd0).
  pose proof Hin as [[Hx0 Hx1] [Hy0 Hy1]]. simpl in *.
  destruct (cell_at_in_grid _ _ _ _ Hshape Hin) as [t Ht].
  assert (t ≠ "ocean") as Hne by congruence.
  assert (∀ d', ocean_offset width height tiles x y d' → 1 ≤ chebyshev d')
    as Hpos.
  { intros [dx dy] [_ Hd']. unfold chebyshev. simpl in *.
    destruct (decide (dx = 0 ∧ dy = 0)) as [[-> ->]|]; [|lia].
    rewrite !Z.add_0_r in Hd'. congruence. }
  unfold _distance_to_ocean.
  rewrite (proj2 (grid_get_cell_at tiles x y t Hx0 Hy0) Ht).
  cbn [mbind outcome_bind]. apply String.eqb_neq in Hne. rewrite Hne.
  destruct (first_ocean_spec width height tiles x y (scan_offsets 10))
    as (found & -> & Hspec); [lia..|done|].
  cbn [mbind outcome_bind]. destruct found as [[dx dy]|]; cycle 1.
  { rewrite Forall_forall in Hspec. destruct (Hspec d0); [|done].
    apply elem_of_scan_offsets. lia. }
  destruct Hspec as (before & after & Hscan & Hd & Hbefore).
  exists (dx, dy). split; [done|]. split; [done|].
  assert (chebyshev (dx, dy) ≤ 10) as Hcheb.
  { apply (elem_of_scan_offsets 10 (dx, dy)). rewrite Hscan.
    apply elem_of_app. right. left. }
  split; [split; [by apply Hpos|done]|].
  intros d' Hd'. destruct (Z.le_gt_cases (chebyshev (dx, dy)) (chebyshev d'))
    as [|Hlt]; [done|].
  exfalso. rewrite Forall_forall in Hbefore. apply (Hbefore d'); [|done].
  rewrite (scan_offsets_split (chebyshev d') 10) in Hscan
    by (specialize (Hpos d' Hd'); lia).
  apply (prefix_before_first _ _ _ _ _ Hscan).
  - intros [_ ?]%elem_of_scan_offsets. lia.
  - apply elem_of_scan_offsets. split; [by apply Hpos|lia].
Qed.

End NearestRing.

(** *** The neighbourhood *)

(** X10: [_neighbors] is 4-connectivity without wrap-around.  It never
    yields a cell twice and never the cell itself; between two cells of the
    grid it is symmetric; and a cell of the grid has one neighbour for each
    of its four sides that is not on the border of the grid, so 4 in the
    interior, 3 on an edge, 2 in a corner and none in a 1x1 grid. *)
Theorem neighbors_four_connected (x y width height : Z) :
  NoDup (_neighbors x y width height) ∧
  ((x, y) ∉ _neighbors x y width height) ∧
  (∀ nx ny, in_grid width height (x, y) → in_grid width height (nx, ny) →
     (nx, ny) ∈ _neighbors x y width height ↔
     (x, y) ∈ _neighbors nx ny width height) ∧
  (in_grid width height (x, y) →
   Z.of_nat (length (_neighbors x y width height))
   = (if x =? 0 then 0 else 1) + (if x =? width - 1 then 0 else 1)
     + (if y =? 0 then 0 else 1) + (if y =? height - 1 then 0 else 1)).
Proof.
  split; [apply neighbors_NoDup|]. split; [|split].
  - intros [_ Hadj]%elem_of_neighbors. unfold adjacent in Hadj. simpl in Hadj.
    lia.
  - intros nx ny Hc Hn. rewrite !elem_of_neighbors. unfold adjacent. simpl.
    split; (intros [_ Hadj]; split; [done|lia]).
  - intros [Hx Hy]. simpl in Hx, Hy. unfold _neighbors.
    cbn [fmap list_fmap]. rewrite !filter_cons, filter_nil.
    repeat case_decide; cbn [length];
      destruct (Z.eqb_spec x 0); destruct (Z.eqb_spec x (width - 1));
      destruct (Z.eqb_spec y 0); destruct (Z.eqb_spec y (height - 1)); lia.
Qed.

(** *** The item picked by the weighted choice *)



Section MonotoneChoice.
Context `{RS : RandomSource}.



End MonotoneChoice.

(** *** The planet profile behind a sample *)


Section PlanetSample.
Context `{RS : RandomSource}.

Lemma planet_sample_empty (s : rng) :
  _planet_sample [] s = Raise IndexError.
Proof.
  unfold _planet_sample, mbind, M_bind, uniform. by destruct (random s).
Qed.


End PlanetSample.

Section EmptyProfiles.
Context `{RS : RandomSource} `{ML : MathLib} `{SO : SetOrder}.

(** X13: called with an empty list of planet profiles, the solver fails
    with [IndexError] for every width, height and random state: the first
    sample that [_initial_tile_weights] asks for reads [profiles[-1]].  So
    does [generate_heightfield] on a grid whose first cell holds a tile of
    the catalogue. *)
Theorem empty_profiles_raise_index_error (width height : Z)
    (tiles : list (list string)) (s : rng) :
  _initial_tile_weights [] s = Raise IndexError ∧
  wave_function_collapse width height [] s = Raise IndexError ∧
  (∀ name, cell_at tiles (0, 0) = Some name → name ∈ vocabulary →
           generate_heightfield tiles [] s = Raise IndexError).
Proof.
  assert (_initial_tile_weights [] s = Raise IndexError) as Hweights.
  { unfold _initial_tile_weights, TILE_TYPES. cbn [for_eachM].
    apply bind_Raise. apply bind_Raise. rewrite repeat_draw_S.
    apply bind_Raise, planet_sample_empty. }
  split; [done|]. split.
  - unfold wave_function_collapse, wave_function_collapse_run.
    by do 2 apply bind_Raise.
  - intros name Hname Hvoc. unfold generate_heightfield.
    unfold cell_at in Hname. cbn in Hname.
    destruct tiles as [|row0 rest]; [done|]. cbn in Hname.
    destruct row0 as [|name0 row0]; [done|]. cbn in Hname.
    injection Hname as ->.
    apply elem_of_vocabulary, dict_get_keys in Hvoc as [tile Htile].
    rewrite (bind_Ok (lift (py_index ((name :: row0) :: rest) 0)) _ s
               (name :: row0) s eq_refl).
    unfold py_range. cbn [length].
    rewrite (seqZ_cons 0 (Z.of_nat (S (length rest)))) by lia.
    cbn [for_eachM]. apply bind_Raise.
    rewrite (seqZ_cons 0 (Z.of_nat (S (length row0)))) by lia.
    cbn [for_eachM]. apply bind_Raise.
    rewrite (bind_Ok (lift (grid_get ((name :: row0) :: rest) 0 0)) _ s
               name s eq_refl).
    assert (lift (dict_get TILE_TYPES name) s = Ok (tile, s)) as Hlift
      by (unfold lift; by rewrite Htile).
    rewrite (bind_Ok _ _ _ _ _ Hlift).
    apply bind_Raise, planet_sample_empty.
Qed.

End EmptyProfiles.

(** *** The cell that a round collapses *)

Lemma py_min_list_le (l : list Q) (m : Q) :
  py_min_list l = Ok m → ∀ e, e ∈ l → (m <= e)%Q.
Proof.
  destruct l as [|a l]; [done|]. intros [= <-].
  assert (∀ best,
            (foldl (λ best e, if Qltb e best then e else best) best l
             <= best)%Q ∧
            ∀ e, e ∈ l →
                 (foldl (λ best e, if Qltb e best then e else best) best l
                  <= e)%Q) as Hfold.
  { induction l as [|b l IH]; intros best.
    - split; [apply Qle_refl|]. intros e He. by apply elem_of_nil in He.
    - simpl. destruct (Qltb_cases b best) as [[-> Hlt]|[-> Hge]].
      + destruct (IH b) as [Hb Hl]. split; [lra|].
        intros e [->|He]%elem_of_cons; [done|by apply Hl].
      + destruct (IH best) as [Hb Hl]. split; [done|].
        intros e [->|He]%elem_of_cons; [lra|by apply Hl]. }
  destruct (Hfold a) as [Ha Hl].
  intros e [->|He]%elem_of_cons; [done|by apply Hl].
Qed.

Lemma collapsed_stays width height (g2 g1 : list (list (gset string)))
    (c : Z * Z) (chosen : string) :
  grid_shape width height g2 → grid_ok g2 → grid_le g2 g1 →
  in_grid width height c → cell_at g1 c = Some {[chosen]} →
  cell_at g2 c = Some {[chosen]}.
Proof.
  intros Hshape2 Hok2 Hle2 Hc Hg1.
  destruct (cell_at_in_grid width height g2 c) as [a2 Ha2]; [done..|].
  destruct (grid_le_cell_at _ _ _ _ Hle2 Ha2) as (a1 & Ha1 & Hsub2).
  rewrite Hg1 in Ha1. injection Ha1 as <-.
  pose proof (grid_ok_cell_at _ _ _ Hok2 Ha2) as [Hne2 _].
  rewrite Ha2. f_equal. apply set_eq. intros n. split; [apply Hsub2|].
  intros ->%elem_of_singleton.
  apply set_choose_L in Hne2 as [n Hn].
  by rewrite <- (proj1 (elem_of_singleton n chosen) (Hsub2 n Hn)).
Qed.

Lemma collapse_inv width height (g : list (list (gset string)))
    (log : list (list (list (gset string)))) (c : Z * Z)
    (a : gset string) (chosen : string) :
  solver_inv width height (g, [], log) → in_grid width height c →
  cell_at g c = Some a → chosen ∈ a →
  solver_inv width height
    (grid_update g c {[chosen]}, [c], grid_update g c {[chosen]} :: log) ∧
  cell_at (grid_update g c {[chosen]}) c = Some {[chosen]}.
Proof.
  intros (Hshape & Hok & _ & Hlog & Hhead) Hc Ha Hchosen. cbn [fst snd] in *.
  pose proof (grid_ok_cell_at _ _ _ Hok Ha) as [_ Hsub].
  assert (cell_ok {[chosen]}) as Hcok by (split; set_solver).
  split.
  - split; [by apply grid_update_shape|]. cbn [fst snd].
    split; [by apply grid_ok_update|].
    split; [by apply Forall_singleton|].
    split; [|done]. eapply history_ok_push; [done..| |].
    + by apply grid_ok_update.
    + eapply grid_le_update; [done|]. set_solver.
  - rewrite cell_at_update by (destruct Hc; lia).
    by rewrite decide_True, Ha.
Qed.

Section MinEntropy.
Context `{RS : RandomSource} `{ML : MathLib} `{SO : SetOrder}.
Implicit Types (g : grid) (tile_weights : gmap string Q).

Lemma scan_candidates_entries tile_weights width height g :
  weights_ok tile_weights → grid_shape width height g → grid_ok g →
  scan_candidates tile_weights width height g
    = Ok (y ← py_range height; x ← py_range width;
          candidate_entry tile_weights g y x).
Proof.
  intros Hw Hshape Hok. unfold scan_candidates.
  rewrite (for_each_append _ (λ y, x ← py_range width;
                                   candidate_entry tile_weights g y x));
    [done|].
  intros y acc Hy. apply for_each_append. intros x acc' Hx.
  unfold py_range in Hx, Hy. apply elem_of_seqZ in Hx, Hy.
  destruct (cell_at_in_grid width height g (x, y)) as [a Ha];
    [done|split; simpl; lia|].
  unfold candidate_entry. rewrite Ha.
  rewrite (proj2 (grid_get_cell_at g x y a ltac:(lia) ltac:(lia)) Ha).
  cbn [mbind outcome_bind].
  destruct (1 <? size a)%nat; [|by rewrite app_nil_r].
  pose proof (grid_ok_cell_at _ _ _ Hok Ha) as [_ Hsub].
  by destruct (entropy_returns tile_weights a Hw Hsub) as [e ->].
Qed.

Lemma elem_of_candidates tile_weights width height g x y e :
  (x, y, e) ∈ (y ← py_range height; x ← py_range width;
               candidate_entry tile_weights g y x) ↔
  in_grid width height (x, y) ∧
  ∃ a, cell_at g (x, y) = Some a ∧ (1 < size a)%nat ∧
       entropy tile_weights a = Ok e.
Proof.
  rewrite list_elem_of_bind. unfold in_grid. simpl. split.
  - intros (y' & Hin & Hy). apply list_elem_of_bind in Hin as (x' & Hin & Hx).
    unfold py_range in Hx, Hy. apply elem_of_seqZ in Hx, Hy.
    unfold candidate_entry in Hin.
    destruct (cell_at g (x', y')) as [a|] eqn:Ha;
      [|by apply elem_of_nil in Hin].
    destruct (Nat.ltb_spec 1 (size a)); [|by apply elem_of_nil in Hin].
    destruct (entropy tile_weights a) as [e'| |] eqn:He;
      try by apply elem_of_nil in Hin.
    apply list_elem_of_singleton in Hin. injection Hin as -> -> ->.
    split; [lia|]. by exists a.
  - intros ([Hx Hy] & a & Ha & Hopen & He). exists y. split.
    + apply list_elem_of_bind. exists x. split.
      * unfold candidate_entry. rewrite Ha, He.
        destruct (Nat.ltb_spec 1 (size a)); [|lia].
        by apply list_elem_of_singleton.
      * unfold py_range. apply elem_of_seqZ. lia.
    + unfold py_range. apply elem_of_seqZ. lia.
Qed.

(** X14: as long as some cell of the grid is open, a round of the main
    loop collapses an open cell of minimal entropy: no open cell of the
    grid has a smaller entropy than the cell it picks.  The tile it puts
    there is one of the cell's candidates, and the propagation that follows
    leaves that cell alone. *)
Theorem round_collapses_min_entropy_cell (tile_weights : gmap string Q)
    (width height : Z) (g : list (list (gset string)))
    (log : list (list (list (gset string)))) (s : rng) :
  weights_ok tile_weights → solver_inv width height (g, [], log) →
  ¬ all_collapsed width height g →
  ∃ c a e chosen g' log' s',
    wfc_iteration tile_weights width height g log s
      = Ok (Some (g', log'), s') ∧
    in_grid width height c ∧ cell_at g c = Some a ∧ (1 < size a)%nat ∧
    entropy tile_weights a = Ok e ∧
    (∀ c' a', in_grid width height c' → cell_at g c' = Some a' →
              (1 < size a')%nat →
              ∃ e', entropy tile_weights a' = Ok e' ∧ (e <= e')%Q) ∧
    chosen ∈ a ∧ cell_at g' c = Some {[chosen]}.
Proof.
  intros Hw (Hshape & Hok & _ & Hlog & Hhead) Hopen. cbn [fst snd] in *.
  pose proof (scan_candidates_entries tile_weights width height g
                Hw Hshape Hok) as Hscan.
  set (candidates := y ← py_range height; x ← py_range width;
                     candidate_entry tile_weights g y x) in Hscan.
  assert (candidates ≠ []) as Hne.
  { intros Hnil. apply Hopen.
    destruct (scan_candidates_returns tile_weights width height g
                Hw Hshape Hok) as (candidates' & Hscan' & _ & Hall).
    apply Hall. congruence. }
  destruct (py_min_list_elem (snd <$> candidates)) as (m & Hmin & Hm).
  { by destruct candidates. }
  destruct (choice_returns
              (filter (λ item, Qeq_bool item.2 m = true) candidates) s)
    as ([[x y] e] & s1 & Hchoice & [He Hitem]%list_elem_of_filter).
  { apply list_elem_of_fmap in Hm as (item & -> & Hitem).
    intros Hfil. assert (item ∈ @nil (Z * Z * Q)) as Hin; [|by inversion Hin].
    rewrite <- Hfil. apply list_elem_of_filter. split; [|done].
    apply Qeq_bool_refl. }
  apply Qeq_bool_iff in He. cbn [snd] in He.
  pose proof Hitem as ([Hx Hy] & a & Ha & Hsize & Hent)%elem_of_candidates.
  cbn [fst snd] in Hx, Hy.
  pose proof (grid_ok_cell_at _ _ _ Hok Ha) as [Hnonempty Hsub].
  destruct (weighted_items tile_weights a Hw Hsub) as (items & Hitems & Hnames).
  destruct (weighted_choice_elem items s1) as (chosen & Hchosen & Hin).
  { intros ->. simpl in Hnames. apply (f_equal length) in Hnames.
    rewrite length_set_iter in Hnames. simpl in Hnames. lia. }
  rewrite Hnames in Hin. apply elem_of_set_iter in Hin.
  set (g1 := grid_update g (x, y) {[chosen]}).
  destruct (collapse_inv width height g log (x, y) a chosen)
    as [Hinv1 Hcell1]; [done|by split|done..|].
  destruct (propagate_inv width height (S (grid_card g1)) g1 [(x, y)]
              (g1 :: log)) as (g2 & log2 & Hprop & Hinv2 & Hle2 & _);
    [done|simpl; lia|].
  exists (x, y), a, e, chosen, g2, log2, (random s1).2.
  split; [|split; [done|split; [done|split; [done|split; [done|split]]]]].
  - unfold wfc_iteration.
    rewrite (bind_Ok (lift (scan_candidates tile_weights width height g)) _
               s candidates s) by (unfold lift; by rewrite Hscan).
    destruct candidates as [|item0 cands] eqn:Hcands; [done|].
    rewrite <- Hcands in *.
    rewrite (bind_Ok (lift (py_min_list (snd <$> candidates))) _ s m s)
      by (unfold lift; by rewrite Hmin).
    rewrite (bind_Ok _ _ _ _ _ Hchoice).
    rewrite (bind_Ok (lift (grid_get g x y)) _ s1 a s1).
    2:{ unfold lift.
        by rewrite (proj2 (grid_get_cell_at g x y a ltac:(lia) ltac:(lia))
                      Ha). }
    rewrite (bind_Ok _ _ s1 items s1) by (unfold lift; by rewrite Hitems).
    rewrite (bind_Ok _ _ _ _ _ Hchosen).
    rewrite (bind_Ok _ _ (random s1).2 g1 (random s1).2).
    2:{ unfold lift.
        by rewrite (grid_set_update g x y a) by (done || lia). }
    rewrite (bind_Ok _ _ (random s1).2 (g2, log2) (random s1).2)
      by (unfold lift; by rewrite Hprop).
    done.
  - intros [x' y'] a' Hc' Ha' Hsize'.
    pose proof (grid_ok_cell_at _ _ _ Hok Ha') as [_ Hsub'].
    destruct (entropy_returns tile_weights a' Hw Hsub') as [e' He'].
    exists e'. split; [done|]. rewrite He.
    apply (py_min_list_le _ _ Hmin). apply list_elem_of_fmap.
    exists (x', y', e'). split; [done|].
    apply (elem_of_candidates tile_weights width height). split; [done|].
    by exists a'.
  - split; [done|].
    destruct Hinv2 as (Hshape2 & Hok2 & _). cbn [fst snd] in *.
    by apply (collapsed_stays width height g2 g1).
Qed.

End MinEntropy.

(** *** The entropy of a cell *)

Lemma comprehension_fmap {A B} (f : A → outcome B) (h : A → B) (l : list A) :
  (∀ a, a ∈ l → f a = Ok (h a)) → comprehension f l = Ok (h <$> l).
Proof.
  induction l as [|a l IH]; intros Hf; [done|].
  cbn [comprehension]. rewrite (Hf a) by left. cbn [mbind outcome_bind].
  rewrite IH by (intros a' Ha'; apply Hf; by right). done.
Qed.

Lemma filter_all {B} (P : B → Prop) `{!∀ x, Decision (P x)} (l : list B) :
  Forall P l → filter P l = l.
Proof.
  induction 1 as [|x l Hx _ IH]; [done|].
  by rewrite filter_cons, decide_True, IH.
Qed.

Section Entropy.
Context `{ML : MathLib} `{SO : SetOrder}.

(** X15: for a weight table with a positive weight for every tile and a
    candidate set within the catalogue, [entropy] never raises: it is 0 for
    a set of at most one candidate, and otherwise the Shannon entropy
    [-sum (w / total) * log (w / total)] of the candidates' weights, which
    are all looked up with success and all positive, so that no term is
    skipped and [log] is only asked for positive arguments. *)
Theorem entropy_of_normalised_weights (tile_weights : gmap string Q)
    (c : gset string) :
  weights_ok tile_weights → c ⊆ vocabulary →
  ∃ weights,
    Forall2 (λ name w, tile_weights !! name = Some w ∧ (0 < w)%Q)
      (set_iter c) weights ∧
    let total := py_sum weights in
    entropy tile_weights c =
      Ok (if (size c <=? 1)%nat then 0
          else - py_sum ((λ w, w / total * math_log (w / total)) <$> weights))%Q.
Proof.
  intros Hw Hsub.
  destruct (comprehension_Forall2 (map_get tile_weights)
              (λ name w, tile_weights !! name = Some w ∧ (0 < w)%Q)
              (set_iter c)) as (weights & Hc & Hall).
  { intros name Hname%elem_of_set_iter.
    destruct (Hw name (Hsub _ Hname)) as (w & Hlook & Hpos).
    exists w. unfold map_get. by rewrite Hlook. }
  exists weights. split; [done|]. cbn zeta. unfold entropy.
  destruct (Nat.leb_spec (size c) 1) as [|Hopen]; [done|].
  rewrite Hc. cbn [mbind outcome_bind].
  assert (Forall (λ w, (0 < w)%Q) weights) as Hpos.
  { clear Hc. induction Hall as [|???? [_ ?]]; by constructor. }
  assert (0 < py_sum weights)%Q as Htotal.
  { apply foldl_Qplus_pos; [done|]. intros ->.
    apply Forall2_length in Hall. rewrite length_set_iter in Hall.
    simpl in Hall. lia. }
  rewrite (filter_all (λ w, Qltb 0 w = true)).
  2:{ eapply Forall_impl; [exact Hpos|]. intros w. apply Qltb_lt. }
  rewrite (comprehension_fmap _
             (λ w, (w / py_sum weights * math_log (w / py_sum weights))%Q));
    [done|].
  intros w Hin. rewrite Forall_forall in Hpos. specialize (Hpos w Hin).
  assert (Qeq_bool (py_sum weights) 0 = false) as Hnz.
  { apply not_true_iff_false. rewrite Qeq_bool_iff. intros Heq.
    rewrite Heq in Htotal. by apply Qlt_irrefl in Htotal. }
  unfold py_div. rewrite Hnz. cbn [mbind outcome_bind]. unfold py_log.
  rewrite (proj2 (Qltb_lt _ _)); [done|].
  apply Qlt_shift_div_l; [done|]. by rewrite Qmult_0_l.
Qed.

End Entropy.

(** *** Propagation and the iteration order of sets *)

Section OrderIndependence.
Context (SO1 SO2 : SetOrder).

Lemma propagate_step_order width height c g rest log :
  solver_inv width height (g, rest, log) → in_grid width height c →
  propagate_step (SO := SO1) width height c (g, rest, log)
    = propagate_step (SO := SO2) width height c (g, rest, log).
Proof.
  intros (Hshape & Hok & _) Hc. cbn [fst snd] in *.
  destruct c as [cx cy]. unfold propagate_step. cbn [fst snd].
  destruct (cell_at_in_grid _ _ _ _ Hshape Hc) as [cur Hcur].
  pose proof (grid_ok_cell_at _ _ _ Hok Hcur) as [_ Hsub].
  destruct Hc as [Hx Hy]. simpl in Hx, Hy.
  rewrite (proj2 (grid_get_cell_at g cx cy cur ltac:(lia) ltac:(lia)) Hcur).
  cbn [mbind outcome_bind].
  by rewrite (allowed_union_set (SO := SO1)), (allowed_union_set (SO := SO2)).
Qed.

(** X16: the propagation loop does not depend on the order in which sets
    are iterated: started from the same grid, stack and log of a solver
    state, it ends with the same grid and the same log under any two
    iteration orders (and runs out of fuel under one exactly when it does
    under the other). *)
Theorem propagate_independent_of_set_order (fuel : nat) (width height : Z)
    (g : list (list (gset string))) (stack : list (Z * Z))
    (log : list (list (list (gset string)))) :
  solver_inv width height (g, stack, log) →
  propagate (SO := SO1) fuel width height (g, stack, log)
    = propagate (SO := SO2) fuel width height (g, stack, log).
Proof.
  revert g stack log.
  induction fuel as [|fuel IH]; intros g stack log Hinv; [done|].
  destruct stack as [|c rest]; [done|]. cbn [propagate fst snd].
  destruct Hinv as (Hshape & Hok & Hstack & Hlog).
  apply Forall_cons in Hstack as [Hc Hrest]. cbn [fst snd] in *.
  assert (solver_inv width height (g, rest, log)) as Hinv by done.
  rewrite <- (propagate_step_order width height c g rest log Hinv Hc).
  destruct (propagate_step_inv (SO := SO1) width height c g rest log Hinv Hc)
    as ([[g1 stack1] log1] & -> & Hinv1 & _).
  cbn [mbind outcome_bind]. by apply IH.
Qed.

End OrderIndependence.

(** *** What propagation establishes *)

Section Settled.
Context `{SO : SetOrder}.
Implicit Types (g : grid) (c nb : coord).

Lemma narrowed_subseteq (allowed : gset string) (hit : Prop)
    `{!Decision hit} (before : gset string) :
  narrowed allowed hit before ⊆ before.
Proof. unfold narrowed. case_decide; set_solver. Qed.

Lemma narrowed_hit (allowed before : gset string) (hit : Prop)
    `{!Decision hit} :
  hit →
  narrowed allowed hit before ⊆ allowed ∨
  narrowed allowed hit before ∩ allowed = ∅.
Proof.
  intros Hhit. unfold narrowed, narrows. case_decide as Hn; [set_solver|].
  destruct (decide (before ∩ allowed = ∅)) as [|Hne]; [by right|]. left.
  intros n Hn'. destruct (decide (n ∈ allowed)) as [|Hout]; [done|].
  destruct Hn. split; [done|]. split; [done|]. split; [set_solver|].
  intros Hsub. specialize (Hsub n Hn'). set_solver.
Qed.

Lemma settled_step width height g c rest log :
  solver_inv width height (g, rest, log) → in_grid width height c →
  settled_off width height g (c :: rest) →
  ∃ g' stack' log',
    propagate_step width height c (g, rest, log) = Ok (g', stack', log') ∧
    settled_off width height g' stack'.
Proof.
  intros (Hshape & Hok & _) Hc Hsettled. cbn [fst snd] in *.
  destruct (cell_at_in_grid _ _ _ _ Hshape Hc) as [cur Hcur].
  pose proof (grid_ok_cell_at _ _ _ Hok Hcur) as [_ Hsub].
  destruct (propagate_step_eq width height g c rest log cur)
    as (g' & log' & Hstep & Hcells); [done..|].
  eexists g', _, log'. split; [exact Hstep|].
  intros p q Hp Hq Hadj Hstack a' b' Ha' Hb'.
  rewrite Hcells in Ha', Hb' by (destruct Hp, Hq; lia).
  destruct (cell_at g p) as [a|] eqn:Ha; [|done].
  destruct (cell_at g q) as [b|] eqn:Hb; [|done].
  simpl in Ha', Hb'. injection Ha' as <-. injection Hb' as <-.
  apply not_elem_of_app in Hstack as [Hpushed Hrest].
  rewrite elem_of_reverse, list_elem_of_filter in Hpushed.
  destruct (decide (p = c)) as [->|Hpc].
  - assert (c ∉ _neighbors c.1 c.2 width height) as Hself.
    { intros [_ Hself]%elem_of_neighbors. unfold adjacent in Hself.
      simpl in Hself. lia. }
    assert (a = cur) as -> by congruence.
    unfold narrowed at 2 4. rewrite decide_False by tauto.
    apply narrowed_hit. apply elem_of_neighbors. split; [done|].
    by destruct c.
  - assert (narrowed (allowed_set cur)
              (p ∈ _neighbors c.1 c.2 width height) a = a) as ->.
    { unfold narrowed. apply decide_False. intros [Hin Hn].
      apply Hpushed. split; [|done]. unfold narrows_at. by rewrite Ha. }
    pose proof (narrowed_subseteq (allowed_set cur)
                  (q ∈ _neighbors c.1 c.2 width height) b) as Hle.
    destruct (Hsettled p q Hp Hq Hadj) with a b as [Hin|Hout];
      [|done|done|left|right].
    + intros [->|Hin]%elem_of_cons; [done|]. by apply Hrest.
    + set_solver.
    + set_solver.
Qed.

Lemma propagate_settled width height fuel g stack log :
  solver_inv width height (g, stack, log) →
  settled_off width height g stack →
  (grid_card g + length stack ≤ fuel)%nat →
  ∃ g' log',
    propagate fuel width height (g, stack, log) = Ok (g', log') ∧
    settled_off width height g' [].
Proof.
  revert g stack log.
  induction fuel as [|fuel IH]; intros g stack log Hinv Hsettled Hfuel.
  - destruct stack as [|c rest]; [|simpl in Hfuel; lia]. by exists g, log.
  - destruct stack as [|c rest]; [by exists g, log|].
    destruct Hinv as (Hshape & Hok & Hstack & Hlog).
    apply Forall_cons in Hstack as [Hc Hrest]. cbn [fst snd] in *.
    assert (solver_inv width height (g, rest, log)) as Hinv by done.
    destruct (propagate_step_inv width height c g rest log Hinv Hc)
      as ([[g1 stack1] log1] & Hstep & Hinv1 & _ & _ & Hm1).
    destruct (settled_step width height g c rest log Hinv Hc Hsettled)
      as (g1' & stack1' & log1' & Hstep' & Hsettled1).
    rewrite Hstep in Hstep'. injection Hstep' as <- <- <-.
    cbn [fst snd length] in *.
    destruct (IH g1 stack1 log1 Hinv1 Hsettled1)
      as (g' & log' & Hp & Hsettled'); [lia|].
    exists g', log'. split; [|done].
    cbn [propagate fst snd]. rewrite Hstep. exact Hp.
Qed.

Lemma initial_grid_settled width height :
  settled_off width height (initial_grid width height) [].
Proof.
  intros c nb _ _ _ _ a b Ha Hb.
  assert (∀ c' a', cell_at (initial_grid width height) c' = Some a' →
                   a' = vocabulary) as Hcell.
  { intros c' a' Hc'. unfold cell_at, initial_grid in Hc'.
    destruct (replicate _ _ !! Z.to_nat c'.2) as [row|] eqn:Hrow; [|done].
    apply lookup_replicate in Hrow as [-> _]. simpl in Hc'.
    by apply lookup_replicate in Hc' as [-> _]. }
  apply Hcell in Ha as ->. apply Hcell in Hb as ->. left.
  intros n Hn. apply elem_of_allowed_set.
  exists "polar", (TileType.mk "polar" (0, 3000)
                     ["ocean"; "shore"; "lowland"; "highland"; "mountain";
                      "polar"] (4 # 10))%Q.
  split; [by apply elem_of_vocabulary; compute; set_solver|].
  split; [unfold TILE_TYPES; set_solver|].
  by apply elem_of_vocabulary in Hn.
Qed.

Lemma collapse_propagate_settled (width height : Z)
    (g : list (list (gset string)))
    (log : list (list (list (gset string)))) (c : Z * Z)
    (a : gset string) (chosen : string) :
  solver_inv width height (g, [], log) → settled_off width height g [] →
  in_grid width height c → cell_at g c = Some a → chosen ∈ a →
  let g1 := grid_update g c {[chosen]} in
  ∃ g' log',
    propagate (S (grid_card g1)) width height (g1, [c], g1 :: log)
      = Ok (g', log') ∧
    settled_off width height g' [] ∧
    cell_at g' c = Some {[chosen]}.
Proof.
  intros Hinv Hsettled Hc Ha Hchosen g1.
  destruct (collapse_inv width height g log c a chosen)
    as [Hinv1 Hcell1]; [done..|]. fold g1 in Hinv1, Hcell1.
  assert (settled_off width height g1 [c]) as Hsettled1.
  { intros p q Hp Hq Hadj Hstack%not_elem_of_cons a1 b1 Ha1 Hb1.
    destruct Hstack as [Hpc _]. unfold g1 in Ha1, Hb1.
    rewrite cell_at_update in Ha1, Hb1 by (destruct Hp, Hq, Hc; lia).
    rewrite decide_False in Ha1 by done.
    destruct (cell_at g q) as [b|] eqn:Hb; cycle 1.
    { case_decide as Hqc; [subst q; congruence|done]. }
    assert (b1 ⊆ b) as Hle.
    { case_decide as Hqc; [|by injection Hb1 as ->].
      subst q. rewrite Ha in Hb1. simpl in Hb1. injection Hb1 as <-.
      assert (a = b) as <- by congruence. set_solver. }
    destruct (Hsettled p q Hp Hq Hadj ltac:(apply not_elem_of_nil) a1 b
                Ha1 Hb) as [?|?]; [left|right]; set_solver. }
  destruct (propagate_inv width height (S (grid_card g1)) g1 [c] (g1 :: log))
    as (g2 & log2 & Hprop & Hinv2 & Hle2 & _); [done|simpl; lia|].
  destruct (propagate_settled width height (S (grid_card g1)) g1 [c]
              (g1 :: log)) as (g2' & log2' & Hprop' & Hsettled2);
    [done|done|simpl; lia|].
  rewrite Hprop in Hprop'. injection Hprop' as <- <-.
  destruct Hinv2 as (Hshape2 & Hok2 & _). cbn [fst snd] in *.
  assert (cell_at g2 c = Some {[chosen]}) as Hcell2
    by (by apply (collapsed_stays width height g2 g1)).
  by exists g2, log2.
Qed.

End Settled.

Section SettledRounds.
Context `{RS : RandomSource} `{ML : MathLib} `{SO : SetOrder}.

(** X17: call a grid settled when, for any two neighbouring cells, the
    candidates of the second are either all allowed next to the candidates
    of the first, or none of them is (a contradiction, which the
    propagation skips).  The initial grid is settled, and a round of the
    main loop turns a settled grid into a settled grid.  More precisely,
    when a cell of a settled grid is collapsed to one of its candidates,
    the propagation from that cell ends, keeps the collapsed cell as it is
    and leaves a settled grid, in which the candidates of each neighbour of
    the collapsed cell are all allowed next to the chosen tile, or all
    forbidden. *)
Theorem rounds_keep_grid_settled (tile_weights : gmap string Q)
    (width height : Z) (g : list (list (gset string)))
    (log : list (list (list (gset string)))) (s : rng) :
  weights_ok tile_weights → solver_inv width height (g, [], log) →
  settled_off width height g [] →
  settled_off width height (initial_grid width height) [] ∧
  (∃ r s', wfc_iteration tile_weights width height g log s = Ok (r, s') ∧
           ∀ g' log', r = Some (g', log') → settled_off width height g' []) ∧
  (∀ c a chosen,
     in_grid width height c → cell_at g c = Some a → chosen ∈ a →
     let g1 := grid_update g c {[chosen]} in
     ∃ g' log',
       propagate (S (grid_card g1)) width height (g1, [c], g1 :: log)
         = Ok (g', log') ∧
       settled_off width height g' [] ∧
       cell_at g' c = Some {[chosen]} ∧
       ∀ nb b, in_grid width height nb → adjacent c nb →
               cell_at g' nb = Some b →
               b ⊆ allowed_set {[chosen]} ∨ b ∩ allowed_set {[chosen]} = ∅).
Proof.
  intros Hw Hinv Hsettled. split; [apply initial_grid_settled|]. split.
  - destruct (wfc_iteration_returns tile_weights width height g log s Hw Hinv)
      as (r & s' & Hrun & Hr).
    exists r, s'. split; [done|]. intros g' log' ->.
    destruct Hr as (_ & _ & _ & _ & c & a & chosen & Hc & Ha & _ & Hchosen
                    & Hprop).
    destruct (collapse_propagate_settled width height g log c a chosen)
      as (g2 & log2 & Hprop2 & Hsettled2 & _); [done..|].
    cbn zeta in Hprop. rewrite Hprop in Hprop2. by injection Hprop2 as <- <-.
  - intros c a chosen Hc Ha Hchosen g1.
    destruct (collapse_propagate_settled width height g log c a chosen)
      as (g2 & log2 & Hprop2 & Hsettled2 & Hcell2); [done..|].
    exists g2, log2. split; [done|]. split; [done|]. split; [done|].
    intros nb b Hnb Hadj Hb.
    by apply (Hsettled2 c nb Hc Hnb Hadj ltac:(apply not_elem_of_nil)).
Qed.

End SettledRounds.

(** *** The range of the empirical tile weights *)

Lemma fraction_inside_le_1 (range : Q * Q) (samples : list Q) :
  samples ≠ [] → (fraction_inside range samples <= 1)%Q.
Proof.
  intros Hne. unfold fraction_inside.
  assert (0 < length samples)%nat as Hlen by (destruct samples; simpl; [done|lia]).
  apply Qle_shift_div_r.
  - change 0%Q with (inject_Z 0). rewrite <- Zlt_Qlt. lia.
  - rewrite Qmult_1_l. rewrite <- Zle_Qle.
    apply count_inside_bounds.
Qed.

Section WeightRange.
Context `{RS : RandomSource}.

(** X18: the weight that [_initial_tile_weights] gives a tile never exceeds
    the tile's catalogue weight and never falls below 5% of it, because the
    fraction of matching samples lies between 0 and 1 and is floored at
    0.05. *)
Theorem initial_tile_weights_within_catalogue
    (profiles : list PlanetProfile.t) (s : rng) :
  profiles ≠ [] →
  ∃ weights s',
    _initial_tile_weights profiles s = Ok (weights, s') ∧
    ∀ tile_name tile, (tile_name, tile) ∈ TILE_TYPES →
      ∃ w, weights !! tile_name = Some w ∧
           ((5 # 100) * TileType.weight tile <= w)%Q ∧
           (w <= TileType.weight tile)%Q.
Proof.
  intros Hne.
  destruct (initial_tile_weights_loop profiles TILE_TYPES ∅ s Hne)
    as (batches & s' & _ & Hrun & Hlen & Hall).
  destruct (weights_from_entries batches Hlen Hall) as [_ Hentries].
  eexists _, s'. split; [exact Hrun|].
  intros tile_name tile [i Hi]%list_elem_of_lookup.
  destruct (Hentries i tile_name tile Hi)
    as (samples & w & _ & Hlen30 & Hw & -> & Hlow & Hpos).
  eexists. split; [exact Hw|]. split; [exact Hlow|].
  assert (0 < TileType.weight tile)%Q as Hweight.
  { pose proof tile_weights_positive as Hall'.
    rewrite Forall_lookup in Hall'. apply (Hall' i (tile_name, tile) Hi). }
  assert (Qmax (5 # 100) (fraction_inside (TileType.height_range tile) samples)
          <= 1)%Q as Hmax.
  { apply Q.max_lub; [done|]. apply fraction_inside_le_1.
    intros ->. simpl in Hlen30. lia. }
  rewrite <- (Qmult_1_r (TileType.weight tile)) at 2.
  apply Qmult_le_l; done.
Qed.

End WeightRange.

(** *** Runs on the concrete platform *)

Module Runs.
Import Platform Samples.

(** C1: the output is not a function of the seed and the dimensions
    alone.  On the same random source, with the same seed, width, height
    and scale, two processes that iterate over their sets of tile names
    in different orders solve the 2x2 grid differently: the items handed
    to [_weighted_choice] come in the iteration order of the candidate
    set, and the same draw then selects another tile. *)
Theorem set_order_changes_the_tiles :
  tiles_of (main (SO := sorted_order) args_2x2)
    = Some [["lowland"; "ocean"]; ["lowland"; "ocean"]] ∧
  tiles_of (main (SO := reversed_order) args_2x2)
    = Some [["ocean"; "ocean"]; ["ocean"; "polar"]] ∧
  main (SO := sorted_order) args_2x2 ≠ main (SO := reversed_order) args_2x2.
Proof.
  assert (tiles_of (main (SO := sorted_order) args_2x2)
          = Some [["lowland"; "ocean"]; ["lowland"; "ocean"]]) as H1
    by (vm_compute; reflexivity).
  assert (tiles_of (main (SO := reversed_order) args_2x2)
          = Some [["ocean"; "ocean"]; ["ocean"; "polar"]]) as H2
    by (vm_compute; reflexivity).
  split; [done|]. split; [done|]. intros Heq. rewrite Heq, H2 in H1.
  discriminate H1.
Qed.

(** C3 as stated fails: a run with [--width 0 --height 2] is not rejected,
    it completes and writes an OBJ file without vertices. *)
Lemma zero_width_run_completes :
  width args_0x2 ≤ 0 ∧
  main (SO := sorted_order) args_0x2
  = Ok {| run_tiles := [[]; []]; run_heights := [[]; []];
          run_biomes := [[]; []]; run_obj := [Comment "# Terrain OBJ"];
          run_metadata := None |} ∧
  ¬ ∃ e, main (SO := sorted_order) args_0x2 = Raise e.
Proof.
  assert (main (SO := sorted_order) args_0x2
          = Ok {| run_tiles := [[]; []]; run_heights := [[]; []];
                  run_biomes := [[]; []]; run_obj := [Comment "# Terrain OBJ"];
                  run_metadata := None |}) as Hrun by (vm_compute; reflexivity).
  split; [done|]. split; [exact Hrun|]. intros [e He]. rewrite Hrun in He.
  discriminate He.
Qed.

End Runs.

(** *** The theorems at concrete inputs *)

Module Witnesses.
Import Platform Samples.
#[local] Existing Instance sorted_order.


Lemma initial_tile_weights_floored_witness :
  PLANET_PROFILES ≠ [] ∧
  ∃ batches weights s',
    repeat_draw (length TILE_TYPES)
      (repeat_draw 30 (_planet_sample PLANET_PROFILES)) start
      = Ok (batches, s') ∧
    _initial_tile_weights PLANET_PROFILES start = Ok (weights, s') ∧
    dom weights = vocabulary ∧
    ∀ i tile_name tile, TILE_TYPES !! i = Some (tile_name, tile) →
      ∃ samples w,
        batches !! i = Some samples ∧ length samples = 30%nat ∧
        weights !! tile_name = Some w ∧
        w = (TileType.weight tile
             * Qmax (5 # 100)
                 (fraction_inside (TileType.height_range tile) samples))%Q ∧
        ((5 # 100) * TileType.weight tile <= w)%Q ∧
        (0 < w)%Q.
Proof.
  split; [discriminate|].
  apply (initial_tile_weights_floored PLANET_PROFILES start). discriminate.
Defined.

Lemma propagate_step_narrows_neighbors_witness :
  grid_shape 2 2 ocean_corner ∧ grid_ok ocean_corner ∧
  in_grid 2 2 (0, 0) ∧
  (∃ current g' pushed log',
     cell_at ocean_corner (0, 0) = Some current ∧
     propagate_step 2 2 (0, 0) (ocean_corner, [], [])
       = Ok (g', pushed ++ [], log') ∧
     let allowed := allowed_set current in
     let visited := _neighbors (0, 0).1 (0, 0).2 2 2 in
     (∀ name, name ∈ allowed ↔
              ∃ tile_name tile, tile_name ∈ current ∧
                (tile_name, tile) ∈ TILE_TYPES ∧
                name ∈ TileType.allowed_neighbors tile) ∧
     (∀ nb, nb ∈ visited ↔ in_grid 2 2 nb ∧ adjacent (0, 0) nb) ∧
     (∀ nb before, in_grid 2 2 nb →
        cell_at ocean_corner nb = Some before →
        (nb ∈ visited ∧ before ∩ allowed ≠ ∅ ∧ before ∩ allowed ⊂ before →
         cell_at g' nb = Some (before ∩ allowed) ∧ nb ∈ pushed) ∧
        (¬ (nb ∈ visited ∧ before ∩ allowed ≠ ∅ ∧ before ∩ allowed ⊂ before) →
         cell_at g' nb = Some before ∧ nb ∉ pushed))) ∧
  (* the cell below is narrowed to three candidates and pushed *)
  (cell_at ocean_corner (0, 1) = Some vocabulary ∧
   vocabulary ∩ allowed_set {["ocean"]} = {["ocean"; "shore"; "lowland"]} ∧
   vocabulary ∩ allowed_set {["ocean"]} ⊂ vocabulary) ∧
  (* nothing would be left of the cell to the right, which is skipped *)
  (cell_at ocean_corner (1, 0) = Some {["mountain"]} ∧
   {["mountain"]} ∩ allowed_set {["ocean"]} = (∅ : gset string)) ∧
  step_result (propagate_step 2 2 (0, 0) (ocean_corner, [], []))
    = Some ([[["ocean"]; ["mountain"]];
             [["ocean"; "shore"; "lowland"];
              ["ocean"; "shore"; "mountain"; "lowland"; "highland";
               "polar"]]],
            [(0, 1)], 1%nat).
Proof.
  assert (grid_shape 2 2 ocean_corner) as Hshape
    by (split; [reflexivity|repeat constructor]).
  assert (grid_ok ocean_corner) as Hok
    by (repeat constructor; try apply vocabulary_ok; compute_done).
  assert (in_grid 2 2 (0, 0)) as Hin by (unfold in_grid; simpl; lia).
  split; [exact Hshape|]. split; [exact Hok|]. split; [exact Hin|].
  split.
  { exact (propagate_step_narrows_neighbors 2 2 ocean_corner (0, 0) [] []
             Hshape Hok Hin). }
  split; [split; [reflexivity|split; compute_done]|].
  split; [split; [reflexivity|compute_done]|].
  vm_compute. reflexivity.
Defined.

Lemma candidate_sets_valid_and_shrinking_witness :
  PLANET_PROFILES ≠ [] ∧
  ∃ r s',
    wave_function_collapse_run 2 2 PLANET_PROFILES start = Ok (r, s') ∧
    head (solved_history r) = Some (initial_grid 2 2) ∧
    (∀ g, g ∈ solved_history r →
       grid_shape 2 2 g ∧
       ∀ c, in_grid 2 2 c →
            ∃ a, cell_at g c = Some a ∧ a ≠ ∅ ∧ a ⊆ vocabulary) ∧
    (∀ i g g' c a a',
       solved_history r !! i = Some g →
       solved_history r !! S i = Some g' →
       cell_at g c = Some a → cell_at g' c = Some a' →
       a' ⊆ a ∧ (size a' ≤ size a)%nat).
Proof.
  split; [discriminate|].
  apply (candidate_sets_valid_and_shrinking 2 2 PLANET_PROFILES start).
  discriminate.
Defined.

Lemma solver_terminates_within_cell_count_witness :
  0 < 2 ∧ 0 < 2 ∧ PLANET_PROFILES ≠ [] ∧
  (∃ r s',
     wave_function_collapse_run 2 2 PLANET_PROFILES start = Ok (r, s') ∧
     wave_function_collapse 2 2 PLANET_PROFILES start
       = Ok (solved_tiles r, s') ∧
     Z.of_nat (solved_rounds r) ≤ 2 * 2 ∧
     ∃ g, last (solved_history r) = Some g ∧
          ∀ c, in_grid 2 2 c →
               ∃ name, cell_at (solved_tiles r) c = Some name ∧
                       cell_at g c = Some {[name]}) ∧
  (∀ tile_weights g log (s0 : @rng lcg),
     weights_ok tile_weights → solver_inv 2 2 (g, [], log) →
     ∃ r s1, wfc_iteration tile_weights 2 2 g log s0 = Ok (r, s1) ∧
       match r with
       | None => all_collapsed 2 2 g
       | Some (g', log') =>
           (open_cells g' < open_cells g)%nat ∧ grid_le g' g ∧
           ∃ c a chosen,
             in_grid 2 2 c ∧ cell_at g c = Some a ∧
             (1 < size a)%nat ∧ chosen ∈ a ∧
             let g1 := grid_update g c {[chosen]} in
             propagate (S (grid_card g1)) 2 2 (g1, [c], g1 :: log)
               = Ok (g', log')
       end).
Proof.
  split; [lia|]. split; [lia|]. split; [discriminate|].
  apply (solver_terminates_within_cell_count 2 2 PLANET_PROFILES start);
    [lia|lia|discriminate].
Defined.

Lemma heights_within_tile_range_witness :
  0 ≤ 2 ∧ 0 < 1 ∧ grid_shape 2 1 one_row ∧
  Forall (Forall (λ name, name ∈ vocabulary)) one_row ∧
  PLANET_PROFILES ≠ [] ∧
  ∃ heights samples s',
    generate_heightfield one_row PLANET_PROFILES start = Ok (heights, s') ∧
    repeat_draw (Z.to_nat (1 * 2)) (_planet_sample PLANET_PROFILES) start
      = Ok (samples, s') ∧
    grid_shape 2 1 heights ∧
    ∀ c name, in_grid 2 1 c → cell_at one_row c = Some name →
      ∃ tile sample elevation,
        dict_get TILE_TYPES name = Ok tile ∧
        samples !! Z.to_nat (c.2 * 2 + c.1) = Some sample ∧
        cell_at heights c = Some elevation ∧
        elevation = py_max (py_min sample (TileType.height_range tile).2)
                      (TileType.height_range tile).1 ∧
        ((TileType.height_range tile).1 <= elevation)%Q ∧
        (elevation <= (TileType.height_range tile).2)%Q.
Proof.
  assert (grid_shape 2 1 one_row) as Hshape
    by (split; [reflexivity|repeat constructor]).
  assert (Forall (Forall (λ name, name ∈ vocabulary)) one_row) as Hvoc.
  { repeat constructor; apply elem_of_vocabulary; unfold dict_keys; simpl;
      rewrite !elem_of_cons; tauto. }
  split; [lia|]. split; [lia|]. split; [exact Hshape|]. split; [exact Hvoc|].
  split; [discriminate|].
  apply (heights_within_tile_range 2 1 one_row PLANET_PROFILES start);
    [lia|lia|exact Hshape|exact Hvoc|discriminate].
Defined.

Lemma distance_to_ocean_first_in_scan_witness :
  grid_shape 2 2 coast ∧ in_grid 2 2 (1, 1) ∧
  (∃ t, cell_at coast (1, 1) = Some t ∧
     (t = "ocean" → _distance_to_ocean coast 1 1 = Ok 0%Q) ∧
     ((∀ d, chebyshev d ≤ 10 → ¬ ocean_offset 2 2 coast 1 1 d) →
      _distance_to_ocean coast 1 1 = Ok 10%Q) ∧
     (t ≠ "ocean" →
      (∃ d, chebyshev d ≤ 10 ∧ ocean_offset 2 2 coast 1 1 d) →
      ∃ before d after,
        scan_offsets 10 = before ++ d :: after ∧
        ocean_offset 2 2 coast 1 1 d ∧
        Forall (λ d', ¬ ocean_offset 2 2 coast 1 1 d') before ∧
        _distance_to_ocean coast 1 1 = Ok (math_hypot d.1 d.2))) ∧
  scan_offsets 10 = mjoin (square_offsets <$> seqZ 1 10) ∧
  square_offsets 1 = [(-1, -1); (-1, 0); (-1, 1); (0, -1); (0, 0); (0, 1);
                      (1, -1); (1, 0); (1, 1)] ∧
  (let tiles0 := [["ocean"; "ocean"]; ["shore"; "shore"]] in
   _distance_to_ocean tiles0 1 1 = Ok (math_hypot (-1) (-1)) ∧
   ocean_offset 2 2 tiles0 1 1 (0, -1) ∧
   0 * 0 + (-1) * (-1) < (-1) * (-1) + (-1) * (-1)).
Proof.
  assert (grid_shape 2 2 coast) as Hshape
    by (split; [reflexivity|repeat constructor]).
  assert (in_grid 2 2 (1, 1)) as Hin by (unfold in_grid; simpl; lia).
  split; [exact Hshape|]. split; [exact Hin|].
  exact (distance_to_ocean_first_in_scan 2 2 coast 1 1 Hshape Hin).
Defined.

Lemma degenerate_dimensions_reach_solver_witness :
  (width args_0x2 ≤ 0 ∨ height args_0x2 ≤ 0) ∧
  (∃ s', wave_function_collapse (width args_0x2) (height args_0x2)
           PLANET_PROFILES (Random (seed args_0x2))
         = Ok (replicate (Z.to_nat (height args_0x2)) [], s')) ∧
  (height args_0x2 ≤ 0 → main args_0x2 = Raise IndexError) ∧
  (2 ≤ height args_0x2 →
   main args_0x2
   = Ok {| run_tiles := replicate (Z.to_nat (height args_0x2)) [];
           run_heights := replicate (Z.to_nat (height args_0x2)) [];
           run_biomes := replicate (Z.to_nat (height args_0x2)) [];
           run_obj := [Comment "# Terrain OBJ"];
           run_metadata :=
             if String.eqb (metadata args_0x2) "" then None
             else Some {| meta_width := 0;
                          meta_height := height args_0x2;
                          meta_tiles :=
                            replicate (Z.to_nat (height args_0x2)) [];
                          meta_heights :=
                            replicate (Z.to_nat (height args_0x2)) [];
                          meta_biomes :=
                            replicate (Z.to_nat (height args_0x2)) []
                       |} |}).
Proof.
  assert (width args_0x2 ≤ 0 ∨ height args_0x2 ≤ 0) as Hdim
    by (left; simpl; lia).
  split; [exact Hdim|].
  exact (degenerate_dimensions_reach_solver args_0x2 Hdim).
Defined.

Lemma heights_2x2_shape : grid_shape 2 2 heights_2x2.
Proof. split; [reflexivity|repeat constructor]. Qed.

Lemma coast_shape : grid_shape 2 2 coast.
Proof. split; [reflexivity|repeat constructor]. Qed.

Lemma start_draw_in_unit_interval :
  (0 <= (random start).1)%Q ∧ ((random start).1 <= 1)%Q.
Proof. split; by vm_compute. Qed.

Lemma catalogue_weights_ok : weights_ok catalogue_weights.
Proof.
  intros name Hname%elem_of_vocabulary. unfold dict_keys in Hname. simpl in Hname.
  repeat (apply elem_of_cons in Hname as [->|Hname];
          [eexists; split; [by vm_compute|by vm_compute]|]).
  by apply elem_of_nil in Hname.
Qed.

Lemma initial_grid_inv :
  solver_inv 2 2 (initial_grid 2 2, [], [initial_grid 2 2]).
Proof.
  split; [split; [reflexivity|repeat constructor]|].
  split; [repeat constructor; apply vocabulary_ok|].
  split; [constructor|]. split; [|done].
  constructor. repeat constructor; apply vocabulary_ok.
Qed.

Lemma export_obj_header_vertices_faces_witness :
  0 ≤ 2 ∧ 0 < 2 ∧ grid_shape 2 2 heights_2x2 ∧
  ∃ vs fs,
    export_obj heights_2x2 1 = Ok (Comment "# Terrain OBJ" :: vs ++ fs) ∧
    Forall is_vertex vs ∧ Forall is_face fs ∧
    Z.of_nat (length vs) = 2 * 2 ∧
    (1 ≤ 2 → Z.of_nat (length fs) = 2 * (2 - 1) * (2 - 1)) ∧
    (2 = 0 → fs = []) ∧
    ∀ x y, in_grid 2 2 (x, y) →
      ∃ z, cell_at heights_2x2 (x, y) = Some z ∧
           vs !! Z.to_nat (y * 2 + x)
             = Some (Vertex (inject_Z x * 1) (inject_Z y * 1) z).
Proof.
  split; [lia|]. split; [lia|]. split; [exact heights_2x2_shape|].
  exact (export_obj_header_vertices_faces 2 2 heights_2x2 1
           ltac:(lia) ltac:(lia) heights_2x2_shape).
Defined.

Lemma export_obj_faces_name_written_vertices_witness :
  0 ≤ 2 ∧ 0 < 2 ∧ grid_shape 2 2 heights_2x2 ∧
  ∃ vs fs,
    export_obj heights_2x2 1 = Ok (Comment "# Terrain OBJ" :: vs ++ fs) ∧
    length vs = Z.to_nat (2 * 2) ∧
    (∀ f, f ∈ fs ↔
       ∃ x y, 0 ≤ x < 2 - 1 ∧ 0 ≤ y < 2 - 1 ∧
         (f = Face (vertex_index 2 x y) (vertex_index 2 (x + 1) y)
                (vertex_index 2 (x + 1) (y + 1)) ∨
          f = Face (vertex_index 2 x y) (vertex_index 2 (x + 1) (y + 1))
                (vertex_index 2 x (y + 1)))) ∧
    (∀ a b c, Face a b c ∈ fs →
       a ≠ b ∧ b ≠ c ∧ a ≠ c ∧
       Forall (λ i, 1 ≤ i ≤ Z.of_nat (length vs)) [a; b; c]).
Proof.
  split; [lia|]. split; [lia|]. split; [exact heights_2x2_shape|].
  exact (export_obj_faces_name_written_vertices 2 2 heights_2x2 1
           ltac:(lia) ltac:(lia) heights_2x2_shape).
Defined.

Lemma temperature_at_range_witness :
  (-1 <= 0)%Q ∧ (0 <= 1)%Q ∧
  (0 <= _temperature_at 0 1000)%Q ∧
  (_temperature_at 0 1000 == 0 ↔ 0 == -1 ∨ 0 == 1 ∨ 8000 <= 1000)%Q ∧
  (0 <= 1000 → _temperature_at 0 1000 <= 1)%Q ∧
  (1000 < 0 → 0 == 0 → 1 < _temperature_at 0 1000)%Q ∧
  (∀ higher, 1000 <= higher →
     _temperature_at 0 higher <= _temperature_at 0 1000)%Q.
Proof.
  split; [by vm_compute|]. split; [by vm_compute|].
  apply (temperature_at_range 0 1000); by vm_compute.
Defined.

Lemma moisture_at_range_witness :
  (0 <= (random start).1)%Q ∧ ((random start).1 <= 1)%Q ∧ (0 <= 3)%Q ∧
  ∃ moisture,
    _moisture_at 3 start = Ok (moisture, (random start).2) ∧
    (0 <= moisture)%Q ∧ (moisture <= 1)%Q ∧
    ((4 # 10) * (1 - 3 / 12) <= moisture)%Q ∧
    (12 <= 3 → moisture <= 6 # 10)%Q ∧
    ∀ farther, (3 <= farther)%Q →
      ∃ drier, _moisture_at farther start = Ok (drier, (random start).2) ∧
               (drier <= moisture)%Q.
Proof.
  split; [apply start_draw_in_unit_interval|].
  split; [apply start_draw_in_unit_interval|]. split; [by vm_compute|].
  apply (moisture_at_range 3 start);
    [apply start_draw_in_unit_interval..|by vm_compute].
Defined.

Lemma strip_shape : grid_shape 1 11 strip.
Proof. split; [reflexivity|repeat constructor]. Qed.

Lemma strip_heights_shape : grid_shape 1 11 strip_heights.
Proof. split; [reflexivity|repeat constructor]. Qed.


Lemma assign_biomes_polar_rows_alpine_witness :
  0 ≤ 2 ∧ 2 ≤ 2 ∧ grid_shape 2 2 coast ∧ grid_shape 2 2 heights_2x2 ∧
  ∃ biomes s',
    assign_biomes coast heights_2x2 start = Ok (biomes, s') ∧
    grid_shape 2 2 biomes ∧
    ∀ c, in_grid 2 2 c →
      ∃ b, cell_at biomes c = Some b ∧ b ∈ biome_labels ∧
           (c.2 = 0 ∨ c.2 = 2 - 1 → b = "alpine") ∧
           (∀ elevation, cell_at heights_2x2 c = Some elevation →
                         (3500 < elevation)%Q → b = "alpine").
Proof.
  split; [lia|]. split; [lia|]. split; [exact coast_shape|].
  split; [exact heights_2x2_shape|].
  exact (assign_biomes_polar_rows_alpine 2 2 coast heights_2x2 start
           ltac:(lia) ltac:(lia) coast_shape heights_2x2_shape).
Defined.

Lemma main_completes_on_regular_grid_witness :
  1 ≤ width args_2x2 ∧ 2 ≤ height args_2x2 ∧
  ∃ run,
    main args_2x2 = Ok run ∧
    grid_shape (width args_2x2) (height args_2x2) (run_tiles run) ∧
    grid_shape (width args_2x2) (height args_2x2) (run_heights run) ∧
    grid_shape (width args_2x2) (height args_2x2) (run_biomes run) ∧
    (∀ c, in_grid (width args_2x2) (height args_2x2) c →
       ∃ name tile elevation biome,
         cell_at (run_tiles run) c = Some name ∧
         dict_get TILE_TYPES name = Ok tile ∧
         cell_at (run_heights run) c = Some elevation ∧
         ((TileType.height_range tile).1 <= elevation)%Q ∧
         (elevation <= (TileType.height_range tile).2)%Q ∧
         cell_at (run_biomes run) c = Some biome ∧
         biome ∈ biome_labels) ∧
    export_obj (run_heights run) (scale args_2x2) = Ok (run_obj run) ∧
    length (run_obj run)
      = Z.to_nat (1 + width args_2x2 * height args_2x2
                  + 2 * (width args_2x2 - 1) * (height args_2x2 - 1)) ∧
    run_metadata run =
      if String.eqb (metadata args_2x2) "" then None
      else Some {| meta_width := width args_2x2;
                   meta_height := height args_2x2;
                   meta_tiles := run_tiles run;
                   meta_heights := run_heights run;
                   meta_biomes := run_biomes run |}.
Proof.
  split; [simpl; lia|]. split; [simpl; lia|].
  apply (main_completes_on_regular_grid args_2x2); simpl; lia.
Defined.

Lemma distance_to_ocean_nearest_ring_witness :
  grid_shape 2 2 coast ∧ in_grid 2 2 (1, 1) ∧
  cell_at coast (1, 1) ≠ Some "ocean" ∧
  (∃ d0, chebyshev d0 ≤ 10 ∧ ocean_offset 2 2 coast 1 1 d0) ∧
  ∃ d,
    _distance_to_ocean coast 1 1 = Ok (math_hypot d.1 d.2) ∧
    ocean_offset 2 2 coast 1 1 d ∧
    1 ≤ chebyshev d ≤ 10 ∧
    ∀ d', ocean_offset 2 2 coast 1 1 d' → chebyshev d ≤ chebyshev d'.
Proof.
  assert (in_grid 2 2 (1, 1)) as Hin by (unfold in_grid; simpl; lia).
  assert (cell_at coast (1, 1) ≠ Some "ocean") as Hland by discriminate.
  assert (∃ d0, chebyshev d0 ≤ 10 ∧ ocean_offset 2 2 coast 1 1 d0) as Hnear.
  { exists (0, -1). split; [by vm_compute|].
    split; [unfold in_grid; simpl; lia|reflexivity]. }
  split; [exact coast_shape|]. split; [exact Hin|]. split; [exact Hland|].
  split; [exact Hnear|].
  exact (distance_to_ocean_nearest_ring 2 2 coast 1 1 coast_shape Hin Hland
           Hnear).
Defined.



Lemma initial_grid_open : ¬ all_collapsed 2 2 (initial_grid 2 2).
Proof.
  intros Hall.
  assert (size vocabulary ≤ 1)%nat as Hsize.
  { apply (Hall (0, 0) vocabulary); [|reflexivity].
    unfold in_grid. simpl. lia. }
  rewrite vocabulary_size in Hsize. lia.
Qed.

Lemma round_collapses_min_entropy_cell_witness :
  weights_ok catalogue_weights ∧
  solver_inv 2 2 (initial_grid 2 2, [], [initial_grid 2 2]) ∧
  ¬ all_collapsed 2 2 (initial_grid 2 2) ∧
  ∃ c a e chosen g' log' s',
    wfc_iteration catalogue_weights 2 2 (initial_grid 2 2)
      [initial_grid 2 2] start
      = Ok (Some (g', log'), s') ∧
    in_grid 2 2 c ∧ cell_at (initial_grid 2 2) c = Some a ∧
    (1 < size a)%nat ∧
    entropy catalogue_weights a = Ok e ∧
    (∀ c' a', in_grid 2 2 c' → cell_at (initial_grid 2 2) c' = Some a' →
              (1 < size a')%nat →
              ∃ e', entropy catalogue_weights a' = Ok e' ∧ (e <= e')%Q) ∧
    chosen ∈ a ∧ cell_at g' c = Some {[chosen]}.
Proof.
  split; [exact catalogue_weights_ok|]. split; [exact initial_grid_inv|].
  split; [exact initial_grid_open|].
  exact (round_collapses_min_entropy_cell catalogue_weights 2 2
           (initial_grid 2 2) [initial_grid 2 2] start
           catalogue_weights_ok initial_grid_inv initial_grid_open).
Defined.

Lemma entropy_of_normalised_weights_witness :
  weights_ok catalogue_weights ∧ {["ocean"; "shore"]} ⊆ vocabulary ∧
  ∃ weights,
    Forall2 (λ name w, catalogue_weights !! name = Some w ∧ (0 < w)%Q)
      (set_iter {["ocean"; "shore"]}) weights ∧
    let total := py_sum weights in
    entropy catalogue_weights {["ocean"; "shore"]} =
      Ok (if (size ({["ocean"; "shore"]} : gset string) <=? 1)%nat then 0
          else - py_sum ((λ w, w / total * math_log (w / total)) <$> weights))%Q.
Proof.
  assert (({["ocean"; "shore"]} : gset string) ⊆ vocabulary) as Hsub
    by compute_done.
  split; [exact catalogue_weights_ok|]. split; [exact Hsub|].
  exact (entropy_of_normalised_weights catalogue_weights {["ocean"; "shore"]}
           catalogue_weights_ok Hsub).
Defined.

Lemma propagate_independent_of_set_order_witness :
  solver_inv 2 2 (ocean_start, [(0, 0)], [ocean_start]) ∧
  propagate (SO := sorted_order) 20 2 2
    (ocean_start, [(0, 0)], [ocean_start])
  = propagate (SO := reversed_order) 20 2 2
      (ocean_start, [(0, 0)], [ocean_start]) ∧
  (* the propagation narrows the three other cells, in three writes *)
  grid_result (propagate (SO := sorted_order) 20 2 2
                 (ocean_start, [(0, 0)], [ocean_start]))
  = Some ([[["ocean"]; ["ocean"; "shore"; "lowland"]];
           [["ocean"; "shore"; "lowland"];
            ["ocean"; "shore"; "lowland"; "highland"]]], 4%nat) ∧
  names_of ocean_start
  = [[["ocean"];
      ["ocean"; "shore"; "mountain"; "lowland"; "highland"; "polar"]];
     [["ocean"; "shore"; "mountain"; "lowland"; "highland"; "polar"];
      ["ocean"; "shore"; "mountain"; "lowland"; "highland"; "polar"]]].
Proof.
  assert (solver_inv 2 2 (ocean_start, [(0, 0)], [ocean_start])) as Hinv.
  { assert (grid_ok ocean_start) as Hok
      by (repeat constructor; try apply vocabulary_ok; compute_done).
    split; [split; [reflexivity|repeat constructor]|].
    split; [exact Hok|].
    split; [apply Forall_singleton; unfold in_grid; simpl; lia|].
    split; [by constructor|done]. }
  split; [exact Hinv|]. split.
  { exact (propagate_independent_of_set_order sorted_order reversed_order 20
             2 2 ocean_start [(0, 0)] [ocean_start] Hinv). }
  split; vm_compute; reflexivity.
Defined.

Lemma rounds_keep_grid_settled_witness :
  weights_ok catalogue_weights ∧
  solver_inv 2 2 (initial_grid 2 2, [], [initial_grid 2 2]) ∧
  settled_off 2 2 (initial_grid 2 2) [] ∧
  settled_off 2 2 (initial_grid 2 2) [] ∧
  (∃ r s', wfc_iteration catalogue_weights 2 2 (initial_grid 2 2)
             [initial_grid 2 2] start = Ok (r, s') ∧
           ∀ g' log', r = Some (g', log') → settled_off 2 2 g' []) ∧
  (∀ c a chosen,
     in_grid 2 2 c → cell_at (initial_grid 2 2) c = Some a → chosen ∈ a →
     let g1 := grid_update (initial_grid 2 2) c {[chosen]} in
     ∃ g' log',
       propagate (S (grid_card g1)) 2 2 (g1, [c], g1 :: [initial_grid 2 2])
         = Ok (g', log') ∧
       settled_off 2 2 g' [] ∧
       cell_at g' c = Some {[chosen]} ∧
       ∀ nb b, in_grid 2 2 nb → adjacent c nb →
               cell_at g' nb = Some b →
               b ⊆ allowed_set {[chosen]} ∨ b ∩ allowed_set {[chosen]} = ∅).
Proof.
  split; [exact catalogue_weights_ok|]. split; [exact initial_grid_inv|].
  split; [exact (initial_grid_settled 2 2)|].
  exact (rounds_keep_grid_settled catalogue_weights 2 2 (initial_grid 2 2)
           [initial_grid 2 2] start catalogue_weights_ok initial_grid_inv
           (initial_grid_settled 2 2)).
Defined.

Lemma initial_tile_weights_within_catalogue_witness :
  PLANET_PROFILES ≠ [] ∧
  ∃ weights s',
    _initial_tile_weights PLANET_PROFILES start = Ok (weights, s') ∧
    ∀ tile_name tile, (tile_name, tile) ∈ TILE_TYPES →
      ∃ w, weights !! tile_name = Some w ∧
           ((5 # 100) * TileType.weight tile <= w)%Q ∧
           (w <= TileType.weight tile)%Q.
Proof.
  split; [discriminate|].
  apply (initial_tile_weights_within_catalogue PLANET_PROFILES start).
  discriminate.
Defined.

Lemma lcg_random_nonneg (s0 : @rng lcg) : (0 <= (random s0).1)%Q.
Proof.
  unfold random, lcg, lcg_random, lcg_next, Qle. simpl.
  pose proof (Z.mod_pos_bound (s0 * 1103515245 + 12345) modulus
                ltac:(reflexivity)).
  lia.
Qed.

Lemma assign_biomes_ocean_never_dry_witness :
  (∀ s0 : @rng lcg, (0 <= (random s0).1)%Q) ∧
  0 ≤ 1 ∧ 2 ≤ 11 ∧ grid_shape 1 11 strip ∧ grid_shape 1 11 strip_heights ∧
  (∃ biomes s',
     assign_biomes strip strip_heights start = Ok (biomes, s') ∧
     ∀ c b, in_grid 1 11 c → cell_at strip c = Some "ocean" →
            cell_at biomes c = Some b → b ≠ "desert" ∧ b ≠ "tundra") ∧
  (* the ocean of row 1 is cold enough for a tundra and the ocean of row 5
     warm enough for a desert; both are too moist, and come out as taiga
     and rainforest *)
  cell_at strip (0, 1) = Some "ocean" ∧ cell_at strip (0, 5) = Some "ocean" ∧
  (_temperature_at (latitude 11 1) (-1000) == 9 # 40)%Q ∧
  (_temperature_at (latitude 11 5) (-1000) == 9 # 8)%Q ∧
  grid_of (assign_biomes strip strip_heights start)
  = Some [["alpine"]; ["taiga"]; ["taiga"]; ["forest"]; ["rainforest"];
          ["rainforest"]; ["rainforest"]; ["forest"]; ["taiga"];
          ["taiga"]; ["alpine"]].
Proof.
  split; [exact lcg_random_nonneg|].
  split; [lia|]. split; [lia|]. split; [exact strip_shape|].
  split; [exact strip_heights_shape|]. split.
  { exact (assign_biomes_ocean_never_dry 1 11 strip strip_heights start
             lcg_random_nonneg ltac:(lia) ltac:(lia) strip_shape
             strip_heights_shape). }
  split; [reflexivity|]. split; [reflexivity|].
  split; [reflexivity|]. split; [reflexivity|].
  vm_compute. reflexivity.
Defined.

End Witnesses.
